(** * Jmail: the authentication core (jmail/auth.py) and its collaborators

    A shallow embedding of the password hasher, the token engine and the
    register / login use cases of the Jmail service, together with the
    parts of the Python standard library they call (base64, hmac, hashlib,
    json, re), and the properties of the specification proved or refuted
    over it.  The request handlers of jmail/__init__.py, the users table
    of jmail/database.py, the mail service of jmail/email_service.py and
    the WSGI conversion of jmail/http.py are embedded as well, with
    further properties read off the code.

    Modelling conventions.
    - A Python [bytes] object is a [list byte].
    - A Python [str] is represented by its UTF-8 encoding, also a
      [list byte]; [s.encode("utf-8")] is therefore the identity on the
      representation.  Strings holding lone surrogates have no UTF-8
      encoding and are outside the model.  Operations that work on code
      points ([len], the regular expression engine) decode the
      representation first.
    - A Python [int] is a [Z].
    - Exceptions are values of type [exn]; a computation that may raise
      returns a [result].
    - The clock ([time.time()]) and the random source ([os.urandom]) are
      explicit arguments.
    - The users table and the list of delivered mail are passed as
      explicit state; the SMTP libraries are a function that tells
      whether a message is delivered. *)

From Stdlib Require Import List NArith ZArith Lia Bool String Ascii.
From Stdlib Require Import Strings.Byte DecimalString DecimalN DecimalZ.
Import ListNotations.

#[local] Set Warnings "-register-all".

Local Open Scope list_scope.

(** ** Python values *)

Definition bytes := list byte.
Definition str := list byte.

(** A string literal of the source. *)
Definition lit (s : string) : str := list_byte_of_string s.

Definition ord (c : byte) : N := Byte.to_N c.

(** The double quote character. *)
Definition dquote : byte := Byte.x22.

(** The byte with value [n mod 256]. *)
Definition chr (n : N) : byte := byte_of_ascii (ascii_of_N n).

Definition encode_utf8 (s : str) : bytes := s.

Definition bytes_eqb (a b : bytes) : bool :=
  if list_eq_dec byte_eq_dec a b then true else false.

(** A continuation byte of UTF-8 (10xxxxxx). *)
Definition is_continuation (c : byte) : bool :=
  (N.leb 128 (ord c) && N.ltb (ord c) 192)%bool.

(** [len(s)] for a [str]: the number of code points, that is the number of
    bytes that are not continuation bytes. *)
Definition len (s : str) : nat :=
  List.length (filter (fun c => negb (is_continuation c)) s).

Definition is_ascii (s : str) : bool := forallb (fun c => N.ltb (ord c) 128) s.

(** ** Exceptions and results *)

Inductive exn : Type :=
| ValueError (msg : string)
| BinasciiError (msg : string)      (* binascii.Error, a ValueError *)
| JSONDecodeError (msg : string)    (* json.JSONDecodeError, a ValueError *)
| TypeError
| AttributeError
| IntegrityError                    (* sqlite3.IntegrityError *)
| HTTPError (status : Z) (msg : string)  (* jmail.HTTPError and its subclasses *)
| OutsideModel.                     (* the input is not covered by the model *)

(** [isinstance(e, ValueError)] *)
Definition is_ValueError (e : exn) : bool :=
  match e with
  | ValueError _ | BinasciiError _ | JSONDecodeError _ => true
  | _ => false
  end.

(** [str(e)].  The program reads the message of the errors it raises
    itself and of those of binascii; the other texts stand for messages
    that are not modelled. *)
Definition exn_str (e : exn) : string :=
  match e with
  | ValueError m | BinasciiError m | JSONDecodeError m | HTTPError _ m => m
  | TypeError => "TypeError"
  | AttributeError => "AttributeError"
  | IntegrityError => "UNIQUE constraint failed: users.email"
  | OutsideModel => ""
  end.

Inductive result (A : Type) : Type :=
| Ok (a : A)
| Raise (e : exn).
Arguments Ok {A} a.
Arguments Raise {A} e.

Definition bind {A B} (c : result A) (k : A -> result B) : result B :=
  match c with
  | Ok a => k a
  | Raise e => Raise e
  end.

Notation "x <- c ;; k" := (bind c (fun x => k))
  (at level 61, c at next level, right associativity).

(** [try: c  except <class> as exc: h exc] *)
Definition try_except {A} (c : result A) (catches : exn -> bool)
    (h : exn -> result A) : result A :=
  match c with
  | Ok a => Ok a
  | Raise e => if catches e then h e else Raise e
  end.

(** ** base64 (Lib/base64.py over binascii) *)

Module Base64.

Local Open Scope N_scope.

Definition alphabet : bytes :=
  lit "ABCDEFGHIJKLMNOPQRSTUVWXYZabcdefghijklmnopqrstuvwxyz0123456789+/".

Definition PAD : byte := "="%byte.

Definition table_b2a (n : N) : byte := nth (N.to_nat n) alphabet PAD.

(** The reverse table of binascii: the 6-bit value of an alphabet
    character, 255 for every other character. *)
Definition table_a2b (c : byte) : N :=
  let o := ord c in
  if (65 <=? o) && (o <=? 90) then o - 65
  else if (97 <=? o) && (o <=? 122) then o - 71
  else if (48 <=? o) && (o <=? 57) then o + 4
  else if o =? 43 then 62
  else if o =? 47 then 63
  else 255.

(** [binascii.b2a_base64(data, newline=False)] *)
Fixpoint b2a_base64 (data : bytes) : bytes :=
  match data with
  | [] => []
  | [a] =>
      [table_b2a (N.shiftr (ord a) 2);
       table_b2a (N.shiftl (N.land (ord a) 3) 4); PAD; PAD]
  | [a; b] =>
      [table_b2a (N.shiftr (ord a) 2);
       table_b2a (N.lor (N.shiftl (N.land (ord a) 3) 4) (N.shiftr (ord b) 4));
       table_b2a (N.shiftl (N.land (ord b) 15) 2); PAD]
  | a :: b :: c :: rest =>
      table_b2a (N.shiftr (ord a) 2)
      :: table_b2a (N.lor (N.shiftl (N.land (ord a) 3) 4) (N.shiftr (ord b) 4))
      :: table_b2a (N.lor (N.shiftl (N.land (ord b) 15) 2) (N.shiftr (ord c) 6))
      :: table_b2a (N.land (ord c) 63)
      :: b2a_base64 rest
  end.

Definition emit (x : N) (r : result bytes) : result bytes :=
  match r with
  | Ok l => Ok (chr x :: l)
  | Raise e => Raise e
  end.

Definition length_error (nout : N) : exn :=
  BinasciiError
    ("Invalid base64-encoded string: number of data characters ("
     ++ NilEmpty.string_of_uint (N.to_uint (nout / 3 * 4 + 1))
     ++ ") cannot be 1 more than a multiple of 4")%string.

(** [binascii.a2b_base64(data, strict_mode=False)]: the decoding loop.
    [quad_pos], [leftchar] and [pads] are the variables of the C
    function; [nout] counts the bytes written so far. Characters
    outside the alphabet are skipped. *)
Fixpoint a2b_loop (s : bytes) (quad_pos : nat) (leftchar : N) (pads : nat)
    (nout : N) : result bytes :=
  match s with
  | [] =>
      match quad_pos with
      | O => Ok []
      | S O => Raise (length_error nout)
      | _ => Raise (BinasciiError "Incorrect padding")
      end
  | this_ch :: rest =>
      if Byte.eqb this_ch PAD then
        if Nat.leb 2 quad_pos then
          if Nat.leb 4 (quad_pos + S pads) then Ok []
          else a2b_loop rest quad_pos leftchar (S pads) nout
        else a2b_loop rest quad_pos leftchar pads nout
      else
        let v := table_a2b this_ch in
        if 64 <=? v then a2b_loop rest quad_pos leftchar pads nout
        else
          match quad_pos with
          | O => a2b_loop rest 1 v 0 nout
          | S O =>
              emit (N.lor (N.shiftl leftchar 2) (N.shiftr v 4))
                   (a2b_loop rest 2 (N.land v 15) 0 (nout + 1))
          | S (S O) =>
              emit (N.lor (N.shiftl leftchar 4) (N.shiftr v 2))
                   (a2b_loop rest 3 (N.land v 3) 0 (nout + 1))
          | _ =>
              emit (N.lor (N.shiftl leftchar 6) v)
                   (a2b_loop rest 0 0 0 (nout + 1))
          end
  end.

Definition a2b_base64 (s : bytes) : result bytes := a2b_loop s 0 0 0 0.

(** [bytes.translate] with the URL-safe tables of base64.py *)
Definition urlsafe_encode_translation (c : byte) : byte :=
  if Byte.eqb c "+"%byte then "-"%byte
  else if Byte.eqb c "/"%byte then "_"%byte else c.

Definition urlsafe_decode_translation (c : byte) : byte :=
  if Byte.eqb c "-"%byte then "+"%byte
  else if Byte.eqb c "_"%byte then "/"%byte else c.

Definition urlsafe_b64encode (s : bytes) : bytes :=
  map urlsafe_encode_translation (b2a_base64 s).

(** [base64.urlsafe_b64decode(s)] for a [str] argument: the string is
    first encoded as ASCII. *)
Definition urlsafe_b64decode (s : str) : result bytes :=
  if is_ascii s then a2b_base64 (map urlsafe_decode_translation s)
  else Raise (ValueError "string argument should contain only ASCII characters").

(** The characters that carry data for [urlsafe_b64decode]: the letters,
    the digits and [+ / - _]. *)
Definition data_char (c : byte) : bool :=
  table_a2b (urlsafe_decode_translation c) <? 64.

(** *** Definitions used by the statements about base64 *)

(** The character that encodes a 6-bit value in the URL-safe alphabet. *)
Definition enc (n : N) : byte := urlsafe_encode_translation (table_b2a n).

Definition enc_ok (n : N) : bool :=
  let e := enc n in
  let d := urlsafe_decode_translation e in
  negb (Byte.eqb d PAD) && (table_a2b d =? n) && (ord e <? 128)
  && negb (Byte.eqb e PAD) && negb (Byte.eqb e "."%byte)
  && negb (Byte.eqb e "$"%byte) && negb (is_continuation e).

(** The three ways a byte is cut into the fields of 6-bit values. *)
Definition cut_ok (n : N) : bool :=
  (N.shiftr n 2 <? 64) && (N.land n 3 <? 4)
  && (N.lor (N.shiftl (N.shiftr n 2) 2) (N.land n 3) =? n)
  && (N.shiftr n 4 <? 16) && (N.land n 15 <? 16)
  && (N.lor (N.shiftl (N.shiftr n 4) 4) (N.land n 15) =? n)
  && (N.shiftr n 6 <? 4) && (N.land n 63 <? 64)
  && (N.lor (N.shiftl (N.shiftr n 6) 6) (N.land n 63) =? n).

(** The four 6-bit values of a group of three bytes, and the last value
    of a group of one and of two bytes. *)
Definition q1 (a : byte) : N := N.shiftr (ord a) 2.

Definition q2 (a b : byte) : N :=
  N.lor (N.shiftl (N.land (ord a) 3) 4) (N.shiftr (ord b) 4).

Definition q3 (b c : byte) : N :=
  N.lor (N.shiftl (N.land (ord b) 15) 2) (N.shiftr (ord c) 6).

Definition q4 (c : byte) : N := N.land (ord c) 63.

Definition q2_last (a : byte) : N := N.shiftl (N.land (ord a) 3) 4.

Definition q3_last (b : byte) : N := N.shiftl (N.land (ord b) 15) 2.

(** The characters the encoder writes. *)
Definition urlsafe_char (c : byte) : Prop := exists n, n < 64 /\ c = enc n.

Definition tr := urlsafe_decode_translation.

(** The padding [_b64decode] puts back. *)
Definition pad_count (k : nat) : nat := Z.to_nat ((- Z.of_nat k) mod 4).

Definition data_ok (c : byte) : bool :=
  if data_char c then
    negb (Byte.eqb (tr c) PAD) && (ord c <? 128) && negb (is_continuation c)
  else true.

Definition format_error (r : result bytes) : Prop :=
  exists msg, r = Raise (BinasciiError msg).

End Base64.

(** [bytes.rstrip(chars)] for a single character *)
Fixpoint rstrip (c : byte) (s : bytes) : bytes :=
  match s with
  | [] => []
  | x :: s' =>
      match rstrip c s' with
      | [] => if Byte.eqb x c then [] else [x]
      | r => x :: r
      end
  end.

(** ** jmail/auth.py: the codec helpers *)

Definition _b64encode (data : bytes) : str :=
  rstrip "="%byte (Base64.urlsafe_b64encode data).

Definition _b64decode (data : str) : result bytes :=
  let padding := repeat "="%byte (Z.to_nat ((- Z.of_nat (len data)) mod 4)) in
  Base64.urlsafe_b64decode (data ++ padding).

(** ** hashlib.sha256 (FIPS 180-4), hmac (RFC 2104), hashlib.pbkdf2_hmac (RFC 8018) *)

Module SHA256.

Local Open Scope N_scope.

Definition mask32 : N := 4294967295.

Definition add32 (x y : N) : N := N.land (x + y) mask32.

Definition rotr (n x : N) : N :=
  N.lor (N.shiftr x n) (N.land (N.shiftl x (32 - n)) mask32).

Definition Ch (x y z : N) : N :=
  N.lxor (N.land x y) (N.land (N.lxor x mask32) z).

Definition Maj (x y z : N) : N :=
  N.lxor (N.lxor (N.land x y) (N.land x z)) (N.land y z).

Definition bsig0 (x : N) : N := N.lxor (N.lxor (rotr 2 x) (rotr 13 x)) (rotr 22 x).
Definition bsig1 (x : N) : N := N.lxor (N.lxor (rotr 6 x) (rotr 11 x)) (rotr 25 x).
Definition ssig0 (x : N) : N := N.lxor (N.lxor (rotr 7 x) (rotr 18 x)) (N.shiftr x 3).
Definition ssig1 (x : N) : N := N.lxor (N.lxor (rotr 17 x) (rotr 19 x)) (N.shiftr x 10).

(** The round constants: the leading 32 fractional bits of the cube roots
    of the primes 2 .. 311. *)
Definition round_constants : list N :=
  [ 1116352408; 1899447441; 3049323471; 3921009573;
    961987163; 1508970993; 2453635748; 2870763221;
    3624381080; 310598401; 607225278; 1426881987;
    1925078388; 2162078206; 2614888103; 3248222580;
    3835390401; 4022224774; 264347078; 604807628;
    770255983; 1249150122; 1555081692; 1996064986;
    2554220882; 2821834349; 2952996808; 3210313671;
    3336571891; 3584528711; 113926993; 338241895;
    666307205; 773529912; 1294757372; 1396182291;
    1695183700; 1986661051; 2177026350; 2456956037;
    2730485921; 2820302411; 3259730800; 3345764771;
    3516065817; 3600352804; 4094571909; 275423344;
    430227734; 506948616; 659060556; 883997877;
    958139571; 1322822218; 1537002063; 1747873779;
    1955562222; 2024104815; 2227730452; 2361852424;
    2428436474; 2756734187; 3204031479; 3329325298 ].

Record state : Type := State
  { sa : N; sb : N; sc : N; sd : N; se : N; sf : N; sg : N; sh : N }.

Definition initial_state : state :=
  State 1779033703 3144134277 1013904242 2773480762
        1359893119 2600822924 528734635 1541459225.

(** One round.  [window] holds the sixteen most recent words of the
    message schedule, oldest first; its head is the word of this round. *)
Definition round (acc : state * list N) (k : N) : state * list N :=
  let '(s, window) := acc in
  let w := nth 0 window 0 in
  let t1 := add32 (add32 (add32 (add32 (sh s) (bsig1 (se s)))
                                (Ch (se s) (sf s) (sg s))) k) w in
  let t2 := add32 (bsig0 (sa s)) (Maj (sa s) (sb s) (sc s)) in
  let next :=
    add32 (add32 (add32 (ssig1 (nth 14 window 0)) (nth 9 window 0))
                 (ssig0 (nth 1 window 0))) w in
  (State (add32 t1 t2) (sa s) (sb s) (sc s) (add32 (sd s) t1) (se s) (sf s) (sg s),
   tl window ++ [next]).

Definition compress (s : state) (block : list N) : state :=
  let s' := fst (fold_left round round_constants (s, block)) in
  State (add32 (sa s) (sa s')) (add32 (sb s) (sb s')) (add32 (sc s) (sc s'))
        (add32 (sd s) (sd s')) (add32 (se s) (se s')) (add32 (sf s) (sf s'))
        (add32 (sg s) (sg s')) (add32 (sh s) (sh s')).

(** Big-endian words. *)
Fixpoint words_of_bytes (l : bytes) : list N :=
  match l with
  | a :: b :: c :: d :: rest =>
      N.lor (N.shiftl (ord a) 24)
            (N.lor (N.shiftl (ord b) 16) (N.lor (N.shiftl (ord c) 8) (ord d)))
      :: words_of_bytes rest
  | _ => []
  end.

Definition bytes_of_word (w : N) : bytes :=
  [chr (N.shiftr w 24); chr (N.shiftr w 16); chr (N.shiftr w 8); chr w].

(** The message followed by the bit 1, zeros, and the 64-bit length in
    bits, a multiple of 64 bytes in all. *)
Definition pad (msg : bytes) : bytes :=
  let n := N.of_nat (List.length msg) in
  let zeros := N.to_nat ((55 + 64 - n mod 64) mod 64) in
  let bits := n * 8 in
  msg ++ [chr 128] ++ repeat (chr 0) zeros
      ++ bytes_of_word (N.shiftr bits 32) ++ bytes_of_word bits.

Fixpoint blocks (fuel : nat) (ws : list N) : list (list N) :=
  match fuel, ws with
  | S fuel', _ :: _ => firstn 16 ws :: blocks fuel' (skipn 16 ws)
  | _, _ => []
  end.

Definition digest_of_state (s : state) : bytes :=
  bytes_of_word (sa s) ++ bytes_of_word (sb s) ++ bytes_of_word (sc s)
  ++ bytes_of_word (sd s) ++ bytes_of_word (se s) ++ bytes_of_word (sf s)
  ++ bytes_of_word (sg s) ++ bytes_of_word (sh s).

(** [hashlib.sha256(msg).digest()] *)
Definition sha256 (msg : bytes) : bytes :=
  let ws := words_of_bytes (pad msg) in
  digest_of_state (fold_left compress (blocks (List.length ws) ws) initial_state).

Definition xor_bytes (a b : bytes) : bytes :=
  map (fun p => chr (N.lxor (ord (fst p)) (ord (snd p)))) (combine a b).

Definition block_size : nat := 64.

(** [hmac.new(key, msg, sha256).digest()] *)
Definition hmac_sha256 (key msg : bytes) : bytes :=
  let key0 := if Nat.ltb block_size (List.length key) then sha256 key else key in
  let key1 := key0 ++ repeat (chr 0) (block_size - List.length key0) in
  let ipad := map (fun c => chr (N.lxor (ord c) 54)) key1 in
  let opad := map (fun c => chr (N.lxor (ord c) 92)) key1 in
  sha256 (opad ++ sha256 (ipad ++ msg)).

(** [hashlib.pbkdf2_hmac("sha256", password, salt, iterations)], with the
    default derived-key length of one digest (a single block T_1). *)
Definition pbkdf2_hmac_sha256 (password salt : bytes) (iterations : N) : bytes :=
  let u1 := hmac_sha256 password (salt ++ [chr 0; chr 0; chr 0; chr 1]) in
  fst (N.iter (iterations - 1)
         (fun tu : bytes * bytes =>
            let u := hmac_sha256 password (snd tu) in (xor_bytes (fst tu) u, u))
         (u1, u1)).

End SHA256.

(** [hmac.compare_digest(a, b)]: equality of the two byte strings (its
    running time is not modelled). *)
Definition compare_digest (a b : bytes) : bool := bytes_eqb a b.

(** ** Strings: code points, [split], [join] *)

(** The longest prefix whose elements satisfy [p], and the rest. *)
Fixpoint span {A : Type} (p : A -> bool) (l : list A) : list A * list A :=
  match l with
  | x :: l' =>
      if p x then let '(a, b) := span p l' in (x :: a, b) else ([], l)
  | [] => ([], [])
  end.

(** The code points of a string, decoded from its UTF-8 representation: a
    leading byte takes the continuation bytes that follow it. *)
Definition lead_bits (c : byte) : N :=
  let o := ord c in
  if N.ltb o 128 then o
  else if N.ltb o 224 then N.land o 31
  else if N.ltb o 240 then N.land o 15
  else N.land o 7.

Fixpoint code_points (s : str) : list N :=
  match s with
  | [] => []
  | c :: rest =>
      if is_continuation c then code_points rest
      else
        fold_left (fun acc b => (acc * 64 + N.land (ord b) 63)%N)
                  (fst (span is_continuation rest)) (lead_bits c)
        :: code_points rest
  end.

(** [sep.join(parts)] *)
Fixpoint join (sep : str) (parts : list str) : str :=
  match parts with
  | [] => []
  | [x] => x
  | x :: rest => x ++ sep ++ join sep rest
  end.

(** [s.split(sep)] for a separator of one ASCII character *)
Fixpoint split (sep : byte) (s : str) : list str :=
  match s with
  | [] => [[]]
  | c :: rest =>
      if Byte.eqb c sep then [] :: split sep rest
      else
        match split sep rest with
        | x :: parts => (c :: x) :: parts
        | [] => [[c]]
        end
  end.

(** ** json *)

Inductive json : Type :=
| JNull
| JBool (b : bool)
| JInt (n : Z)
| JFloat (lexeme : str)       (* a float, kept as the text that denotes it *)
| JStr (s : str)
| JList (items : list json)
| JDict (pairs : list (str * json)).

Definition str_eqb (a b : str) : bool := bytes_eqb a b.

(** [d.get(key)] on the pairs of a dict *)
Fixpoint dict_get (d : list (str * json)) (key : str) : option json :=
  match d with
  | [] => None
  | (k, v) :: d' => if str_eqb k key then Some v else dict_get d' key
  end.

(** [d[key] = v]: a present key keeps its position. *)
Fixpoint dict_set (d : list (str * json)) (key : str) (v : json) :
    list (str * json) :=
  match d with
  | [] => [(key, v)]
  | (k, w) :: d' =>
      if str_eqb k key then (k, v) :: d' else (k, w) :: dict_set d' key v
  end.

(** [dict(pairs)] *)
Definition dict_of_pairs (pairs : list (str * json)) : list (str * json) :=
  fold_left (fun d kv => dict_set d (fst kv) (snd kv)) pairs [].

(** [obj.get(key, default)]: only a dict has the method. *)
Definition py_get (obj : json) (key : str) (default : json) : result json :=
  match obj with
  | JDict d =>
      match dict_get d key with
      | Some v => Ok v
      | None => Ok default
      end
  | _ => Raise AttributeError
  end.

(** [int(x)].  The conversions of floats and of strings are not
    modelled. *)
Definition py_int (x : json) : result Z :=
  match x with
  | JInt n => Ok n
  | JBool b => Ok (if b then 1 else 0)%Z
  | JFloat _ | JStr _ => Raise OutsideModel
  | JNull | JList _ | JDict _ => Raise TypeError
  end.

(** [bool(x)] *)
Definition truthy (x : json) : bool :=
  match x with
  | JNull => false
  | JBool b => b
  | JInt n => negb (Z.eqb n 0)
  | JFloat _ => true
  | JStr s => match s with [] => false | _ => true end
  | JList l => match l with [] => false | _ => true end
  | JDict d => match d with [] => false | _ => true end
  end.

Module Json.

Definition is_digit (c : byte) : bool :=
  (N.leb 48 (ord c) && N.leb (ord c) 57)%bool.

Fixpoint digits_of_uint (d : Decimal.uint) : str :=
  match d with
  | Decimal.Nil => []
  | Decimal.D0 d => "0"%byte :: digits_of_uint d
  | Decimal.D1 d => "1"%byte :: digits_of_uint d
  | Decimal.D2 d => "2"%byte :: digits_of_uint d
  | Decimal.D3 d => "3"%byte :: digits_of_uint d
  | Decimal.D4 d => "4"%byte :: digits_of_uint d
  | Decimal.D5 d => "5"%byte :: digits_of_uint d
  | Decimal.D6 d => "6"%byte :: digits_of_uint d
  | Decimal.D7 d => "7"%byte :: digits_of_uint d
  | Decimal.D8 d => "8"%byte :: digits_of_uint d
  | Decimal.D9 d => "9"%byte :: digits_of_uint d
  end.

(** The decimal number written by a run of ASCII digits. *)
Fixpoint uint_of_digits (s : str) : Decimal.uint :=
  match s with
  | [] => Decimal.Nil
  | c :: s' =>
      let d := uint_of_digits s' in
      match (ord c - 48)%N with
      | 0 => Decimal.D0 d | 1 => Decimal.D1 d | 2 => Decimal.D2 d
      | 3 => Decimal.D3 d | 4 => Decimal.D4 d | 5 => Decimal.D5 d
      | 6 => Decimal.D6 d | 7 => Decimal.D7 d | 8 => Decimal.D8 d
      | _ => Decimal.D9 d
      end%N
  end.

(** [repr(n)] of an int *)
Definition int_repr (n : Z) : str :=
  match n with
  | Z0 => lit "0"
  | Zpos p => digits_of_uint (Pos.to_uint p)
  | Zneg p => "-"%byte :: digits_of_uint (Pos.to_uint p)
  end.

Definition hex_digit (n : N) : byte := nth (N.to_nat n) (lit "0123456789abcdef") "0"%byte.

(** ["\\u{0:04x}".format(n)] *)
Definition u_escape (n : N) : str :=
  lit "\u" ++ [hex_digit (N.land (N.shiftr n 12) 15); hex_digit (N.land (N.shiftr n 8) 15);
               hex_digit (N.land (N.shiftr n 4) 15); hex_digit (N.land n 15)].

(** [json.encoder.py_encode_basestring_ascii] *)
Definition escape_code_point (n : N) : str :=
  if N.eqb n 34 then ["\"%byte; dquote]
  else if N.eqb n 92 then lit "\\"
  else if N.eqb n 10 then lit "\n"
  else if N.eqb n 13 then lit "\r"
  else if N.eqb n 9 then lit "\t"
  else if N.eqb n 8 then lit "\b"
  else if N.eqb n 12 then lit "\f"
  else if (N.leb 32 n && N.leb n 126)%bool then [chr n]
  else if N.ltb n 65536 then u_escape n
  else
    let m := (n - 65536)%N in
    u_escape (N.lor 55296 (N.land (N.shiftr m 10) 1023))
    ++ u_escape (N.lor 56320 (N.land m 1023)).

Definition encode_basestring_ascii (s : str) : str :=
  dquote :: List.concat (map escape_code_point (code_points s)) ++ [dquote].

(** [json.dumps(obj, separators=(item_separator, key_separator))] *)
Fixpoint dumps (item_separator key_separator : str) (obj : json) : str :=
  match obj with
  | JNull => lit "null"
  | JBool true => lit "true"
  | JBool false => lit "false"
  | JInt n => int_repr n
  | JFloat lexeme => lexeme
  | JStr s => encode_basestring_ascii s
  | JList items =>
      "["%byte
      :: join item_separator (map (dumps item_separator key_separator) items)
      ++ lit "]"
  | JDict pairs =>
      "{"%byte
      :: join item_separator
           (map (fun kv => encode_basestring_ascii (fst kv) ++ key_separator
                           ++ dumps item_separator key_separator (snd kv))
                pairs)
      ++ lit "}"
  end.

(** *** The decoder (json.decoder, json.scanner) *)

Definition is_ws (c : byte) : bool :=
  (Byte.eqb c " "%byte || N.eqb (ord c) 9 || N.eqb (ord c) 10 || N.eqb (ord c) 13)%bool.

Fixpoint skip_ws (s : bytes) : bytes :=
  match s with
  | c :: rest => if is_ws c then skip_ws rest else s
  | [] => []
  end.

Definition hex_value (c : byte) : option N :=
  let o := ord c in
  if (N.leb 48 o && N.leb o 57)%bool then Some (o - 48)%N
  else if (N.leb 97 o && N.leb o 102)%bool then Some (o - 87)%N
  else if (N.leb 65 o && N.leb o 70)%bool then Some (o - 55)%N
  else None.

(** The UTF-8 representation of a code point of the basic plane that is
    not a surrogate. *)
Definition utf8_of_code_point (n : N) : result str :=
  if N.ltb n 128 then Ok [chr n]
  else if N.ltb n 2048 then
    Ok [chr (N.lor 192 (N.shiftr n 6)); chr (N.lor 128 (N.land n 63))]
  else if (N.leb 55296 n && N.leb n 57343)%bool then Raise OutsideModel
  else
    Ok [chr (N.lor 224 (N.shiftr n 12));
        chr (N.lor 128 (N.land (N.shiftr n 6) 63));
        chr (N.lor 128 (N.land n 63))].

Definition prepend {B} (x : str) (r : result (str * B)) : result (str * B) :=
  p <- r;; Ok (x ++ fst p, snd p).

(** [py_scanstring(s, end, strict=True)], entered after the opening
    quote: the decoded string and the text after the closing quote. *)
Fixpoint scanstring (s : bytes) : result (str * bytes) :=
  match s with
  | [] => Raise (JSONDecodeError "Unterminated string starting at")
  | c :: rest =>
      if Byte.eqb c dquote then Ok ([], rest)
      else if Byte.eqb c "\"%byte then
        match rest with
        | [] => Raise (JSONDecodeError "Unterminated string starting at")
        | e :: rest1 =>
            if Byte.eqb e "u"%byte then
              match rest1 with
              | h1 :: h2 :: h3 :: h4 :: rest2 =>
                  match hex_value h1, hex_value h2, hex_value h3, hex_value h4 with
                  | Some a, Some b, Some c, Some d =>
                      match utf8_of_code_point (a * 4096 + b * 256 + c * 16 + d)%N with
                      | Ok x => prepend x (scanstring rest2)
                      | Raise err => Raise err
                      end
                  | _, _, _, _ => Raise (JSONDecodeError "Invalid \uXXXX escape")
                  end
              | _ => Raise (JSONDecodeError "Invalid \uXXXX escape")
              end
            else if Byte.eqb e dquote then prepend [e] (scanstring rest1)
            else if Byte.eqb e "\"%byte then prepend [e] (scanstring rest1)
            else if Byte.eqb e "/"%byte then prepend [e] (scanstring rest1)
            else if Byte.eqb e "b"%byte then prepend [chr 8] (scanstring rest1)
            else if Byte.eqb e "f"%byte then prepend [chr 12] (scanstring rest1)
            else if Byte.eqb e "n"%byte then prepend [chr 10] (scanstring rest1)
            else if Byte.eqb e "r"%byte then prepend [chr 13] (scanstring rest1)
            else if Byte.eqb e "t"%byte then prepend [chr 9] (scanstring rest1)
            else Raise (JSONDecodeError "Invalid \escape")
        end
      else if N.ltb (ord c) 32 then Raise (JSONDecodeError "Invalid control character at")
      else prepend [c] (scanstring rest)
  end.

(** [s.startswith(prefix)] and the text after the prefix *)
Fixpoint strip_prefix (prefix s : bytes) : option bytes :=
  match prefix, s with
  | [], _ => Some s
  | p :: prefix', c :: s' => if Byte.eqb p c then strip_prefix prefix' s' else None
  | _ :: _, [] => None
  end.

(** The fraction of [NUMBER_RE]: a dot and digits. *)
Definition match_frac (s : bytes) : bytes * bytes :=
  match s with
  | p :: d :: _ =>
      if (Byte.eqb p "."%byte && is_digit d)%bool then
        let '(ds, r) := span is_digit (tl s) in (p :: ds, r)
      else ([], s)
  | _ => ([], s)
  end.

(** The exponent of [NUMBER_RE]: [e] or [E], a sign, digits. *)
Definition match_exp (s : bytes) : bytes * bytes :=
  match s with
  | e :: t =>
      if (Byte.eqb e "e"%byte || Byte.eqb e "E"%byte)%bool then
        let '(sg, t') :=
          match t with
          | g :: u =>
              if (Byte.eqb g "-"%byte || Byte.eqb g "+"%byte)%bool
              then ([g], u) else ([], t)
          | [] => ([], t)
          end in
        match span is_digit t' with
        | ([], _) => ([], s)
        | (ds, r) => (e :: sg ++ ds, r)
        end
      else ([], s)
  | [] => ([], s)
  end.

(** The number after its sign: [0] or a run of digits that does not
    start with [0], then the fraction and the exponent.  A number with
    neither is an int. *)
Definition match_unsigned (sign s1 : bytes) : option (json * bytes) :=
  match s1 with
  | [] => None
  | c :: r =>
      if is_digit c then
        let '(integer, s2) :=
          if Byte.eqb c "0"%byte then ([c], r) else span is_digit s1 in
        let '(frac, s3) := match_frac s2 in
        let '(exp, s4) := match_exp s3 in
        match frac, exp with
        | [], [] =>
            let n := Z.of_N (N.of_uint (uint_of_digits integer)) in
            Some (JInt (match sign with [] => n | _ => - n end)%Z, s4)
        | _, _ => Some (JFloat (sign ++ integer ++ frac ++ exp), s4)
        end
      else None
  end.

(** [NUMBER_RE.match], and the value [scan_once] makes of the match. *)
Definition match_number (s : bytes) : option (json * bytes) :=
  match s with
  | c :: r =>
      if Byte.eqb c "-"%byte then match_unsigned [c] r else match_unsigned [] s
  | [] => None
  end.

Definition literals : list (string * json) :=
  [("null", JNull); ("true", JBool true); ("false", JBool false);
   ("NaN", JFloat (lit "NaN")); ("Infinity", JFloat (lit "Infinity"));
   ("-Infinity", JFloat (lit "-Infinity"))]%string.

Fixpoint match_literal (table : list (string * json)) (s : bytes) :
    option (json * bytes) :=
  match table with
  | [] => None
  | (word, v) :: table' =>
      match strip_prefix (lit word) s with
      | Some rest => Some (v, rest)
      | None => match_literal table' s
      end
  end.

Definition expecting_name : exn :=
  JSONDecodeError "Expecting property name enclosed in double quotes".

(** [scan_once], [JSONObject] and [JSONArray].  Each call uses one unit
    of [fuel]; the text after the value is returned with it.  A value
    costs two units for each level of nesting and one for each pair or
    item, and each of these takes at least one character, so twice the
    length of the text is fuel enough. *)
Fixpoint scan_once (fuel : nat) (s : bytes) {struct fuel} : result (json * bytes) :=
  match fuel with
  | O => Raise OutsideModel
  | S fuel =>
      match s with
      | [] => Raise (JSONDecodeError "Expecting value")
      | c :: rest =>
          if Byte.eqb c dquote then
            p <- scanstring rest;; Ok (JStr (fst p), snd p)
          else if Byte.eqb c "{"%byte then
            match skip_ws rest with
            | [] => Raise expecting_name
            | c1 :: rest1 =>
                if Byte.eqb c1 "}"%byte then Ok (JDict [], rest1)
                else if Byte.eqb c1 dquote then JSONObject fuel rest1 []
                else Raise expecting_name
            end
          else if Byte.eqb c "["%byte then
            match skip_ws rest with
            | [] => Raise (JSONDecodeError "Expecting value")
            | c1 :: rest1 =>
                if Byte.eqb c1 "]"%byte then Ok (JList [], rest1)
                else JSONArray fuel (c1 :: rest1) []
            end
          else
            match match_number s with
            | Some r => Ok r
            | None =>
                match match_literal literals s with
                | Some r => Ok r
                | None => Raise (JSONDecodeError "Expecting value")
                end
            end
      end
  end

(** The pairs of an object, entered after the opening quote of a key. *)
with JSONObject (fuel : nat) (s : bytes) (pairs : list (str * json)) {struct fuel} :
    result (json * bytes) :=
  match fuel with
  | O => Raise OutsideModel
  | S fuel =>
      k <- scanstring s;;
      match skip_ws (snd k) with
      | [] => Raise (JSONDecodeError "Expecting ':' delimiter")
      | c :: rest =>
          if Byte.eqb c ":"%byte then
            v <- scan_once fuel (skip_ws rest);;
            let pairs := pairs ++ [(fst k, fst v)] in
            match skip_ws (snd v) with
            | [] => Raise (JSONDecodeError "Expecting ',' delimiter")
            | c1 :: rest1 =>
                if Byte.eqb c1 "}"%byte then Ok (JDict (dict_of_pairs pairs), rest1)
                else if Byte.eqb c1 ","%byte then
                  match skip_ws rest1 with
                  | [] => Raise expecting_name
                  | c2 :: rest2 =>
                      if Byte.eqb c2 dquote then JSONObject fuel rest2 pairs
                      else Raise expecting_name
                  end
                else Raise (JSONDecodeError "Expecting ',' delimiter")
            end
          else Raise (JSONDecodeError "Expecting ':' delimiter")
      end
  end

(** The items of an array, entered at the first character of an item. *)
with JSONArray (fuel : nat) (s : bytes) (items : list json) {struct fuel} :
    result (json * bytes) :=
  match fuel with
  | O => Raise OutsideModel
  | S fuel =>
      v <- scan_once fuel s;;
      let items := items ++ [fst v] in
      match skip_ws (snd v) with
      | [] => Raise (JSONDecodeError "Expecting ',' delimiter")
      | c1 :: rest1 =>
          if Byte.eqb c1 "]"%byte then Ok (JList items, rest1)
          else if Byte.eqb c1 ","%byte then JSONArray fuel (skip_ws rest1) items
          else Raise (JSONDecodeError "Expecting ',' delimiter")
      end
  end.

(** The modelled inputs: ASCII text without NUL, which [json.loads]
    reads as UTF-8 whatever its first bytes are. *)
Definition plain_ascii (s : bytes) : bool :=
  forallb (fun c => (N.ltb 0 (ord c) && N.ltb (ord c) 128)%bool) s.

(** [json.loads(s)] for [bytes], and for a [str] without a byte order
    mark.  The message of a [JSONDecodeError] is kept without its
    position. *)
Definition loads (s : bytes) : result json :=
  if plain_ascii s then
    v <- scan_once (S (S (2 * List.length s))) (skip_ws s);;
    match skip_ws (snd v) with
    | [] => Ok (fst v)
    | _ :: _ => Raise (JSONDecodeError "Extra data")
    end
  else Raise OutsideModel.

(** *** Definitions used by the statements about json *)

(** A character that ends a number. *)
Definition terminator (c : byte) : bool :=
  (negb (is_digit c) && negb (Byte.eqb c "."%byte)
   && negb (Byte.eqb c "e"%byte) && negb (Byte.eqb c "E"%byte))%bool.

(** A character a number can start with. *)
Definition number_start (c : byte) : bool :=
  (is_digit c || Byte.eqb c "-"%byte)%bool.

Definition number_start_ok (c : byte) : bool :=
  if number_start c then
    (negb (Byte.eqb c dquote) && negb (Byte.eqb c "{"%byte)
     && negb (Byte.eqb c "["%byte) && negb (is_ws c)
     && N.ltb 0 (ord c) && N.ltb (ord c) 128)%bool
  else true.

(** A character that stands for itself inside a JSON string. *)
Definition plain_char (c : byte) : bool :=
  (negb (Byte.eqb c dquote) && negb (Byte.eqb c "\"%byte)
   && negb (N.ltb (ord c) 32))%bool.

(** The claims of a token: [{"sub": sub, "iat": iat, "exp": exp}]. *)
Definition claims (sub iat exp : Z) : json :=
  JDict [(lit "sub", JInt sub); (lit "iat", JInt iat); (lit "exp", JInt exp)].

Definition claims_text (sub iat exp : Z) : bytes :=
  "{"%byte :: dquote :: lit "sub" ++ dquote :: ":"%byte :: int_repr sub
  ++ ","%byte :: dquote :: lit "iat" ++ dquote :: ":"%byte :: int_repr iat
  ++ ","%byte :: dquote :: lit "exp" ++ dquote :: ":"%byte :: int_repr exp
  ++ ["}"%byte].

End Json.

(** ** re: the fragment used by [EMAIL_REGEX] *)

Module Re.

Local Open Scope N_scope.

(** A member of a character set: a literal character or [\s]. *)
Inductive item : Type :=
| Chr (c : N)
| Space.

(** What matches one character: a literal or a negated set. *)
Inductive atom : Type :=
| Lit (c : N)
| NotIn (items : list item).

Inductive node : Type :=
| Bol                  (* ^ *)
| Eol                  (* $ *)
| One (a : atom)
| Plus (a : atom).     (* a+ *)

Definition regex := list node.

(** [\s] for a [str] pattern: the Unicode white space. *)
Definition is_space (c : N) : bool :=
  ((9 <=? c) && (c <=? 13)) || ((28 <=? c) && (c <=? 32))
  || (c =? 133) || (c =? 160) || (c =? 5760)
  || ((8192 <=? c) && (c <=? 8202))
  || (c =? 8232) || (c =? 8233) || (c =? 8239) || (c =? 8287) || (c =? 12288).

Definition item_matches (i : item) (c : N) : bool :=
  match i with
  | Chr x => c =? x
  | Space => is_space c
  end.

Definition atom_matches (a : atom) (c : N) : bool :=
  match a with
  | Lit x => c =? x
  | NotIn items => negb (existsb (fun i => item_matches i c) items)
  end.

(** Does the pattern match a prefix of [s]?  [start] tells whether [s]
    is the whole subject.  [$] holds at the end of the subject and before
    a newline that ends it. *)
Fixpoint match_here (r : regex) (s : list N) (start : bool) {struct r} : bool :=
  match r with
  | [] => true
  | Bol :: r' => start && match_here r' s start
  | Eol :: r' =>
      match s with
      | [] => match_here r' s start
      | [c] => (c =? 10) && match_here r' s start
      | _ => false
      end
  | One a :: r' =>
      match s with
      | c :: s' => atom_matches a c && match_here r' s' false
      | [] => false
      end
  | Plus a :: r' =>
      (fix plus (s : list N) : bool :=
         match s with
         | c :: s' => atom_matches a c && (plus s' || match_here r' s' false)
         | [] => false
         end) s
  end.

(** [bool(pattern.match(s))] *)
Definition matches (r : regex) (s : str) : bool :=
  match_here r (code_points s) true.

End Re.

(** ** jmail/config.py *)

Record AppConfig : Type := mkAppConfig
  { database_path : str;
    jwt_secret : str;
    token_exp_seconds : Z;
    smtp_host : str;
    smtp_port : Z;
    smtp_username : str;
    smtp_password : str;
    smtp_use_tls : bool;
    smtp_from_email : str;
    smtp_from_name : str }.

(** ** jmail/database.py: the [users] table *)

Record Row : Type := mkRow
  { id : Z;
    email : str;
    password_hash : str;
    display_name : option str;
    created_at : str }.       (* the timestamp, in ISO 8601 text *)

(** The rows of the table, in insertion order, and the largest row id
    handed out so far (the AUTOINCREMENT sequence). *)
Record Database : Type := mkDatabase
  { users : list Row;
    sequence : Z }.

Definition get_user_by_email (db : Database) (e : str) : option Row :=
  find (fun r => str_eqb (email r) e) (users db).

Definition get_user_by_id (db : Database) (user_id : Z) : option Row :=
  find (fun r => Z.eqb (id r) user_id) (users db).

(** The INSERT; [current_timestamp] is the value the database clock
    gives to [created_at].  The UNIQUE constraint on [email] rejects a
    second row with the same address. *)
Definition create_user (db : Database) (e : str) (hash : str)
    (name : option str) (current_timestamp : str) : result Z * Database :=
  if existsb (fun r => str_eqb (email r) e) (users db) then
    (Raise IntegrityError, db)
  else
    let user_id := (sequence db + 1)%Z in
    (Ok user_id,
     {| users := users db ++ [mkRow user_id e hash name current_timestamp];
        sequence := user_id |}).

(** ** jmail/auth.py *)

Definition EMAIL_REGEX : Re.regex :=
  let part := Re.Plus (Re.NotIn [Re.Chr 64; Re.Space]) in
  [Re.Bol; part; Re.One (Re.Lit 64); part; Re.One (Re.Lit 46); part; Re.Eol].

Record AuthResult : Type := mkAuthResult
  { token : str;
    user : json }.

(** [a, b = parts] and [a, b, c = parts] *)
Definition unpack2 (parts : list str) : result (str * str) :=
  match parts with
  | [a; b] => Ok (a, b)
  | [] | [_] => Raise (ValueError "not enough values to unpack (expected 2, got 1)")
  | _ => Raise (ValueError "too many values to unpack (expected 2)")
  end.

Definition unpack3 (parts : list str) : result (str * str * str) :=
  match parts with
  | [a; b; c] => Ok (a, b, c)
  | [] | [_] => Raise (ValueError "not enough values to unpack (expected 3, got 1)")
  | [_; _] => Raise (ValueError "not enough values to unpack (expected 3, got 2)")
  | _ => Raise (ValueError "too many values to unpack (expected 3)")
  end.

Definition pbkdf2_iterations : N := 120000.

(** [salt] is the value of [os.urandom(16)]. *)
Definition hash_password (password : str) (salt : bytes) : str :=
  let hash_bytes :=
    SHA256.pbkdf2_hmac_sha256 (encode_utf8 password) salt pbkdf2_iterations in
  _b64encode salt ++ lit "$" ++ _b64encode hash_bytes.

Definition verify_password (password stored : str) : result bool :=
  match unpack2 (split "$"%byte stored) with
  | Raise e => if is_ValueError e then Ok false else Raise e
  | Ok (salt_b64, hash_b64) =>
      salt <- _b64decode salt_b64;;
      expected <- _b64decode hash_b64;;
      let actual :=
        SHA256.pbkdf2_hmac_sha256 (encode_utf8 password) salt pbkdf2_iterations in
      Ok (compare_digest expected actual)
  end.

Definition compact (obj : json) : str := Json.dumps (lit ",") (lit ":") obj.

(** [now] is the value of [int(time.time())]. *)
Definition generate_token (user_id : Z) (config : AppConfig) (now : Z) : str :=
  let header := JDict [(lit "alg", JStr (lit "HS256")); (lit "typ", JStr (lit "JWT"))] in
  let payload :=
    JDict [(lit "sub", JInt user_id); (lit "iat", JInt now);
           (lit "exp", JInt (now + token_exp_seconds config))] in
  let signing_input :=
    join (lit ".")
         (map (fun part => _b64encode (encode_utf8 (compact part))) [header; payload]) in
  let signature :=
    SHA256.hmac_sha256 (encode_utf8 (jwt_secret config)) (encode_utf8 signing_input) in
  signing_input ++ lit "." ++ _b64encode signature.

Definition decode_token (token : str) (config : AppConfig) (now : Z) : result json :=
  parts <- try_except (unpack3 (split "."%byte token)) is_ValueError
             (fun _ => Raise (ValueError "Malformed token"));;
  let '(header_b64, payload_b64, signature_b64) := parts in
  let signing_input := header_b64 ++ lit "." ++ payload_b64 in
  let expected_sig :=
    SHA256.hmac_sha256 (encode_utf8 (jwt_secret config)) (encode_utf8 signing_input) in
  supplied <- _b64decode signature_b64;;
  if negb (compare_digest expected_sig supplied) then
    Raise (ValueError "Invalid signature")
  else
    raw <- _b64decode payload_b64;;
    payload <- Json.loads raw;;
    exp <- py_get payload (lit "exp") (JInt 0);;
    exp <- py_int exp;;
    if (now >=? exp)%Z then Raise (ValueError "Token expired") else Ok payload.

Definition validate_email (address : str) : result str :=
  if negb (Re.matches EMAIL_REGEX address) then
    Raise (ValueError "Invalid email address")
  else Ok address.

(** The shape [local@domain.tld] in the words of the specification, on the
    code points of an address: no white space, exactly one [@], a local
    part that is not empty, and in the domain a dot with text on both
    sides.  [email_shape true] asks for ASCII only as well. *)
Fixpoint dot_then_text (d : list N) : bool :=
  match d with
  | c :: r => (N.eqb c 46 && match r with [] => false | _ => true end)
              || dot_then_text r
  | [] => false
  end.

Definition inner_dot (domain : list N) : bool :=
  match domain with
  | [] => false
  | _ :: r => dot_then_text r
  end.

Definition not_at (c : N) : bool := negb (N.eqb c 64).

Definition shape_of (cps : list N) : bool :=
  let local := fst (span not_at cps) in
  let domain := tl (snd (span not_at cps)) in
  forallb (fun c => negb (Re.is_space c)) cps
  && Nat.eqb (List.length (filter (fun c => N.eqb c 64) cps)) 1
  && match local with [] => false | _ => true end
  && inner_dot domain.

Definition email_shape (ascii_only : bool) (address : str) : bool :=
  (if ascii_only then is_ascii address else true)
  && shape_of (code_points address).

Definition row_to_dict (row : Row) : json :=
  JDict [(lit "id", JInt (id row));
         (lit "email", JStr (email row));
         (lit "display_name",
          match display_name row with Some n => JStr n | None => JNull end);
         (lit "created_at", JStr (created_at row))].

Definition authenticate_user (db : Database) (e password : str)
    (config : AppConfig) (now : Z) : result AuthResult :=
  let row := get_user_by_email db e in
  match row with
  | None => Raise (ValueError "Invalid email or password")
  | Some row =>
      verified <- verify_password password (password_hash row);;
      if negb verified then Raise (ValueError "Invalid email or password")
      else
        let token := generate_token (id row) config now in
        Ok (mkAuthResult token (row_to_dict row))
  end.

(** [verify_password] and [authenticate_user] on a password as it comes
    out of the JSON body of a request, which need not be a [str]: the same
    code, in which [password.encode("utf-8")] raises [AttributeError] for
    a value without the method, once the stored credential is split and
    decoded. *)
Definition encode_value (password : json) : result bytes :=
  match password with
  | JStr s => Ok (encode_utf8 s)
  | _ => Raise AttributeError
  end.

Definition verify_password_value (password : json) (stored : str) : result bool :=
  match unpack2 (split "$"%byte stored) with
  | Raise e => if is_ValueError e then Ok false else Raise e
  | Ok (salt_b64, hash_b64) =>
      salt <- _b64decode salt_b64;;
      expected <- _b64decode hash_b64;;
      data <- encode_value password;;
      let actual := SHA256.pbkdf2_hmac_sha256 data salt pbkdf2_iterations in
      Ok (compare_digest expected actual)
  end.

Definition authenticate_user_value (db : Database) (e : str) (password : json)
    (config : AppConfig) (now : Z) : result AuthResult :=
  let row := get_user_by_email db e in
  match row with
  | None => Raise (ValueError "Invalid email or password")
  | Some row =>
      verified <- verify_password_value password (password_hash row);;
      if negb verified then Raise (ValueError "Invalid email or password")
      else
        let token := generate_token (id row) config now in
        Ok (mkAuthResult token (row_to_dict row))
  end.

(** What [register_user] takes from its environment: the clock, the random
    source and the clock of the database. *)
Record Env : Type := mkEnv
  { time_now : Z;
    urandom16 : bytes;
    current_timestamp : str }.

Definition register_user (db : Database) (e password : str)
    (name : option str) (config : AppConfig) (env : Env) :
    result AuthResult * Database :=
  match validate_email e with
  | Raise err => (Raise err, db)
  | Ok _ =>
      match get_user_by_email db e with
      | Some _ => (Raise (ValueError "Email already registered"), db)
      | None =>
          let password_hash := hash_password password (urandom16 env) in
          match create_user db e password_hash name (current_timestamp env) with
          | (Raise err, db') => (Raise err, db')
          | (Ok user_id, db') =>
              match get_user_by_id db' user_id with
              | None => (Raise TypeError, db')
              | Some row =>
                  let token := generate_token user_id config (time_now env) in
                  (Ok (mkAuthResult token (row_to_dict row)), db')
              end
          end
      end
  end.

(** ** jmail/http.py and jmail/__init__.py: the login request *)

Record Request : Type := mkRequest
  { method : str;
    path : str;
    headers : list (str * str);
    body : bytes }.

Record Response : Type := mkResponse
  { status : Z;
    response_headers : list (str * str);
    response_body : bytes }.

Definition UnauthorizedError (message : string) : exn := HTTPError 401 message.
Definition BadRequestError (message : string) : exn := HTTPError 400 message.
Definition ConflictError (message : string) : exn := HTTPError 409 message.

(** [Request.json] *)
Definition request_json (request : Request) : result json :=
  match body request with
  | [] => Ok (JDict [])
  | _ => Json.loads (body request)
  end.

Definition json_response (payload : json) (status : Z) : Response :=
  mkResponse status [(lit "Content-Type", lit "application/json")]
             (encode_utf8 (Json.dumps (lit ", ") (lit ": ") payload)).

Definition is_JSONDecodeError (e : exn) : bool :=
  match e with JSONDecodeError _ => true | _ => false end.

Definition _parse_json (request : Request) : result json :=
  try_except (request_json request) is_JSONDecodeError
    (fun _ => Raise (BadRequestError "Invalid JSON payload")).

Definition ascii_lower (c : byte) : byte :=
  if (N.leb 65 (ord c) && N.leb (ord c) 90)%bool then chr (ord c + 32) else c.

Definition ascii_space (c : byte) : bool := Re.is_space (ord c).

Fixpoint lstrip (s : str) : str :=
  match s with
  | c :: rest => if ascii_space c then lstrip rest else s
  | [] => []
  end.

(** [x.strip().lower()] for an ASCII string; it takes a [str], and other
    text is not modelled. *)
Definition strip_lower (x : json) : result str :=
  match x with
  | JStr s =>
      if is_ascii s then Ok (map ascii_lower (rev (lstrip (rev (lstrip s)))))
      else Raise OutsideModel
  | _ => Raise AttributeError
  end.

Record JmailApplication : Type := mkApp
  { config : AppConfig;
    db : Database }.

(** The password is whatever value the body holds under [password]; the
    handler checks only that it is not falsy before it calls
    [authenticate_user]. *)
Definition handle_login (self : JmailApplication) (request : Request) (now : Z) :
    result Response :=
  payload <- _parse_json request;;
  e <- py_get payload (lit "email") (JStr []);;
  e <- strip_lower e;;
  password <- py_get payload (lit "password") (JStr []);;
  if (negb (truthy (JStr e)) || negb (truthy password))%bool then
    Raise (BadRequestError "Email and password are required")
  else
    match password with
    | JFloat _ => Raise OutsideModel   (* the truth value of a float is not modelled *)
    | _ =>
        r <- try_except
               (authenticate_user_value (db self) e password (config self) now)
               is_ValueError (fun exc => Raise (UnauthorizedError (exn_str exc)));;
        Ok (json_response
              (JDict [(lit "token", JStr (token r)); (lit "user", user r)]) 200)
    end.

(** ** The rest of the request handling: jmail/__init__.py, jmail/http.py,
    jmail/email_service.py *)

(** [needle in hay], on the message of an exception *)
Fixpoint str_in (needle hay : string) : bool :=
  (String.prefix needle hay
   || match hay with
      | String _ rest => str_in needle rest
      | EmptyString => false
      end)%bool.

Definition is_empty (s : str) : bool :=
  match s with [] => true | _ => false end.

(** [s.startswith(prefix)] *)
Definition startswith (s prefix : str) : bool :=
  match Json.strip_prefix prefix s with Some _ => true | None => false end.

(** [s.split(sep, 1)] for a separator of one ASCII character *)
Fixpoint split_once (sep : byte) (s : str) : list str :=
  match s with
  | [] => [[]]
  | c :: rest =>
      if Byte.eqb c sep then [[]; rest]
      else
        match split_once sep rest with
        | x :: parts => (c :: x) :: parts
        | [] => [[c]]
        end
  end.

(** A white space character at the head of a string: an ASCII one, or the
    UTF-8 form of one of the others (U+0085, U+00A0, U+1680, U+2000 to
    U+200A, U+2028, U+2029, U+202F, U+205F, U+3000).  With [backwards]
    the string is read from its end, so the bytes come in reverse. *)
Definition narrow_space (c : byte) : bool :=
  (N.ltb (ord c) 128 && Re.is_space (ord c))%bool.

Definition wide_space2 (c1 c2 : byte) : bool :=
  (N.eqb (ord c1) 194 && (N.eqb (ord c2) 133 || N.eqb (ord c2) 160))%bool.

Definition wide_space3 (c1 c2 c3 : byte) : bool :=
  let a := ord c1 in
  let b := ord c2 in
  let c := ord c3 in
  ((N.eqb a 225 && N.eqb b 154 && N.eqb c 128)
   || (N.eqb a 226 && N.eqb b 128
       && ((N.leb 128 c && N.leb c 138) || N.eqb c 168 || N.eqb c 169 || N.eqb c 175))
   || (N.eqb a 226 && N.eqb b 129 && N.eqb c 159)
   || (N.eqb a 227 && N.eqb b 128 && N.eqb c 128))%bool.

Fixpoint strip_front (backwards : bool) (s : str) : str :=
  match s with
  | [] => []
  | c1 :: r1 =>
      if narrow_space c1 then strip_front backwards r1
      else
        match r1 with
        | [] => s
        | c2 :: r2 =>
            if (if backwards then wide_space2 c2 c1 else wide_space2 c1 c2)
            then strip_front backwards r2
            else
              match r2 with
              | [] => s
              | c3 :: r3 =>
                  if (if backwards then wide_space3 c3 c2 c1
                      else wide_space3 c1 c2 c3)
                  then strip_front backwards r3
                  else s
              end
        end
  end.

(** [s.strip()] *)
Definition py_strip (s : str) : str :=
  rev (strip_front true (rev (strip_front false s))).

(** [x.strip()] for a value read from JSON: only a [str] has the method. *)
Definition strip_value (x : json) : result str :=
  match x with
  | JStr s => Ok (py_strip s)
  | _ => Raise AttributeError
  end.

(** *** jmail/email_service.py *)

(** What is raised above the core: an exception of the core, the
    configuration error of the mail service, or an exception of the
    [email] and [smtplib] libraries. *)
Inductive raised : Type :=
| Std (e : exn)
| EmailConfigurationError (msg : string)
| TransportError.

Inductive outcome (A : Type) : Type :=
| Done (a : A)
| Raised (r : raised).
Arguments Done {A} a.
Arguments Raised {A} r.

Definition lift {A} (r : result A) : outcome A :=
  match r with
  | Ok a => Done a
  | Raise e => Raised (Std e)
  end.

(** A message handed to the SMTP server: the session ([SMTP] with
    STARTTLS, or [SMTP_SSL]) and the headers and content of the
    [EmailMessage]. *)
Record Mail : Type := mkMail
  { mail_host : str;
    mail_port : Z;
    mail_starttls : bool;
    mail_login : str * str;
    mail_subject : str;
    mail_from : str * str;        (* the pair given to [formataddr] *)
    mail_to : str;
    mail_reply_to : option str;
    mail_content : str }.

(** What the libraries and the server do with one message, call by call:
    [true] when the call returns, [false] when it raises. *)
Record Smtp : Type := mkSmtp
  { builds_message : bool;   (* the [EmailMessage] takes the headers and the content *)
    connects : bool;         (* [smtplib.SMTP(host, port)] or [SMTP_SSL(host, port)] *)
    starts_tls : bool;       (* [smtp.starttls()] *)
    logs_in : bool;          (* [smtp.login(user, password)] *)
    sends_message : bool;    (* [smtp.send_message(message)]: the server takes the message *)
    quits : bool }.          (* leaving the [with] block: QUIT is answered 221 *)

(** [transport] gives the course of the session for a message; [sent]
    lists the messages handed to a server so far, that is those for
    which [send_message] returned.  The session is left through the
    [with] block, which sends QUIT and raises when the server does not
    answer it with 221, also after the message was taken. *)
Definition send_email (config : AppConfig) (recipient subject body : str)
    (reply_to : option str) (transport : Mail -> Smtp) (sent : list Mail) :
    outcome unit * list Mail :=
  if (is_empty (smtp_host config) || is_empty (smtp_username config)
      || is_empty (smtp_password config))%bool then
    (Raised (EmailConfigurationError
       "SMTP credentials are not configured. Set SMTP_HOST, SMTP_USERNAME, and SMTP_PASSWORD."),
     sent)
  else
    let message :=
      mkMail (smtp_host config) (smtp_port config) (smtp_use_tls config)
             (smtp_username config, smtp_password config)
             subject
             (smtp_from_name config,
              if is_empty (smtp_from_email config) then smtp_username config
              else smtp_from_email config)
             recipient
             (match reply_to with
              | Some r => if is_empty r then None else Some r
              | None => None
              end)
             body in
    let server := transport message in
    if negb (builds_message server) then (Raised TransportError, sent)
    else if negb (connects server) then (Raised TransportError, sent)
    else
      let handed_over :=
        ((if smtp_use_tls config then starts_tls server else true)
         && logs_in server && sends_message server)%bool in
      let sent_now := if handed_over then sent ++ [message] else sent in
      if (handed_over && quits server)%bool then (Done tt, sent_now)
      else (Raised TransportError, sent_now).

(** *** jmail/http.py *)

Definition status_texts : list (Z * string) :=
  [(200, "200 OK"); (201, "201 Created"); (204, "204 No Content");
   (400, "400 Bad Request"); (401, "401 Unauthorized"); (404, "404 Not Found");
   (409, "409 Conflict"); (500, "500 Internal Server Error")]%Z%string.

Fixpoint status_lookup (table : list (Z * string)) (code : Z) : option string :=
  match table with
  | [] => None
  | (k, text) :: table' => if Z.eqb k code then Some text else status_lookup table' code
  end.

(** [key in d] and [d.get(key, default)] on a dict of headers *)
Fixpoint header_get (d : list (str * str)) (key : str) : option str :=
  match d with
  | [] => None
  | (k, v) :: d' => if str_eqb k key then Some v else header_get d' key
  end.

Definition to_wsgi (response : Response) : str * list (str * str) * bytes :=
  let status_text :=
    match status_lookup status_texts (status response) with
    | Some text => lit text
    | None => Json.int_repr (status response) ++ lit " Unknown"
    end in
  let headers := response_headers response in
  let headers :=
    match header_get (response_headers response) (lit "Content-Length") with
    | Some _ => headers
    | None =>
        headers ++ [(lit "Content-Length",
                     Json.int_repr (Z.of_nat (List.length (response_body response))))]
    end in
  (status_text, headers, response_body response).

(** *** jmail/__init__.py *)

(** What the handlers take from outside the process. *)
Record World : Type := mkWorld
  { world_env : Env;
    world_transport : Mail -> Smtp }.

(** The fields of a registration request, once read from its body. *)
Definition register_fields (request : Request) : result (str * str * option str) :=
  payload <- _parse_json request;;
  e <- py_get payload (lit "email") (JStr []);;
  e <- strip_lower e;;
  password <- py_get payload (lit "password") (JStr []);;
  display_name <- py_get payload (lit "display_name") JNull;;
  if (negb (truthy (JStr e)) || negb (truthy password))%bool then
    Raise (BadRequestError "Email and password are required")
  else
    match password, display_name with
    | JStr password, JNull => Ok (e, password, None)
    | JStr password, JStr name => Ok (e, password, Some name)
    | _, _ => Raise OutsideModel
    end.

(** The [except ValueError] clause of [handle_register] *)
Definition register_error (exc : exn) : exn :=
  let message := exn_str exc in
  if str_in "already" message then ConflictError message
  else BadRequestError message.

Definition handle_register (self : JmailApplication) (request : Request)
    (env : Env) : result Response * Database :=
  match register_fields request with
  | Raise err => (Raise err, db self)
  | Ok (e, password, display_name) =>
      match validate_email e with
      | Raise exc =>
          (if is_ValueError exc then Raise (register_error exc) else Raise exc, db self)
      | Ok _ =>
          match register_user (db self) e password display_name (config self) env with
          | (Raise exc, db') =>
              (if is_ValueError exc then Raise (register_error exc) else Raise exc, db')
          | (Ok r, db') =>
              (Ok (json_response
                     (JDict [(lit "token", JStr (token r)); (lit "user", user r)]) 200),
               db')
          end
      end
  end.

(** The integers SQLite takes for a parameter. *)
Definition sqlite_integer (n : Z) : bool :=
  (Z.leb (- 9223372036854775808) n && Z.leb n 9223372036854775807)%bool.

Definition _require_user (self : JmailApplication) (request : Request) (now : Z) :
    result json :=
  let auth_header :=
    match header_get (headers request) (lit "Authorization") with
    | Some v => v
    | None => []
    end in
  if negb (startswith auth_header (lit "Bearer ")) then
    Raise (UnauthorizedError "Missing Authorization header")
  else
    let token := nth 1 (split_once " "%byte auth_header) [] in
    payload <- try_except (decode_token token (config self) now) is_ValueError
                 (fun exc => Raise (UnauthorizedError (exn_str exc)));;
    user_id <- py_get payload (lit "sub") JNull;;
    match user_id with
    | JNull => Raise (UnauthorizedError "Token missing subject")
    | _ =>
        n <- py_int user_id;;
        if sqlite_integer n then
          match get_user_by_id (db self) n with
          | None => Raise (UnauthorizedError "User not found")
          | Some row => Ok (row_to_dict row)
          end
        else Raise OutsideModel
    end.

Definition handle_profile (self : JmailApplication) (request : Request) (now : Z) :
    result Response :=
  user <- _require_user self request now;;
  Ok (json_response (JDict [(lit "user", user)]) 200).

(** The recipient, subject, body and reply address of a send request,
    after the checks of [handle_send]. *)
Definition send_fields (self : JmailApplication) (request : Request) (now : Z) :
    result (str * str * str * option str) :=
  _ <- _require_user self request now;;
  payload <- _parse_json request;;
  recipient <- py_get payload (lit "to") (JStr []);;
  recipient <- strip_value recipient;;
  subject <- py_get payload (lit "subject") (JStr []);;
  subject <- strip_value subject;;
  body <- py_get payload (lit "body") (JStr []);;
  body <- strip_value body;;
  reply_to <- py_get payload (lit "reply_to") JNull;;
  if (is_empty recipient || is_empty subject || is_empty body)%bool then
    Raise (BadRequestError "Recipient, subject, and body are required")
  else
    reply_to <-
      try_except
        (_ <- validate_email recipient;;
         if truthy reply_to then
           match reply_to with
           | JStr r => _ <- validate_email r;; Ok (Some r)
           | JFloat _ => Raise OutsideModel
           | _ => Raise TypeError
           end
         else Ok None)
        is_ValueError (fun exc => Raise (BadRequestError (exn_str exc)));;
    Ok (recipient, subject, body, reply_to).

Definition handle_send (self : JmailApplication) (request : Request) (now : Z)
    (transport : Mail -> Smtp) (sent : list Mail) : outcome Response * list Mail :=
  match send_fields self request now with
  | Raise err => (Raised (Std err), sent)
  | Ok (recipient, subject, body, reply_to) =>
      match send_email (config self) recipient subject body reply_to transport sent with
      | (Raised r, sent') => (Raised r, sent')
      | (Done _, sent') =>
          (Done (json_response (JDict [(lit "status", JStr (lit "sent"))]) 200), sent')
      end
  end.

(** The state the handlers change: the store and the mail delivered. *)
Definition dispatch (self : JmailApplication) (request : Request) (world : World)
    (sent : list Mail) : outcome Response * (Database * list Mail) :=
  let now := time_now (world_env world) in
  let at_route (route verb : string) :=
    (str_eqb (path request) (lit route) && str_eqb (method request) (lit verb))%bool in
  if at_route "/api/health"%string "GET"%string then
    (Done (json_response (JDict [(lit "status", JStr (lit "ok"))]) 200), (db self, sent))
  else if at_route "/api/register"%string "POST"%string then
    let '(r, db') := handle_register self request (world_env world) in
    (lift r, (db', sent))
  else if at_route "/api/login"%string "POST"%string then
    (lift (handle_login self request now), (db self, sent))
  else if at_route "/api/profile"%string "GET"%string then
    (lift (handle_profile self request now), (db self, sent))
  else if at_route "/api/send"%string "POST"%string then
    let '(r, sent') := handle_send self request now (world_transport world) sent in
    (r, (db self, sent'))
  else
    (Done (json_response (JDict [(lit "error", JStr (lit "Not found"))]) 404),
     (db self, sent)).

Definition error_response (message : string) (code : Z) : Response :=
  json_response (JDict [(lit "error", JStr (lit message))]) code.

(** [JmailApplication.__call__] on the request that [build_request] made of
    the environ; the result is what is given to [start_response] and
    returned.  [None] stands for a run that left the model. *)
Definition __call__ (self : JmailApplication) (request : Request) (world : World)
    (sent : list Mail) :
    option (str * list (str * str) * bytes) * (Database * list Mail) :=
  let '(r, state) := dispatch self request world sent in
  let response :=
    match r with
    | Done response => Some response
    | Raised (Std (HTTPError code message)) => Some (error_response message code)
    | Raised (Std OutsideModel) => None
    | Raised (EmailConfigurationError message) => Some (error_response message 500)
    | Raised _ => Some (error_response "Internal server error" 500)
    end in
  (option_map to_wsgi response, state).

(** ** Definitions used by the statements *)

(** The signature [decode_token] expects for the segments [h] and [p]. *)
Definition expected_signature (config : AppConfig) (h p : str) : bytes :=
  SHA256.hmac_sha256 (encode_utf8 (jwt_secret config))
                     (encode_utf8 (h ++ lit "." ++ p)).

Definition header_segment : str :=
  _b64encode (encode_utf8
    (compact (JDict [(lit "alg", JStr (lit "HS256")); (lit "typ", JStr (lit "JWT"))]))).

Definition claims_segment (sub iat exp : Z) : str :=
  _b64encode (encode_utf8 (compact (Json.claims sub iat exp))).

(** [[^@\s]] *)
Definition part_atom : Re.atom := Re.NotIn [Re.Chr 64; Re.Space].

Definition ok (c : N) : bool := Re.atom_matches part_atom c.

(** The subject is [l @ d . t] followed by [e], the three parts not
    empty and made of characters other than [@] and white space. *)
Definition decomposes (cps e : list N) : Prop :=
  exists l d t,
    l <> [] /\ d <> [] /\ t <> []
    /\ forallb ok l = true /\ forallb ok d = true /\ forallb ok t = true
    /\ cps = l ++ 64%N :: d ++ 46%N :: t ++ e.

Definition at_count (l : list N) : nat :=
  List.length (filter (fun c => N.eqb c 64) l).

(** *** Sample values *)

Definition test_config : AppConfig :=
  mkAppConfig (lit "test.db") (lit "test-secret") 3600 (lit "smtp.test") 587
              (lit "sender@example.com") (lit "password") true
              (lit "sender@example.com") (lit "Jmail").

(** The token [generate_token] gives user 1 at time 1000 under
    [test_config], and its three segments. *)
Definition sample_header : str := lit "eyJhbGciOiJIUzI1NiIsInR5cCI6IkpXVCJ9".

Definition sample_claims : str := lit "eyJzdWIiOjEsImlhdCI6MTAwMCwiZXhwIjo0NjAwfQ".

Definition sample_signature : str := lit "55L4p02-bSOzP1k7M4IG1eSENjznxjMYeOu9Dpv8hCU".

Definition sample_token : str :=
  sample_header ++ lit "." ++ sample_claims ++ lit "." ++ sample_signature.

(** A token signed under [test_config] whose payload is the dict with
    the single field [sub], equal to 1. *)
Definition token_without_exp : str :=
  sample_header ++ lit "." ++ lit "eyJzdWIiOjF9" ++ lit "."
  ++ lit "lde-Q6Ba2wj9216Ydyz3WukHImcyUU7RvwSLuddDU4I".



Definition sample_db : Database :=
  mkDatabase
    [mkRow 1 (lit "alice@example.com") (lit "AAAA$AAAA") (Some (lit "Alice"))
           (lit "2024-01-01T00:00:00")]
    1.

Definition sample_app : JmailApplication := mkApp test_config sample_db.

(** The request [POST /api/login] with the given email and password. *)
Definition login_request (e password : str) : Request :=
  mkRequest (lit "POST") (lit "/api/login")
    [(lit "Content-Type", lit "application/json")]
    (encode_utf8
       (Json.dumps (lit ", ") (lit ": ")
          (JDict [(lit "email", JStr e); (lit "password", JStr password)]))).

Definition sample_env : Env :=
  mkEnv 1000 (lit "0123456789abcdef") (lit "2024-01-02T00:00:00").

(** The request [POST /api/login] whose password is any JSON value. *)
Definition login_request_value (e : str) (password : json) : Request :=
  mkRequest (lit "POST") (lit "/api/login")
    [(lit "Content-Type", lit "application/json")]
    (encode_utf8
       (Json.dumps (lit ", ") (lit ": ")
          (JDict [(lit "email", JStr e); (lit "password", password)]))).

(** [sample_db] with a stored credential whose parts are not base64. *)
Definition corrupt_db : Database :=
  mkDatabase
    [mkRow 1 (lit "alice@example.com") (lit "A$A") (Some (lit "Alice"))
           (lit "2024-01-01T00:00:00")]
    1.

Definition corrupt_app : JmailApplication := mkApp test_config corrupt_db.

(** The status line of an answer of [__call__]. *)
Definition status_line (answer : option (str * list (str * str) * bytes)) : option str :=
  option_map (fun a => fst (fst a)) answer.

(** *** Definitions used by the further properties *)

(** [s.count(c)] for one character *)
Definition occurrences (c : byte) (s : str) : nat :=
  List.length (filter (fun x => Byte.eqb x c) s).

(** A character of the URL-safe base64 alphabet: a letter, a digit,
    [-] or [_]. *)
Definition b64url_char (c : byte) : bool :=
  let n := ord c in
  ((N.leb 65 n && N.leb n 90) || (N.leb 97 n && N.leb n 122)
   || (N.leb 48 n && N.leb n 57) || N.eqb n 45 || N.eqb n 95)%bool.

(** The key [hash_password] and [verify_password] derive from a password
    and a salt. *)
Definition derived_key (password : str) (salt : bytes) : bytes :=
  SHA256.pbkdf2_hmac_sha256 (encode_utf8 password) salt pbkdf2_iterations.

(** [test_config] with another secret *)
Definition other_config : AppConfig :=
  mkAppConfig (lit "test.db") (lit "other-secret") 3600 (lit "smtp.test") 587
              (lit "sender@example.com") (lit "password") true
              (lit "sender@example.com") (lit "Jmail").

(** The table as SQLite keeps it: the emails are unique (the UNIQUE
    constraint), the ids are unique (the primary key) and none is above
    the AUTOINCREMENT sequence. *)
Definition wf_db (db : Database) : Prop :=
  NoDup (map email (users db))
  /\ NoDup (map id (users db))
  /\ Forall (fun r => (id r <= sequence db)%Z) (users db).

(** The row [create_user] inserts. *)
Definition new_row (db : Database) (e hash : str) (name : option str)
    (current_timestamp : str) : Row :=
  mkRow (sequence db + 1) e hash name current_timestamp.

Definition with_row (db : Database) (row : Row) : Database :=
  {| users := users db ++ [row]; sequence := id row |}.

(** The row [register_user] stores. *)
Definition registered_row (db : Database) (e password : str) (name : option str)
    (env : Env) : Row :=
  new_row db e (hash_password password (urandom16 env)) name (current_timestamp env).

Definition empty_db : Database := mkDatabase [] 0.

(** The result of a registration that stores [row]. *)
Definition registered (db : Database) (e password : str) (name : option str)
    (config : AppConfig) (env : Env) : AuthResult :=
  mkAuthResult (generate_token (sequence db + 1) config (time_now env))
               (row_to_dict (registered_row db e password name env)).

(** A request that carries [token] as its bearer token. *)
Definition bearer_request (verb route : string) (token : str) (content : bytes) :
    Request :=
  mkRequest (lit verb) (lit route) [(lit "Authorization", lit "Bearer " ++ token)]
            content.

(** An address that [sample_db] does not hold, and a password. *)
Definition new_email : str := lit "bob@example.com".

Definition new_password : str := lit "password123".

(** [sample_db] after the registration of [new_email]. *)
Definition grown_db : Database :=
  snd (register_user sample_db new_email new_password None test_config sample_env).

(** A profile request with the token of that registration. *)
Definition profile_request : Request :=
  bearer_request "GET" "/api/profile"
    (generate_token (sequence sample_db + 1) test_config (time_now sample_env)) [].

(** [e] is not an [HTTPError], or it is one with a status of [codes]. *)
Definition http_in (codes : list Z) (e : exn) : bool :=
  match e with
  | HTTPError code _ => existsb (Z.eqb code) codes
  | _ => true
  end.

(** A computation that raises no [HTTPError] but with a status of
    [codes]. *)
Definition raises_only {A} (codes : list Z) (r : result A) : Prop :=
  match r with
  | Raise e => http_in codes e = true
  | Ok _ => True
  end.

(** A session in which every call returns, and one in which the server
    takes the message and then refuses the QUIT. *)
Definition willing : Smtp := mkSmtp true true true true true true.


(** A world in which the mail transport accepts every message. *)
Definition sample_world : World := mkWorld sample_env (fun _ => willing).

(** A request without headers and without a body. *)
Definition bare_request (verb route : string) : Request :=
  mkRequest (lit verb) (lit route) [] [].





(** A send request that carries [sample_token]. *)
Definition send_request : Request :=
  bearer_request "POST" "/api/send" sample_token
    (encode_utf8
       (Json.dumps (lit ", ") (lit ": ")
          (JDict [(lit "to", JStr (lit "bob@example.com"));
                  (lit "subject", JStr (lit "Hello"));
                  (lit "body", JStr (lit "How are you?"))]))).

(** The request [POST /api/register] with the given email and password. *)
Definition register_request (e password : str) : Request :=
  mkRequest (lit "POST") (lit "/api/register")
    [(lit "Content-Type", lit "application/json")]
    (encode_utf8
       (Json.dumps (lit ", ") (lit ": ")
          (JDict [(lit "email", JStr e); (lit "password", JStr password)]))).

(** The answer to a registration or a login: the token and the user. *)
Definition auth_response (r : AuthResult) : Response :=
  json_response (JDict [(lit "token", JStr (token r)); (lit "user", user r)]) 200.

(** The columns of a row that [row_to_dict] shows. *)
Definition public (r : Row) : Z * str * option str * str :=
  (id r, email r, display_name r, created_at r).

(** [sample_db] with another credential for its user. *)
Definition rehashed_db : Database :=
  mkDatabase
    [mkRow 1 (lit "alice@example.com") (lit "BBBB$BBBB") (Some (lit "Alice"))
           (lit "2024-01-01T00:00:00")]
    1.

(** * Properties *)

(** ** Finite case analysis by computation *)

Lemma N_forall_lt (k : nat) (f : N -> bool) :
  forallb f (map N.of_nat (seq 0 k)) = true ->
  forall n, (n < N.of_nat k)%N -> f n = true.
Proof.
  intros H n Hn.
  rewrite forallb_forall in H. apply H.
  rewrite <- (N2Nat.id n). apply in_map. apply in_seq. lia.
Qed.

Lemma chr_ord (b : byte) : chr (ord b) = b.
Proof.
  unfold chr, ord. rewrite <- ascii_of_byte_via_N. apply byte_of_ascii_of_byte.
Qed.

Lemma ord_lt_256 (b : byte) : (ord b < 256)%N.
Proof. unfold ord. pose proof (Byte.to_N_bounded b). lia. Qed.

Lemma byte_forall (f : byte -> bool) :
  forallb (fun n => f (chr n)) (map N.of_nat (seq 0 256)) = true ->
  forall b, f b = true.
Proof.
  intros H b. rewrite <- (chr_ord b).
  apply (N_forall_lt 256 (fun n => f (chr n)) H). apply ord_lt_256.
Qed.

Lemma ord_chr (n : N) : (n < 256)%N -> ord (chr n) = n.
Proof.
  intros Hn. apply N.eqb_eq.
  apply (N_forall_lt 256 (fun n => N.eqb (ord (chr n)) n)); [vm_compute; reflexivity | exact Hn].
Qed.

Lemma byte_eqb_refl (b : byte) : Byte.eqb b b = true.
Proof. apply byte_dec_lb. reflexivity. Qed.

Lemma byte_eqb_neq (a b : byte) : a <> b -> Byte.eqb a b = false.
Proof.
  intros H. destruct (Byte.eqb a b) eqn:E; [|reflexivity].
  apply byte_dec_bl in E. contradiction.
Qed.

Lemma bytes_eqb_refl (a : bytes) : bytes_eqb a a = true.
Proof. unfold bytes_eqb. destruct (list_eq_dec byte_eq_dec a a); congruence. Qed.

Lemma bytes_eqb_eq (a b : bytes) : bytes_eqb a b = true <-> a = b.
Proof.
  unfold bytes_eqb. destruct (list_eq_dec byte_eq_dec a b); split; congruence.
Qed.

Lemma list_ind3 {A} (P : list A -> Prop) :
  P [] -> (forall a, P [a]) -> (forall a b, P [a; b]) ->
  (forall a b c l, P l -> P (a :: b :: c :: l)) ->
  forall l, P l.
Proof.
  intros H0 H1 H2 H3.
  fix IH 1.
  intros [|a [|b [|c l]]]; [exact H0 | apply H1 | apply H2 | apply H3; apply IH].
Qed.

(** ** base64 *)

Module Base64Facts.
Import Base64.
Local Open Scope N_scope.

Lemma enc_facts n :
  n < 64 ->
  let e := enc n in
  Byte.eqb (urlsafe_decode_translation e) PAD = false
  /\ table_a2b (urlsafe_decode_translation e) = n
  /\ ord e < 128
  /\ Byte.eqb e PAD = false
  /\ Byte.eqb e "."%byte = false
  /\ Byte.eqb e "$"%byte = false
  /\ is_continuation e = false.
Proof.
  intros Hn e.
  assert (H : enc_ok n = true)
    by (apply (N_forall_lt 64 enc_ok); [vm_compute; reflexivity | exact Hn]).
  unfold enc_ok in H. fold e in H.
  repeat (apply andb_prop in H; destruct H as [H ?]).
  repeat match goal with
         | X : negb _ = true |- _ => apply negb_true_iff in X
         end.
  rewrite N.eqb_eq in *. rewrite N.ltb_lt in *. auto 10.
Qed.

Lemma cut_facts (b : byte) :
  let n := ord b in
  (N.shiftr n 2 < 64 /\ N.land n 3 < 4
   /\ chr (N.lor (N.shiftl (N.shiftr n 2) 2) (N.land n 3)) = b)
  /\ (N.shiftr n 4 < 16 /\ N.land n 15 < 16
      /\ chr (N.lor (N.shiftl (N.shiftr n 4) 4) (N.land n 15)) = b)
  /\ (N.shiftr n 6 < 4 /\ N.land n 63 < 64
      /\ chr (N.lor (N.shiftl (N.shiftr n 6) 6) (N.land n 63)) = b).
Proof.
  intros n.
  assert (H : cut_ok n = true)
    by (apply (N_forall_lt 256 cut_ok); [vm_compute; reflexivity | apply ord_lt_256]).
  unfold cut_ok in H.
  repeat (apply andb_prop in H; destruct H as [H ?]).
  rewrite N.eqb_eq in *. rewrite N.ltb_lt in *.
  repeat match goal with
         | X : N.lor _ _ = n |- _ => rewrite X; clear X
         end.
  unfold n. rewrite chr_ord. auto 12.
Qed.

(** Two fields joined into one 6-bit value, and taken apart again. *)
Lemma join_4_facts x y :
  x < 4 -> y < 16 ->
  let v := N.lor (N.shiftl x 4) y in
  v < 64 /\ N.shiftr v 4 = x /\ N.land v 15 = y.
Proof.
  intros Hx Hy v.
  pose (f := fun x => forallb
     (fun y => let v := N.lor (N.shiftl x 4) y in
               (v <? 64) && (N.shiftr v 4 =? x) && (N.land v 15 =? y))
     (map N.of_nat (seq 0 16))).
  assert (H : f x = true)
    by (apply (N_forall_lt 4 f); [vm_compute; reflexivity | exact Hx]).
  unfold f in H.
  pose proof (N_forall_lt 16 _ H y Hy) as H'. cbv beta zeta in H'. fold v in H'.
  repeat (apply andb_prop in H'; destruct H' as [H' ?]).
  rewrite N.eqb_eq in *. rewrite N.ltb_lt in *. auto.
Qed.

Lemma join_2_facts x y :
  x < 16 -> y < 4 ->
  let v := N.lor (N.shiftl x 2) y in
  v < 64 /\ N.shiftr v 2 = x /\ N.land v 3 = y.
Proof.
  intros Hx Hy v.
  pose (f := fun x => forallb
     (fun y => let v := N.lor (N.shiftl x 2) y in
               (v <? 64) && (N.shiftr v 2 =? x) && (N.land v 3 =? y))
     (map N.of_nat (seq 0 4))).
  assert (H : f x = true)
    by (apply (N_forall_lt 16 f); [vm_compute; reflexivity | exact Hx]).
  unfold f in H.
  pose proof (N_forall_lt 4 _ H y Hy) as H'. cbv beta zeta in H'. fold v in H'.
  repeat (apply andb_prop in H'; destruct H' as [H' ?]).
  rewrite N.eqb_eq in *. rewrite N.ltb_lt in *. auto.
Qed.

Lemma q1_lt a : q1 a < 64.
Proof. apply (cut_facts a). Qed.

Lemma q4_lt c : q4 c < 64.
Proof. apply (cut_facts c). Qed.

Lemma q2_facts a b :
  q2 a b < 64 /\ N.shiftr (q2 a b) 4 = N.land (ord a) 3
  /\ N.land (q2 a b) 15 = N.shiftr (ord b) 4.
Proof. apply join_4_facts; [apply (cut_facts a) | apply (cut_facts b)]. Qed.

Lemma q3_facts b c :
  q3 b c < 64 /\ N.shiftr (q3 b c) 2 = N.land (ord b) 15
  /\ N.land (q3 b c) 3 = N.shiftr (ord c) 6.
Proof. apply join_2_facts; [apply (cut_facts b) | apply (cut_facts c)]. Qed.

Lemma q2_last_facts a :
  q2_last a < 64 /\ N.shiftr (q2_last a) 4 = N.land (ord a) 3.
Proof.
  unfold q2_last. rewrite <- (N.lor_0_r (N.shiftl _ 4)).
  destruct (join_4_facts (N.land (ord a) 3) 0) as (H1 & H2 & _);
    [apply (cut_facts a) | lia | auto].
Qed.

Lemma q3_last_facts b :
  q3_last b < 64 /\ N.shiftr (q3_last b) 2 = N.land (ord b) 15.
Proof.
  unfold q3_last. rewrite <- (N.lor_0_r (N.shiftl _ 2)).
  destruct (join_2_facts (N.land (ord b) 15) 0) as (H1 & H2 & _);
    [apply (cut_facts b) | lia | auto].
Qed.

(** *** The encoder, group by group *)

Lemma rstrip_cons_ne c x s :
  Byte.eqb x c = false -> rstrip c (x :: s) = x :: rstrip c s.
Proof.
  intros H. simpl. destruct (rstrip c s); [rewrite H|]; reflexivity.
Qed.

Lemma enc_not_pad n : n < 64 -> Byte.eqb (enc n) PAD = false.
Proof. intros H. apply (enc_facts n H). Qed.

Lemma b64encode_nil : _b64encode [] = [].
Proof. reflexivity. Qed.

Lemma b64encode_1 a : _b64encode [a] = [enc (q1 a); enc (q2_last a)].
Proof.
  unfold _b64encode, urlsafe_b64encode. cbn [b2a_base64 map].
  fold (q1 a) (q2_last a) (enc (q1 a)) (enc (q2_last a)).
  rewrite rstrip_cons_ne by (apply enc_not_pad, q1_lt).
  rewrite rstrip_cons_ne by (apply enc_not_pad, q2_last_facts).
  reflexivity.
Qed.

Lemma b64encode_2 a b :
  _b64encode [a; b] = [enc (q1 a); enc (q2 a b); enc (q3_last b)].
Proof.
  unfold _b64encode, urlsafe_b64encode. cbn [b2a_base64 map].
  fold (q1 a) (q2 a b) (q3_last b) (enc (q1 a)) (enc (q2 a b)) (enc (q3_last b)).
  rewrite rstrip_cons_ne by (apply enc_not_pad, q1_lt).
  rewrite rstrip_cons_ne by (apply enc_not_pad, q2_facts).
  rewrite rstrip_cons_ne by (apply enc_not_pad, q3_last_facts).
  reflexivity.
Qed.

Lemma b64encode_3 a b c rest :
  _b64encode (a :: b :: c :: rest)
  = enc (q1 a) :: enc (q2 a b) :: enc (q3 b c) :: enc (q4 c) :: _b64encode rest.
Proof.
  unfold _b64encode, urlsafe_b64encode. cbn [b2a_base64 map].
  fold (q1 a) (q2 a b) (q3 b c) (q4 c).
  fold (enc (q1 a)) (enc (q2 a b)) (enc (q3 b c)) (enc (q4 c)).
  rewrite rstrip_cons_ne by (apply enc_not_pad, q1_lt).
  rewrite rstrip_cons_ne by (apply enc_not_pad, q2_facts).
  rewrite rstrip_cons_ne by (apply enc_not_pad, q3_facts).
  rewrite rstrip_cons_ne by (apply enc_not_pad, q4_lt).
  reflexivity.
Qed.

Lemma urlsafe_char_enc n : n < 64 -> urlsafe_char (enc n).
Proof. intros H. exists n. auto. Qed.

Lemma b64encode_chars data : Forall urlsafe_char (_b64encode data).
Proof.
  induction data as [| a | a b | a b c l IH] using list_ind3.
  - constructor.
  - rewrite b64encode_1.
    repeat constructor; apply urlsafe_char_enc; [apply q1_lt | apply q2_last_facts].
  - rewrite b64encode_2.
    repeat constructor; apply urlsafe_char_enc;
      [apply q1_lt | apply q2_facts | apply q3_last_facts].
  - rewrite b64encode_3.
    repeat (constructor; [apply urlsafe_char_enc|]);
      [apply q1_lt | apply q2_facts | apply q3_facts | apply q4_lt | exact IH].
Qed.

Lemma urlsafe_is_ascii s : Forall urlsafe_char s -> is_ascii s = true.
Proof.
  induction 1 as [| c s (n & Hn & ->) _ IH]; [reflexivity|].
  simpl. rewrite IH, andb_true_r. apply N.ltb_lt. apply (enc_facts n Hn).
Qed.

Lemma urlsafe_len s : Forall urlsafe_char s -> len s = List.length s.
Proof.
  unfold len. induction 1 as [| c s (n & Hn & ->) _ IH]; [reflexivity|].
  simpl. destruct (enc_facts n Hn) as (_ & _ & _ & _ & _ & _ & ->).
  simpl. now rewrite IH.
Qed.

Lemma urlsafe_no_dot s : Forall urlsafe_char s -> ~ In "."%byte s.
Proof.
  induction 1 as [| c s (n & Hn & ->) _ IH]; [auto|].
  intros [E | E]; [|auto].
  destruct (enc_facts n Hn) as (_ & _ & _ & _ & H & _).
  rewrite E, byte_eqb_refl in H. discriminate.
Qed.

Lemma urlsafe_no_dollar s : Forall urlsafe_char s -> ~ In "$"%byte s.
Proof.
  induction 1 as [| c s (n & Hn & ->) _ IH]; [auto|].
  intros [E | E]; [|auto].
  destruct (enc_facts n Hn) as (_ & _ & _ & _ & _ & H & _).
  rewrite E, byte_eqb_refl in H. discriminate.
Qed.


(** *** The decoding loop on what the encoder wrote *)

Lemma a2b_loop_enc n rest q l p k :
  n < 64 ->
  a2b_loop (tr (enc n) :: rest) q l p k =
  match q with
  | O => a2b_loop rest 1 n 0 k
  | S O => emit (N.lor (N.shiftl l 2) (N.shiftr n 4))
                (a2b_loop rest 2 (N.land n 15) 0 (k + 1))
  | S (S O) => emit (N.lor (N.shiftl l 4) (N.shiftr n 2))
                    (a2b_loop rest 3 (N.land n 3) 0 (k + 1))
  | _ => emit (N.lor (N.shiftl l 6) n) (a2b_loop rest 0 0 0 (k + 1))
  end.
Proof.
  intros Hn. destruct (enc_facts n Hn) as (Hp & Hv & _).
  unfold tr. cbn [a2b_loop]. rewrite Hp. cbv zeta. rewrite Hv.
  destruct (N.leb_spec 64 n); [lia | reflexivity].
Qed.

Lemma emit_chr x b r :
  chr x = b ->
  emit x r = match r with Ok l => Ok (b :: l) | Raise e => Raise e end.
Proof. intros <-. reflexivity. Qed.

Lemma first_byte a : chr (N.lor (N.shiftl (q1 a) 2) (N.land (ord a) 3)) = a.
Proof. apply (cut_facts a). Qed.

Lemma second_byte b :
  chr (N.lor (N.shiftl (N.shiftr (ord b) 4) 4) (N.land (ord b) 15)) = b.
Proof. apply (cut_facts b). Qed.

Lemma third_byte c : chr (N.lor (N.shiftl (N.shiftr (ord c) 6) 6) (q4 c)) = c.
Proof. apply (cut_facts c). Qed.

Lemma a2b_loop_group a b c rest l p k :
  a2b_loop (tr (enc (q1 a)) :: tr (enc (q2 a b)) :: tr (enc (q3 b c))
            :: tr (enc (q4 c)) :: rest) 0 l p k
  = match a2b_loop rest 0 0 0 (k + 1 + 1 + 1) with
    | Ok out => Ok (a :: b :: c :: out)
    | Raise e => Raise e
    end.
Proof.
  destruct (q2_facts a b) as (H2 & H2h & H2l).
  destruct (q3_facts b c) as (H3 & H3h & H3l).
  rewrite a2b_loop_enc by apply q1_lt.
  rewrite a2b_loop_enc by exact H2.
  rewrite a2b_loop_enc by exact H3.
  rewrite a2b_loop_enc by apply q4_lt.
  rewrite H2h, H2l, H3h, H3l.
  rewrite (emit_chr _ a) by apply first_byte.
  rewrite (emit_chr _ b) by apply second_byte.
  rewrite (emit_chr _ c) by apply third_byte.
  destruct (a2b_loop rest 0 0 0 (k + 1 + 1 + 1)); reflexivity.
Qed.

Lemma pad_count_add4 k : pad_count (S (S (S (S k)))) = pad_count k.
Proof.
  unfold pad_count. f_equal.
  replace (- Z.of_nat (S (S (S (S k)))))%Z with (- Z.of_nat k + (-1) * 4)%Z by lia.
  apply Z.mod_add. lia.
Qed.

Lemma a2b_loop_b64encode data :
  forall k,
    a2b_loop (map tr (_b64encode data
                      ++ repeat PAD (pad_count (List.length (_b64encode data)))))
             0 0 0 k
    = Ok data.
Proof.
  induction data as [| a | a b | a b c rest IH] using list_ind3; intros k.
  - reflexivity.
  - rewrite b64encode_1.
    destruct (q2_last_facts a) as (H2 & H2h).
    change (pad_count _) with 2%nat. cbn [app repeat map].
    rewrite a2b_loop_enc by apply q1_lt.
    rewrite a2b_loop_enc by exact H2.
    rewrite H2h. rewrite (emit_chr _ a) by apply first_byte.
    reflexivity.
  - rewrite b64encode_2.
    destruct (q2_facts a b) as (H2 & H2h & H2l).
    destruct (q3_last_facts b) as (H3 & H3h).
    change (pad_count _) with 1%nat. cbn [app repeat map].
    rewrite a2b_loop_enc by apply q1_lt.
    rewrite a2b_loop_enc by exact H2.
    rewrite a2b_loop_enc by exact H3.
    rewrite H2h, H2l, H3h.
    rewrite (emit_chr _ a) by apply first_byte.
    rewrite (emit_chr _ b) by apply second_byte.
    reflexivity.
  - rewrite b64encode_3. cbn [List.length]. rewrite pad_count_add4.
    cbn [app map]. rewrite a2b_loop_group. rewrite IH. reflexivity.
Qed.

Lemma is_ascii_app a b : is_ascii (a ++ b) = (is_ascii a && is_ascii b)%bool.
Proof. unfold is_ascii. apply forallb_app. Qed.

Lemma is_ascii_pads k : is_ascii (repeat PAD k) = true.
Proof. induction k; [reflexivity | exact IHk]. Qed.

(** Decoding undoes encoding. *)
Lemma b64decode_b64encode (data : bytes) : _b64decode (_b64encode data) = Ok data.
Proof.
  unfold _b64decode, urlsafe_b64decode.
  pose proof (b64encode_chars data) as Hc.
  rewrite (urlsafe_len _ Hc).
  rewrite is_ascii_app, (urlsafe_is_ascii _ Hc), is_ascii_pads. cbn [andb].
  apply (a2b_loop_b64encode data 0).
Qed.

Lemma b64encode_inj (a b : bytes) : _b64encode a = _b64encode b -> a = b.
Proof.
  intros H. pose proof (b64decode_b64encode a) as Ha.
  rewrite H, b64decode_b64encode in Ha. congruence.
Qed.


(** *** Inputs of data characters whose length is 1 modulo 4 *)

Lemma data_char_facts c :
  data_char c = true ->
  Byte.eqb (tr c) PAD = false /\ table_a2b (tr c) < 64
  /\ ord c < 128 /\ is_continuation c = false.
Proof.
  intros H.
  assert (K : data_ok c = true)
    by (apply (byte_forall data_ok); vm_compute; reflexivity).
  unfold data_ok in K. rewrite H in K.
  repeat (apply andb_prop in K; destruct K as [K ?]).
  repeat match goal with
         | X : negb _ = true |- _ => apply negb_true_iff in X
         end.
  unfold data_char in H. rewrite N.ltb_lt in *. auto.
Qed.

Lemma a2b_loop_data c rest q l p k :
  data_char c = true ->
  a2b_loop (tr c :: rest) q l p k =
  match q with
  | O => a2b_loop rest 1 (table_a2b (tr c)) 0 k
  | S O => emit (N.lor (N.shiftl l 2) (N.shiftr (table_a2b (tr c)) 4))
                (a2b_loop rest 2 (N.land (table_a2b (tr c)) 15) 0 (k + 1))
  | S (S O) => emit (N.lor (N.shiftl l 4) (N.shiftr (table_a2b (tr c)) 2))
                    (a2b_loop rest 3 (N.land (table_a2b (tr c)) 3) 0 (k + 1))
  | _ => emit (N.lor (N.shiftl l 6) (table_a2b (tr c))) (a2b_loop rest 0 0 0 (k + 1))
  end.
Proof.
  intros Hc. destruct (data_char_facts c Hc) as (Hp & Hv & _).
  cbn [a2b_loop]. rewrite Hp. cbv zeta.
  destruct (N.leb_spec 64 (table_a2b (tr c))); [lia | reflexivity].
Qed.

Lemma format_error_emit x r : format_error r -> format_error (emit x r).
Proof. intros (msg & ->). exists msg. reflexivity. Qed.

Lemma a2b_loop_data_run s rest :
  forallb data_char s = true ->
  forall q l p k,
    (q < 4)%nat ->
    (forall l' p' k',
        format_error (a2b_loop rest ((q + List.length s) mod 4)%nat l' p' k')) ->
    format_error (a2b_loop (map tr s ++ rest) q l p k).
Proof.
  induction s as [|c s IH]; intros Hs q l p k Hq Hrest.
  - cbn [map app]. specialize (Hrest l p k).
    cbn [List.length] in Hrest. rewrite Nat.add_0_r, Nat.mod_small in Hrest by exact Hq.
    exact Hrest.
  - cbn [forallb] in Hs. apply andb_prop in Hs. destruct Hs as [Hc Hs].
    cbn [map app]. rewrite (a2b_loop_data _ _ _ _ _ _ Hc).
    assert (Hnext : forall q', (q' < 4)%nat -> ((q' + List.length s) mod 4
                                = (q + List.length (c :: s)) mod 4)%nat ->
              forall l0 p0 k0, format_error (a2b_loop (map tr s ++ rest) q' l0 p0 k0)).
    { intros q' Hq' E l0 p0 k0. apply IH; [exact Hs | exact Hq' |].
      intros. rewrite E. apply Hrest. }
    destruct q as [|[|[|[|q]]]]; try lia.
    + apply Hnext; [lia | reflexivity].
    + apply format_error_emit. apply Hnext; [lia | reflexivity].
    + apply format_error_emit. apply Hnext; [lia | reflexivity].
    + apply format_error_emit. apply Hnext; [lia |].
      cbn [List.length]. rewrite Nat.add_0_l.
      replace (3 + S (List.length s))%nat with (List.length s + 1 * 4)%nat by lia.
      now rewrite Nat.Div0.mod_add.
Qed.

Lemma data_is_ascii s : forallb data_char s = true -> is_ascii s = true.
Proof.
  induction s as [|c s IH]; [reflexivity|].
  cbn [forallb is_ascii]. intros H. apply andb_prop in H. destruct H as [Hc Hs].
  fold (is_ascii s). rewrite (IH Hs), andb_true_r.
  apply N.ltb_lt. apply (data_char_facts c Hc).
Qed.

Lemma data_len s : forallb data_char s = true -> len s = List.length s.
Proof.
  unfold len. induction s as [|c s IH]; [reflexivity|].
  cbn [forallb]. intros H. apply andb_prop in H. destruct H as [Hc Hs].
  cbn [filter]. destruct (data_char_facts c Hc) as (_ & _ & _ & ->).
  cbn [negb List.length]. now rewrite (IH Hs).
Qed.

Lemma pad_count_1 k : (k mod 4 = 1)%nat -> pad_count k = 3%nat.
Proof.
  intros H. unfold pad_count.
  rewrite (Nat.div_mod_eq k 4), H.
  replace (- Z.of_nat (4 * (k / 4) + 1))%Z
    with (3 + (- Z.of_nat (k / 4) - 1) * 4)%Z by lia.
  rewrite Z.mod_add by lia. reflexivity.
Qed.

Lemma b64decode_length_1 (s : str) :
  forallb data_char s = true ->
  (List.length s mod 4 = 1)%nat ->
  exists msg, _b64decode s = Raise (BinasciiError msg).
Proof.
  intros Hs Hlen.
  unfold _b64decode, urlsafe_b64decode.
  rewrite (data_len s Hs). fold (pad_count (List.length s)).
  rewrite (pad_count_1 _ Hlen).
  rewrite is_ascii_app, (data_is_ascii s Hs). cbn [andb repeat is_ascii forallb].
  change (N.ltb (ord "="%byte) 128) with true. cbn [andb].
  unfold a2b_base64. rewrite map_app.
  apply a2b_loop_data_run; [exact Hs | lia |].
  intros l' p' k'. rewrite Nat.add_0_l, Hlen.
  eexists. reflexivity.
Qed.

End Base64Facts.

(** C8 (the round trip, and the amended second half).  For every byte
    sequence [b], of any length, decoding the URL-safe base64 encoding of
    [b] gives [b] back; and a decode input made only of data characters of
    the alphabet whose length is 1 modulo 4 raises the format error of
    binascii. *)
Theorem b64_roundtrip_and_bad_length :
  (forall b : bytes, _b64decode (_b64encode b) = Ok b)
  /\ (forall s : str,
         forallb Base64.data_char s = true ->
         (List.length s mod 4 = 1)%nat ->
         exists msg, _b64decode s = Raise (BinasciiError msg)).
Proof.
  split.
  - apply Base64Facts.b64decode_b64encode.
  - apply Base64Facts.b64decode_length_1.
Qed.

Lemma b64_roundtrip_and_bad_length_witness :
  _b64decode (_b64encode (lit "jmail")) = Ok (lit "jmail")
  /\ exists msg, _b64decode (lit "QUJDR") = Raise (BinasciiError msg).
Proof.
  destruct b64_roundtrip_and_bad_length as [H1 H2].
  split.
  - apply H1.
  - apply (H2 (lit "QUJDR")); reflexivity.
Defined.

(** C8 as stated fails: the input [AAAA=] has length 5, which is 1 modulo
    4, and decodes to three zero bytes, because the decoder skips a pad
    character that does not close a group. *)
Lemma b64decode_length_1_accepted :
  (List.length (lit "AAAA=") mod 4 = 1)%nat
  /\ _b64decode (lit "AAAA=") = Ok [chr 0; chr 0; chr 0].
Proof. split; reflexivity. Qed.

(** ** [split] and [join] *)

Lemma split_nonempty sep s : split sep s <> [].
Proof.
  destruct s as [|c s]; cbn [split]; [discriminate|].
  destruct (Byte.eqb c sep); [discriminate|].
  destruct (split sep s); discriminate.
Qed.

Lemma split_no_sep sep s : ~ In sep s -> split sep s = [s].
Proof.
  induction s as [|c s IH]; intros H; [reflexivity|].
  cbn [split]. rewrite byte_eqb_neq by (intros ->; apply H; left; reflexivity).
  rewrite IH by (intros K; apply H; right; exact K). reflexivity.
Qed.

Lemma split_app sep a rest :
  ~ In sep a -> split sep (a ++ sep :: rest) = a :: split sep rest.
Proof.
  induction a as [|c a IH]; intros H.
  - cbn [app split]. now rewrite byte_eqb_refl.
  - cbn [app split]. rewrite byte_eqb_neq by (intros ->; apply H; left; reflexivity).
    rewrite IH by (intros K; apply H; right; exact K). reflexivity.
Qed.

(** ** The password hasher *)

Lemma split_credential (a b : bytes) :
  split "$"%byte (_b64encode a ++ lit "$" ++ _b64encode b)
  = [_b64encode a; _b64encode b].
Proof.
  change (lit "$" ++ _b64encode b) with ("$"%byte :: _b64encode b).
  rewrite split_app
    by (apply Base64Facts.urlsafe_no_dollar, Base64Facts.b64encode_chars).
  rewrite split_no_sep
    by (apply Base64Facts.urlsafe_no_dollar, Base64Facts.b64encode_chars).
  reflexivity.
Qed.

Lemma verify_hash_password (p : str) (salt : bytes) :
  verify_password p (hash_password p salt) = Ok true.
Proof.
  unfold verify_password, hash_password.
  rewrite split_credential. cbn [unpack2].
  rewrite !Base64Facts.b64decode_b64encode. cbn [bind].
  unfold compare_digest. rewrite bytes_eqb_refl. reflexivity.
Qed.

Lemma pair_list_fst {A} (a b c d : A) : [a; b] = [c; d] -> a = c.
Proof. intros H. injection H as H _. exact H. Qed.

Lemma hash_password_salt_inj (p : str) (s1 s2 : bytes) :
  hash_password p s1 = hash_password p s2 -> s1 = s2.
Proof.
  unfold hash_password. intros H.
  apply (f_equal (split "$"%byte)) in H.
  rewrite !split_credential in H.
  apply pair_list_fst in H. apply Base64Facts.b64encode_inj. exact H.
Qed.

(** C6.  For every password [p], a credential made by [hash_password]
    verifies against [p], whatever salt the random source gave; and two
    calls on the same [p] that drew the salts [s1] and [s2] give
    different credentials if the salts differ, while both
    credentials verify against [p]. *)
Theorem hash_then_verify (p : str) (s1 s2 : bytes) :
  verify_password p (hash_password p s1) = Ok true
  /\ verify_password p (hash_password p s2) = Ok true
  /\ (s1 <> s2 -> hash_password p s1 <> hash_password p s2).
Proof.
  split; [apply verify_hash_password|].
  split; [apply verify_hash_password|].
  intros Hne E. apply Hne. exact (hash_password_salt_inj p s1 s2 E).
Qed.

Lemma hash_then_verify_witness :
  hash_password (lit "password123") (lit "0123456789abcdef")
  <> hash_password (lit "password123") (lit "fedcba9876543210").
Proof.
  destruct (hash_then_verify (lit "password123") (lit "0123456789abcdef")
                             (lit "fedcba9876543210")) as (_ & _ & H).
  apply H. vm_compute. discriminate.
Defined.

(** ** json: reading back the payload of a token *)

Module JsonFacts.
Import Json.

Lemma digits_of_uint_digits d : forallb is_digit (digits_of_uint d) = true.
Proof. induction d; cbn [digits_of_uint forallb]; [reflexivity | exact IHd ..]. Qed.

Lemma uint_of_digits_of_uint d : uint_of_digits (digits_of_uint d) = d.
Proof.
  induction d; cbn [digits_of_uint uint_of_digits]; [reflexivity | ..];
    rewrite IHd; reflexivity.
Qed.

Lemma span_run {A} (p : A -> bool) (run rest : list A) :
  forallb p run = true ->
  match rest with [] => True | c :: _ => p c = false end ->
  span p (run ++ rest) = (run, rest).
Proof.
  intros Hrun Hrest. induction run as [|x run IH].
  - destruct rest as [|c rest]; [reflexivity|]. cbn [app span]. now rewrite Hrest.
  - cbn [forallb] in Hrun. apply andb_prop in Hrun. destruct Hrun as [Hx Hrun].
    cbn [app span]. rewrite Hx, (IH Hrun). reflexivity.
Qed.

Lemma nzhead_not_D0 d d' : Decimal.nzhead d <> Decimal.D0 d'.
Proof. induction d; cbn [Decimal.nzhead]; try discriminate. exact IHd. Qed.

(** The decimal writing of a positive number starts with a digit other
    than 0. *)
Lemma to_uint_head p :
  exists c t, digits_of_uint (Pos.to_uint p) = c :: t
              /\ is_digit c = true /\ Byte.eqb c "0"%byte = false.
Proof.
  pose proof (DecimalPos.Unsigned.to_of (Pos.to_uint p)) as H.
  rewrite DecimalPos.Unsigned.of_to in H. cbn [N.to_uint] in H.
  pose proof (DecimalPos.Unsigned.to_uint_nonzero p) as Hz.
  unfold Decimal.unorm in H.
  destruct (Decimal.nzhead (Pos.to_uint p)) eqn:E;
    try (rewrite H; cbn [digits_of_uint]; do 2 eexists;
         split; [reflexivity | split; reflexivity]).
  - contradiction.
  - exfalso. exact (nzhead_not_D0 _ _ E).
Qed.

Lemma terminator_facts c :
  terminator c = true ->
  is_digit c = false /\ Byte.eqb c "."%byte = false
  /\ Byte.eqb c "e"%byte = false /\ Byte.eqb c "E"%byte = false.
Proof.
  unfold terminator. intros H.
  repeat (apply andb_prop in H; destruct H as [H ?]).
  repeat match goal with
         | X : negb _ = true |- _ => apply negb_true_iff in X
         end.
  auto.
Qed.

Lemma match_frac_none c r : terminator c = true -> match_frac (c :: r) = ([], c :: r).
Proof.
  intros H. destruct (terminator_facts c H) as (_ & Hdot & _).
  unfold match_frac. destruct r; [reflexivity|]. now rewrite Hdot.
Qed.

Lemma match_exp_none c r : terminator c = true -> match_exp (c :: r) = ([], c :: r).
Proof.
  intros H. destruct (terminator_facts c H) as (_ & _ & He & HE).
  unfold match_exp. now rewrite He, HE.
Qed.

Lemma match_unsigned_positive sign p c r :
  terminator c = true ->
  match_unsigned sign (digits_of_uint (Pos.to_uint p) ++ c :: r)
  = Some (JInt (match sign with [] => Zpos p | _ => Zneg p end), c :: r).
Proof.
  intros Hc. destruct (to_uint_head p) as (c0 & t & E & Hd & Hz).
  pose proof (digits_of_uint_digits (Pos.to_uint p)) as Hall.
  pose proof (uint_of_digits_of_uint (Pos.to_uint p)) as Hback.
  rewrite E in Hall, Hback |- *.
  cbn [app]. unfold match_unsigned. rewrite Hd, Hz.
  change (c0 :: t ++ c :: r) with ((c0 :: t) ++ c :: r).
  rewrite (span_run is_digit (c0 :: t) (c :: r) Hall)
    by (apply (terminator_facts c Hc)).
  rewrite (match_frac_none c r Hc), (match_exp_none c r Hc).
  rewrite Hback.
  change (N.of_uint (Pos.to_uint p)) with (Pos.of_uint (Pos.to_uint p)).
  rewrite DecimalPos.Unsigned.of_to.
  destruct sign; reflexivity.
Qed.

Lemma number_start_facts c :
  number_start c = true ->
  Byte.eqb c dquote = false /\ Byte.eqb c "{"%byte = false
  /\ Byte.eqb c "["%byte = false /\ is_ws c = false
  /\ (N.ltb 0 (ord c) && N.ltb (ord c) 128)%bool = true.
Proof.
  intros H.
  assert (K : number_start_ok c = true)
    by (apply (byte_forall number_start_ok); vm_compute; reflexivity).
  unfold number_start_ok in K. rewrite H in K.
  repeat (apply andb_prop in K; destruct K as [K ?]).
  repeat match goal with
         | X : negb _ = true |- _ => apply negb_true_iff in X
         end.
  repeat split; auto. apply andb_true_intro. auto.
Qed.

Lemma int_repr_chars u : forallb number_start (int_repr u) = true.
Proof.
  assert (H : forall d, forallb number_start (digits_of_uint d) = true)
    by (induction d; cbn [digits_of_uint forallb]; [reflexivity | exact IHd ..]).
  destruct u; cbn [int_repr]; [reflexivity | apply H |].
  cbn [forallb]. apply H.
Qed.

Lemma int_repr_head u : exists c t, int_repr u = c :: t /\ number_start c = true.
Proof.
  pose proof (int_repr_chars u) as H.
  destruct u as [|p|p]; cbn [int_repr] in *.
  - do 2 eexists. split; reflexivity.
  - destruct (to_uint_head p) as (c0 & t & E & _). rewrite E in *.
    cbn [forallb] in H. apply andb_prop in H. do 2 eexists. split; [reflexivity | apply H].
  - do 2 eexists. split; reflexivity.
Qed.

Lemma match_number_int_repr u c r :
  terminator c = true ->
  match_number (int_repr u ++ c :: r) = Some (JInt u, c :: r).
Proof.
  intros Hc. destruct u as [|p|p]; cbn [int_repr].
  - change (lit "0" ++ c :: r) with ("0"%byte :: c :: r).
    unfold match_number. change (Byte.eqb "0" "-") with false. cbv iota.
    unfold match_unsigned. change (is_digit "0") with true.
    change (Byte.eqb "0" "0") with true. cbv iota.
    rewrite (match_frac_none c r Hc), (match_exp_none c r Hc). reflexivity.
  - destruct (to_uint_head p) as (c0 & t & E & Hd & _).
    assert (Hs : number_start c0 = true) by (unfold number_start; now rewrite Hd).
    pose proof (match_unsigned_positive [] p c r Hc) as H.
    rewrite E in H |- *. cbn [app] in H |- *. unfold match_number.
    assert (Hm : Byte.eqb c0 "-"%byte = false).
    { destruct (Byte.eqb c0 "-"%byte) eqn:K; [|reflexivity].
      apply byte_dec_bl in K. subst c0. discriminate Hd. }
    rewrite Hm. exact H.
  - cbn [app]. unfold match_number. change (Byte.eqb "-" "-") with true. cbv iota.
    apply (match_unsigned_positive ["-"%byte] p c r Hc).
Qed.

Lemma scan_once_int fuel u c r :
  terminator c = true ->
  scan_once (S fuel) (int_repr u ++ c :: r) = Ok (JInt u, c :: r).
Proof.
  intros Hc. pose proof (match_number_int_repr u c r Hc) as H.
  destruct (int_repr_head u) as (c0 & t & E & Hs).
  rewrite E in H |- *. cbn [app] in H |- *.
  destruct (number_start_facts c0 Hs) as (Hq & Hb & Hk & _).
  cbn [scan_once]. rewrite Hq, Hb, Hk, H. reflexivity.
Qed.

Lemma skip_ws_int_repr u rest : skip_ws (int_repr u ++ rest) = int_repr u ++ rest.
Proof.
  destruct (int_repr_head u) as (c0 & t & E & Hs). rewrite E. cbn [app skip_ws].
  destruct (number_start_facts c0 Hs) as (_ & _ & _ & Hw & _). now rewrite Hw.
Qed.

Lemma scanstring_plain key r :
  forallb plain_char key = true ->
  scanstring (key ++ dquote :: r) = Ok (key, r).
Proof.
  induction key as [|c key IH]; intros H.
  - cbn [app scanstring]. now rewrite byte_eqb_refl.
  - cbn [forallb] in H. apply andb_prop in H. destruct H as [Hc Hk].
    unfold plain_char in Hc.
    repeat (apply andb_prop in Hc; destruct Hc as [Hc ?]).
    repeat match goal with
           | X : negb _ = true |- _ => apply negb_true_iff in X
           end.
    cbn [app scanstring].
    repeat match goal with
           | X : _ = false |- _ => rewrite X; clear X
           end.
    rewrite (IH Hk). reflexivity.
Qed.

Lemma scan_once_eq fuel c rest :
  scan_once (S fuel) (c :: rest) =
  if Byte.eqb c dquote then
    p <- scanstring rest;; Ok (JStr (fst p), snd p)
  else if Byte.eqb c "{"%byte then
    match skip_ws rest with
    | [] => Raise expecting_name
    | c1 :: rest1 =>
        if Byte.eqb c1 "}"%byte then Ok (JDict [], rest1)
        else if Byte.eqb c1 dquote then JSONObject fuel rest1 []
        else Raise expecting_name
    end
  else if Byte.eqb c "["%byte then
    match skip_ws rest with
    | [] => Raise (JSONDecodeError "Expecting value")
    | c1 :: rest1 =>
        if Byte.eqb c1 "]"%byte then Ok (JList [], rest1)
        else JSONArray fuel (c1 :: rest1) []
    end
  else
    match match_number (c :: rest) with
    | Some r => Ok r
    | None =>
        match match_literal literals (c :: rest) with
        | Some r => Ok r
        | None => Raise (JSONDecodeError "Expecting value")
        end
    end.
Proof. reflexivity. Qed.

Lemma JSONObject_eq fuel s pairs :
  JSONObject (S fuel) s pairs =
  (k <- scanstring s;;
   match skip_ws (snd k) with
   | [] => Raise (JSONDecodeError "Expecting ':' delimiter")
   | c :: rest =>
       if Byte.eqb c ":"%byte then
         v <- scan_once fuel (skip_ws rest);;
         let pairs := pairs ++ [(fst k, fst v)] in
         match skip_ws (snd v) with
         | [] => Raise (JSONDecodeError "Expecting ',' delimiter")
         | c1 :: rest1 =>
             if Byte.eqb c1 "}"%byte then Ok (JDict (dict_of_pairs pairs), rest1)
             else if Byte.eqb c1 ","%byte then
               match skip_ws rest1 with
               | [] => Raise expecting_name
               | c2 :: rest2 =>
                   if Byte.eqb c2 dquote then JSONObject fuel rest2 pairs
                   else Raise expecting_name
               end
             else Raise (JSONDecodeError "Expecting ',' delimiter")
         end
       else Raise (JSONDecodeError "Expecting ':' delimiter")
   end).
Proof. reflexivity. Qed.

Lemma skip_ws_cons c r : is_ws c = false -> skip_ws (c :: r) = c :: r.
Proof. intros H. cbn [skip_ws]. now rewrite H. Qed.

(** A pair whose value is an int, followed by another pair. *)
Lemma JSONObject_int_more fuel key u rest pairs :
  forallb plain_char key = true ->
  JSONObject (S (S fuel))
    (key ++ dquote :: ":"%byte :: int_repr u ++ ","%byte :: dquote :: rest) pairs
  = JSONObject (S fuel) rest (pairs ++ [(key, JInt u)]).
Proof.
  intros Hkey. rewrite JSONObject_eq, (scanstring_plain _ _ Hkey).
  cbn [bind fst snd]. rewrite skip_ws_cons by reflexivity.
  rewrite byte_eqb_refl, skip_ws_int_repr, scan_once_int by reflexivity.
  cbn [bind fst snd]. rewrite skip_ws_cons by reflexivity.
  rewrite (byte_eqb_neq ","%byte "}"%byte) by discriminate.
  rewrite byte_eqb_refl, skip_ws_cons by reflexivity.
  rewrite byte_eqb_refl. reflexivity.
Qed.

(** The last pair of an object, with an int for its value. *)
Lemma JSONObject_int_last fuel key u rest pairs :
  forallb plain_char key = true ->
  JSONObject (S (S fuel))
    (key ++ dquote :: ":"%byte :: int_repr u ++ "}"%byte :: rest) pairs
  = Ok (JDict (dict_of_pairs (pairs ++ [(key, JInt u)])), rest).
Proof.
  intros Hkey. rewrite JSONObject_eq, (scanstring_plain _ _ Hkey).
  cbn [bind fst snd]. rewrite skip_ws_cons by reflexivity.
  rewrite byte_eqb_refl, skip_ws_int_repr, scan_once_int by reflexivity.
  cbn [bind fst snd]. rewrite skip_ws_cons by reflexivity.
  rewrite byte_eqb_refl. reflexivity.
Qed.

Lemma compact_claims sub iat exp :
  compact (claims sub iat exp) = claims_text sub iat exp.
Proof.
  unfold compact, claims, claims_text.
  cbn [dumps map join fst snd].
  change (encode_basestring_ascii (lit "sub")) with (dquote :: lit "sub" ++ [dquote]).
  change (encode_basestring_ascii (lit "iat")) with (dquote :: lit "iat" ++ [dquote]).
  change (encode_basestring_ascii (lit "exp")) with (dquote :: lit "exp" ++ [dquote]).
  change (lit ",") with [","%byte]. change (lit ":") with [":"%byte].
  change (lit "}") with ["}"%byte].
  repeat (rewrite <- ?app_assoc, <- ?app_comm_cons; cbn [app]).
  reflexivity.
Qed.

Lemma plain_ascii_app a b :
  plain_ascii (a ++ b) = (plain_ascii a && plain_ascii b)%bool.
Proof. unfold plain_ascii. apply forallb_app. Qed.

Lemma plain_ascii_int_repr u : plain_ascii (int_repr u) = true.
Proof.
  unfold plain_ascii. pose proof (int_repr_chars u) as H.
  induction (int_repr u) as [|c l IH]; [reflexivity|].
  cbn [forallb] in *. apply andb_prop in H. destruct H as [Hc Hl].
  rewrite (IH Hl), andb_true_r. apply (number_start_facts c Hc).
Qed.

Lemma plain_ascii_claims_text sub iat exp :
  plain_ascii (claims_text sub iat exp) = true.
Proof.
  unfold claims_text.
  change plain_ascii with (forallb (fun c => (N.ltb 0 (ord c) && N.ltb (ord c) 128)%bool)).
  cbn [forallb app lit list_byte_of_string].
  repeat (rewrite forallb_app; cbn [forallb]).
  fold plain_ascii. rewrite !plain_ascii_int_repr. reflexivity.
Qed.

(** [json.loads] reads the claims back from their compact text. *)
Lemma loads_claims sub iat exp :
  loads (compact (claims sub iat exp)) = Ok (claims sub iat exp).
Proof.
  rewrite compact_claims. unfold loads.
  rewrite plain_ascii_claims_text.
  assert (Hfuel : exists f,
             (S (2 * List.length (claims_text sub iat exp)) = S (S (S (S f))))%nat).
  { exists (2 * List.length (claims_text sub iat exp) - 3)%nat.
    assert (2 <= List.length (claims_text sub iat exp))%nat
      by (unfold claims_text; cbn [List.length]; lia).
    lia. }
  destruct Hfuel as (f & ->).
  unfold claims_text.
  rewrite skip_ws_cons by reflexivity.
  rewrite scan_once_eq.
  rewrite (byte_eqb_neq "{"%byte dquote) by discriminate.
  rewrite byte_eqb_refl, skip_ws_cons by reflexivity.
  rewrite (byte_eqb_neq dquote "}"%byte) by discriminate.
  rewrite byte_eqb_refl.
  rewrite JSONObject_int_more by reflexivity.
  rewrite JSONObject_int_more by reflexivity.
  rewrite JSONObject_int_last by reflexivity.
  reflexivity.
Qed.

(** *** The fuel [loads] gives is enough *)

Lemma skip_ws_length s : (List.length (skip_ws s) <= List.length s)%nat.
Proof.
  induction s as [|c s IH]; cbn [skip_ws List.length]; [lia|].
  destruct (is_ws c); cbn [List.length]; lia.
Qed.

Lemma prepend_ok {B} x (r : result (str * B)) k b :
  prepend x r = Ok (k, b) -> exists k', r = Ok (k', b).
Proof.
  unfold prepend. destruct r as [[k' b']|e]; cbn [bind fst snd]; [|discriminate].
  intros H. injection H as _ <-. now exists k'.
Qed.

Lemma scanstring_length s :
  forall k r, scanstring s = Ok (k, r) -> (List.length r < List.length s)%nat.
Proof.
  remember (List.length s) as n eqn:En.
  assert (Hn : (List.length s <= n)%nat) by lia. clear En.
  revert s Hn. induction n as [|n IH]; intros s Hn k r.
  - destruct s; [discriminate | cbn [List.length] in Hn; lia].
  - destruct s as [|c rest]; [discriminate|].
    cbn [List.length] in Hn. cbn [scanstring].
    destruct (Byte.eqb c dquote).
    { intros H. injection H as _ <-. cbn [List.length]. lia. }
    destruct (Byte.eqb c "\"%byte).
    + destruct rest as [|e rest1]; [discriminate|].
      cbn [List.length] in Hn.
      destruct (Byte.eqb e "u"%byte).
      * destruct rest1 as [|h1 [|h2 [|h3 [|h4 rest2]]]]; try discriminate.
        destruct (hex_value h1), (hex_value h2), (hex_value h3), (hex_value h4);
          try discriminate.
        destruct (utf8_of_code_point _); [|discriminate].
        intros H. apply prepend_ok in H. destruct H as (k' & H).
        apply IH in H; cbn [List.length] in *; lia.
      * repeat match goal with
               | |- context [if ?b then _ else _] => destruct b
               end;
          try discriminate;
          intros H; apply prepend_ok in H; destruct H as (k' & H);
          apply IH in H; cbn [List.length] in *; lia.
    + destruct (N.ltb (ord c) 32); [discriminate|].
      intros H. apply prepend_ok in H. destruct H as (k' & H).
      apply IH in H; cbn [List.length] in *; lia.
Qed.

Lemma span_length {A} (p : A -> bool) (l : list A) :
  (List.length (snd (span p l)) <= List.length l)%nat.
Proof.
  induction l as [|x l IH]; cbn [span]; [cbn; lia|].
  destruct (p x); [|cbn; lia].
  destruct (span p l) as [a b]. cbn [snd List.length] in *. lia.
Qed.

Lemma match_frac_length s :
  (List.length (snd (match_frac s)) <= List.length s)%nat.
Proof.
  unfold match_frac. destruct s as [|p [|d r]]; cbn [snd]; try lia.
  destruct (Byte.eqb p "."%byte && is_digit d)%bool; cbn [snd]; [|lia].
  pose proof (span_length is_digit (tl (p :: d :: r))) as H.
  destruct (span is_digit (tl (p :: d :: r))) as [ds r']. cbn [snd tl List.length] in *. lia.
Qed.

Lemma match_exp_length s :
  (List.length (snd (match_exp s)) <= List.length s)%nat.
Proof.
  unfold match_exp. destruct s as [|e t]; cbn [snd]; [lia|].
  destruct (Byte.eqb e "e"%byte || Byte.eqb e "E"%byte)%bool; cbn [snd]; [|lia].
  assert (H : forall t', (List.length t' <= List.length t)%nat ->
            (List.length (snd (match span is_digit t' with
                               | ([], _) => ([], e :: t)
                               | (ds, r) => (e :: [] ++ ds, r)
                               end)) <= List.length (e :: t))%nat).
  { intros t' Ht. pose proof (span_length is_digit t') as K.
    destruct (span is_digit t') as [[|d ds] r]; cbn [snd List.length] in *; lia. }
  destruct t as [|g u].
  - cbn [span snd List.length]. lia.
  - destruct (Byte.eqb g "-"%byte || Byte.eqb g "+"%byte)%bool.
    + pose proof (span_length is_digit u) as K.
      destruct (span is_digit u) as [[|d ds] r]; cbn [snd List.length] in *; lia.
    + apply H. lia.
Qed.

Lemma match_unsigned_length sign s v r :
  match_unsigned sign s = Some (v, r) -> (List.length r < List.length s)%nat.
Proof.
  unfold match_unsigned. destruct s as [|c t]; [discriminate|].
  destruct (is_digit c) eqn:Hc; [|discriminate].
  assert (H2 : (List.length
                  (snd (if Byte.eqb c "0"%byte then ([c], t) else span is_digit (c :: t)))
                <= List.length t)%nat).
  { destruct (Byte.eqb c "0"%byte); [cbn; lia|].
    cbn [span]. rewrite Hc. pose proof (span_length is_digit t) as K.
    destruct (span is_digit t) as [a b]. cbn [snd] in *. lia. }
  destruct (if Byte.eqb c "0"%byte then ([c], t) else span is_digit (c :: t))
    as [integer s2]. cbn [snd] in H2.
  pose proof (match_frac_length s2) as H3.
  destruct (match_frac s2) as [frac s3]. cbn [snd] in H3.
  pose proof (match_exp_length s3) as H4.
  destruct (match_exp s3) as [exp s4]. cbn [snd] in H4.
  destruct frac, exp; intros H; injection H as _ <-; cbn [List.length]; lia.
Qed.

Lemma match_number_length s v r :
  match_number s = Some (v, r) -> (List.length r < List.length s)%nat.
Proof.
  unfold match_number. destruct s as [|c t]; [discriminate|].
  destruct (Byte.eqb c "-"%byte); intros H; apply match_unsigned_length in H;
    cbn [List.length] in *; lia.
Qed.

Lemma strip_prefix_length p s r :
  strip_prefix p s = Some r -> (List.length r + List.length p = List.length s)%nat.
Proof.
  revert s. induction p as [|x p IH]; intros s; cbn [strip_prefix].
  - intros H. injection H as <-. cbn. lia.
  - destruct s as [|c s]; [discriminate|].
    destruct (Byte.eqb x c); [|discriminate].
    intros H. apply IH in H. cbn [List.length]. lia.
Qed.

Lemma match_literal_length s v r :
  match_literal literals s = Some (v, r) -> (List.length r < List.length s)%nat.
Proof.
  unfold literals. cbn [match_literal].
  repeat match goal with
         | |- context [strip_prefix ?p s] =>
             let E := fresh "E" in
             destruct (strip_prefix p s) eqn:E;
             [apply strip_prefix_length in E; cbn in E;
              intros H; injection H as _ <-; lia |]
         end.
  discriminate.
Qed.

Lemma JSONArray_eq fuel s items :
  JSONArray (S fuel) s items =
  (v <- scan_once fuel s;;
   let items := items ++ [fst v] in
   match skip_ws (snd v) with
   | [] => Raise (JSONDecodeError "Expecting ',' delimiter")
   | c1 :: rest1 =>
       if Byte.eqb c1 "]"%byte then Ok (JList items, rest1)
       else if Byte.eqb c1 ","%byte then JSONArray fuel (skip_ws rest1) items
       else Raise (JSONDecodeError "Expecting ',' delimiter")
   end).
Proof. reflexivity. Qed.

(** A value, the pairs of an object and the items of an array all take at
    least one character. *)
Lemma scan_consumes fuel :
  (forall s v r, scan_once fuel s = Ok (v, r) ->
                 (List.length r < List.length s)%nat)
  /\ (forall s pairs v r, JSONObject fuel s pairs = Ok (v, r) ->
                          (List.length r < List.length s)%nat)
  /\ (forall s items v r, JSONArray fuel s items = Ok (v, r) ->
                          (List.length r < List.length s)%nat).
Proof.
  induction fuel as [|fuel (IHs & IHo & IHa)].
  - repeat split; intros; discriminate.
  - split; [|split].
    + intros s v r. destruct s as [|c rest]; [discriminate|].
      rewrite scan_once_eq.
      destruct (Byte.eqb c dquote).
      { destruct (scanstring rest) as [[k r']|e] eqn:E; [|discriminate].
        cbn [bind fst snd]. intros H. injection H as _ <-.
        apply scanstring_length in E. cbn [List.length]. lia. }
      destruct (Byte.eqb c "{"%byte).
      { pose proof (skip_ws_length rest) as W.
        destruct (skip_ws rest) as [|c1 rest1]; [discriminate|].
        cbn [List.length] in *.
        destruct (Byte.eqb c1 "}"%byte).
        - intros H. injection H as _ <-. lia.
        - destruct (Byte.eqb c1 dquote); [|discriminate].
          intros H. apply IHo in H. lia. }
      destruct (Byte.eqb c "["%byte).
      { pose proof (skip_ws_length rest) as W.
        destruct (skip_ws rest) as [|c1 rest1]; [discriminate|].
        cbn [List.length] in *.
        destruct (Byte.eqb c1 "]"%byte).
        - intros H. injection H as _ <-. lia.
        - intros H. apply IHa in H. cbn [List.length] in *. lia. }
      destruct (match_number (c :: rest)) as [[v' r']|] eqn:E.
      { intros H. injection H as _ <-. now apply match_number_length in E. }
      destruct (match_literal literals (c :: rest)) as [[v' r']|] eqn:E2; [|discriminate].
      intros H. injection H as _ <-. now apply match_literal_length in E2.
    + intros s pairs v r. rewrite JSONObject_eq.
      destruct (scanstring s) as [[k r1]|e] eqn:E; [|discriminate].
      apply scanstring_length in E. cbn [bind fst snd].
      pose proof (skip_ws_length r1) as W1.
      destruct (skip_ws r1) as [|c rest]; [discriminate|].
      destruct (Byte.eqb c ":"%byte); [|discriminate].
      pose proof (skip_ws_length rest) as W2.
      destruct (scan_once fuel (skip_ws rest)) as [[v1 r2]|e] eqn:E2; [|discriminate].
      apply IHs in E2. cbn [bind fst snd].
      pose proof (skip_ws_length r2) as W3.
      destruct (skip_ws r2) as [|c1 rest1]; [discriminate|].
      cbn [List.length] in *.
      destruct (Byte.eqb c1 "}"%byte).
      { intros H. injection H as _ <-. lia. }
      destruct (Byte.eqb c1 ","%byte); [|discriminate].
      pose proof (skip_ws_length rest1) as W4.
      destruct (skip_ws rest1) as [|c2 rest2]; [discriminate|].
      destruct (Byte.eqb c2 dquote); [|discriminate].
      intros H. apply IHo in H. cbn [List.length] in *. lia.
    + intros s items v r. rewrite JSONArray_eq.
      destruct (scan_once fuel s) as [[v1 r2]|e] eqn:E2; [|discriminate].
      apply IHs in E2. cbn [bind fst snd].
      pose proof (skip_ws_length r2) as W3.
      destruct (skip_ws r2) as [|c1 rest1]; [discriminate|].
      cbn [List.length] in *.
      destruct (Byte.eqb c1 "]"%byte).
      { intros H. injection H as _ <-. lia. }
      destruct (Byte.eqb c1 ","%byte); [|discriminate].
      pose proof (skip_ws_length rest1) as W4.
      intros H. apply IHa in H. lia.
Qed.

(** With fuel for twice the length of the text, more fuel changes
    nothing. *)
Lemma scan_fuel_stable fuel :
  (forall s more, (2 * List.length s + 1 <= fuel)%nat ->
                  scan_once (fuel + more) s = scan_once fuel s)
  /\ (forall s pairs more, (2 * List.length s + 1 <= fuel)%nat ->
                           JSONObject (fuel + more) s pairs = JSONObject fuel s pairs)
  /\ (forall s items more, (2 * List.length s + 2 <= fuel)%nat ->
                           JSONArray (fuel + more) s items = JSONArray fuel s items).
Proof.
  induction fuel as [|fuel (IHs & IHo & IHa)].
  - repeat split; intros; lia.
  - split; [|split].
    + intros s more Hf. destruct s as [|c rest]; [reflexivity|].
      cbn [Nat.add]. rewrite !scan_once_eq. cbn [List.length] in Hf.
      destruct (Byte.eqb c dquote); [reflexivity|].
      destruct (Byte.eqb c "{"%byte).
      { pose proof (skip_ws_length rest) as W.
        destruct (skip_ws rest) as [|c1 rest1]; [reflexivity|].
        cbn [List.length] in W.
        destruct (Byte.eqb c1 "}"%byte); [reflexivity|].
        destruct (Byte.eqb c1 dquote); [|reflexivity].
        apply IHo. lia. }
      destruct (Byte.eqb c "["%byte); [|reflexivity].
      pose proof (skip_ws_length rest) as W.
      destruct (skip_ws rest) as [|c1 rest1]; [reflexivity|].
      destruct (Byte.eqb c1 "]"%byte); [reflexivity|].
      apply IHa. cbn [List.length] in *. lia.
    + intros s pairs more Hf. cbn [Nat.add]. rewrite !JSONObject_eq.
      destruct (scanstring s) as [[k r1]|e] eqn:E; [|reflexivity].
      apply scanstring_length in E. cbn [bind fst snd].
      pose proof (skip_ws_length r1) as W1.
      destruct (skip_ws r1) as [|c rest]; [reflexivity|].
      destruct (Byte.eqb c ":"%byte); [|reflexivity].
      pose proof (skip_ws_length rest) as W2. cbn [List.length] in W1.
      rewrite IHs by lia.
      destruct (scan_once fuel (skip_ws rest)) as [[v1 r2]|e] eqn:E2; [|reflexivity].
      apply (proj1 (scan_consumes fuel)) in E2. cbn [bind fst snd].
      pose proof (skip_ws_length r2) as W3.
      destruct (skip_ws r2) as [|c1 rest1]; [reflexivity|].
      destruct (Byte.eqb c1 "}"%byte); [reflexivity|].
      destruct (Byte.eqb c1 ","%byte); [|reflexivity].
      pose proof (skip_ws_length rest1) as W4.
      destruct (skip_ws rest1) as [|c2 rest2]; [reflexivity|].
      destruct (Byte.eqb c2 dquote); [|reflexivity].
      apply IHo. cbn [List.length] in *. lia.
    + intros s items more Hf. cbn [Nat.add]. rewrite !JSONArray_eq.
      rewrite IHs by lia.
      destruct (scan_once fuel s) as [[v1 r2]|e] eqn:E2; [|reflexivity].
      apply (proj1 (scan_consumes fuel)) in E2. cbn [bind fst snd].
      pose proof (skip_ws_length r2) as W3.
      destruct (skip_ws r2) as [|c1 rest1]; [reflexivity|].
      destruct (Byte.eqb c1 "]"%byte); [reflexivity|].
      destruct (Byte.eqb c1 ","%byte); [|reflexivity].
      pose proof (skip_ws_length rest1) as W4.
      apply IHa. cbn [List.length] in *. lia.
Qed.

(** [loads] reads its text with fuel to spare: any larger amount gives
    the same result. *)
Lemma loads_fuel_enough (s : bytes) (more : nat) :
  scan_once (S (S (2 * List.length s)) + more) (skip_ws s)
  = scan_once (S (S (2 * List.length s))) (skip_ws s).
Proof.
  apply (proj1 (scan_fuel_stable _)).
  pose proof (skip_ws_length s). lia.
Qed.

End JsonFacts.

(** ** The token engine *)

(** What [decode_token] does once the token is split in three. *)
Lemma decode_token_three token config now h p s :
  split "."%byte token = [h; p; s] ->
  decode_token token config now =
  (supplied <- _b64decode s;;
   if negb (compare_digest (expected_signature config h p) supplied) then
     Raise (ValueError "Invalid signature")
   else
     raw <- _b64decode p;;
     payload <- Json.loads raw;;
     exp <- py_get payload (lit "exp") (JInt 0);;
     exp <- py_int exp;;
     if (now >=? exp)%Z then Raise (ValueError "Token expired") else Ok payload).
Proof.
  intros Hsplit. unfold decode_token. rewrite Hsplit. reflexivity.
Qed.

Lemma decode_token_malformed token config now :
  List.length (split "."%byte token) <> 3%nat ->
  decode_token token config now = Raise (ValueError "Malformed token").
Proof.
  intros H. unfold decode_token.
  destruct (split "."%byte token) as [|a [|b [|c [|d l]]]]; try reflexivity.
  now contradiction H.
Qed.

Lemma generate_token_eq user_id config issued :
  let p := claims_segment user_id issued (issued + token_exp_seconds config) in
  generate_token user_id config issued
  = header_segment ++ "."%byte :: p
    ++ "."%byte :: _b64encode (expected_signature config header_segment p).
Proof.
  intros p. unfold generate_token. cbn [map join].
  fold header_segment.
  fold (Json.claims user_id issued (issued + token_exp_seconds config)).
  fold (claims_segment user_id issued (issued + token_exp_seconds config)). fold p.
  fold (expected_signature config header_segment p).
  change (lit ".") with ["."%byte].
  rewrite <- app_assoc. reflexivity.
Qed.

Lemma generate_token_split user_id config issued :
  let p := claims_segment user_id issued (issued + token_exp_seconds config) in
  split "."%byte (generate_token user_id config issued)
  = [header_segment; p; _b64encode (expected_signature config header_segment p)].
Proof.
  intros p. rewrite generate_token_eq. fold p.
  rewrite split_app
    by (apply Base64Facts.urlsafe_no_dot, Base64Facts.b64encode_chars).
  rewrite split_app
    by (apply Base64Facts.urlsafe_no_dot, Base64Facts.b64encode_chars).
  rewrite split_no_sep
    by (apply Base64Facts.urlsafe_no_dot, Base64Facts.b64encode_chars).
  reflexivity.
Qed.

Lemma py_get_claims sub iat exp default :
  py_get (Json.claims sub iat exp) (lit "sub") default = Ok (JInt sub)
  /\ py_get (Json.claims sub iat exp) (lit "exp") default = Ok (JInt exp).
Proof. split; reflexivity. Qed.

Lemma decode_generate_token user_id config issued now :
  (now < issued + token_exp_seconds config)%Z ->
  decode_token (generate_token user_id config issued) config now
  = Ok (Json.claims user_id issued (issued + token_exp_seconds config)).
Proof.
  intros Hnow.
  rewrite (decode_token_three _ _ _ _ _ _ (generate_token_split user_id config issued)).
  rewrite Base64Facts.b64decode_b64encode. cbn [bind].
  unfold compare_digest. rewrite bytes_eqb_refl. cbn [negb].
  unfold claims_segment. rewrite Base64Facts.b64decode_b64encode. cbn [bind].
  unfold encode_utf8 at 1. rewrite JsonFacts.loads_claims. cbn [bind].
  destruct (py_get_claims user_id issued (issued + token_exp_seconds config) (JInt 0))
    as [_ ->].
  cbn [bind py_int].
  rewrite Z.geb_leb. destruct (Z.leb_spec (issued + token_exp_seconds config) now);
    [lia | reflexivity].
Qed.

(** C1.  For every user id, configuration (secret and time to live) and
    issue time, a token made by [generate_token] decodes, with the same
    configuration and at any time before its expiry, to a payload whose
    [sub] field is the user id. *)
Theorem token_roundtrip (user_id : Z) (config : AppConfig) (issued now : Z) :
  (now < issued + token_exp_seconds config)%Z ->
  exists payload,
    decode_token (generate_token user_id config issued) config now = Ok payload
    /\ py_get payload (lit "sub") JNull = Ok (JInt user_id).
Proof.
  intros Hnow. eexists. split.
  - apply decode_generate_token. exact Hnow.
  - apply py_get_claims.
Qed.

Lemma token_roundtrip_witness :
  exists payload,
    decode_token (generate_token 1 test_config 1000) test_config 1000 = Ok payload
    /\ py_get payload (lit "sub") JNull = Ok (JInt 1).
Proof.
  apply (token_roundtrip 1 test_config 1000 1000). reflexivity.
Defined.

Lemma geb_expired (now exp : Z) : (now >=? exp)%Z = true <-> (now >= exp)%Z.
Proof. rewrite Z.geb_leb, Z.leb_le. lia. Qed.

(** The outcome of [decode_token] on a token in three parts whose
    signature verifies and whose payload is a dict with the int [exp]
    for its expiry. *)
Lemma decode_token_signed token config now h p s raw pairs exp :
  split "."%byte token = [h; p; s] ->
  _b64decode s = Ok (expected_signature config h p) ->
  _b64decode p = Ok raw ->
  Json.loads raw = Ok (JDict pairs) ->
  py_get (JDict pairs) (lit "exp") (JInt 0) = Ok (JInt exp) ->
  decode_token token config now =
  if (now >=? exp)%Z then Raise (ValueError "Token expired") else Ok (JDict pairs).
Proof.
  intros Hsplit Hsig Hp Hraw Hexp.
  rewrite (decode_token_three _ _ _ _ _ _ Hsplit), Hsig. cbn [bind].
  unfold compare_digest. rewrite bytes_eqb_refl. cbn [negb].
  rewrite Hp. cbn [bind]. rewrite Hraw. cbn [bind]. rewrite Hexp. reflexivity.
Qed.

(** C2.  On a token in three parts, correctly signed, whose payload is a
    dict with an int [exp], [decode_token] fails with the expired-token
    error exactly when the current time is at or after [exp], and gives
    the payload otherwise: at the instant [exp] it fails, one second
    earlier it succeeds. *)
Theorem token_expiry_boundary (token : str) (config : AppConfig)
    (h p s : str) (raw : bytes) (pairs : list (str * json)) (exp : Z) :
  split "."%byte token = [h; p; s] ->
  _b64decode s = Ok (expected_signature config h p) ->
  _b64decode p = Ok raw ->
  Json.loads raw = Ok (JDict pairs) ->
  dict_get pairs (lit "exp") = Some (JInt exp) ->
  (forall now,
      decode_token token config now = Raise (ValueError "Token expired")
      <-> (now >= exp)%Z)
  /\ (forall now, (now < exp)%Z -> decode_token token config now = Ok (JDict pairs))
  /\ decode_token token config exp = Raise (ValueError "Token expired")
  /\ decode_token token config (exp - 1) = Ok (JDict pairs).
Proof.
  intros Hsplit Hsig Hp Hraw Hexp.
  assert (Hget : py_get (JDict pairs) (lit "exp") (JInt 0) = Ok (JInt exp))
    by (cbn [py_get]; now rewrite Hexp).
  assert (D : forall now, decode_token token config now =
            if (now >=? exp)%Z then Raise (ValueError "Token expired")
            else Ok (JDict pairs))
    by (intros now; exact (decode_token_signed _ _ now _ _ _ _ _ _ Hsplit Hsig Hp Hraw Hget)).
  repeat split.
  - rewrite D. destruct (now >=? exp)%Z eqn:E; [intros _; now apply geb_expired | discriminate].
  - intros H. rewrite D. apply geb_expired in H. now rewrite H.
  - intros now H. rewrite D.
    destruct (now >=? exp)%Z eqn:E; [apply geb_expired in E; lia | reflexivity].
  - rewrite D. replace (exp >=? exp)%Z with true; [reflexivity|].
    symmetry. apply geb_expired. lia.
  - rewrite D. destruct (exp - 1 >=? exp)%Z eqn:E; [apply geb_expired in E; lia | reflexivity].
Qed.

Lemma token_expiry_boundary_witness :
  decode_token sample_token test_config 4600 = Raise (ValueError "Token expired")
  /\ decode_token sample_token test_config 4599 = Ok (Json.claims 1 1000 4600).
Proof.
  assert (H := token_expiry_boundary sample_token test_config
                 sample_header sample_claims sample_signature
                 (compact (Json.claims 1 1000 4600))
                 [(lit "sub", JInt 1); (lit "iat", JInt 1000); (lit "exp", JInt 4600)]
                 4600).
  destruct H as (_ & _ & H1 & H2); [vm_compute; reflexivity ..|].
  split; [exact H1 | exact H2].
Defined.

(** C9.  A token in three parts, correctly signed, whose payload is a
    dict without an [exp] field is rejected as expired at every time
    from the epoch on: the missing expiry counts as 0. *)
Theorem token_without_exp_rejected (token : str) (config : AppConfig) (now : Z)
    (h p s : str) (raw : bytes) (pairs : list (str * json)) :
  split "."%byte token = [h; p; s] ->
  _b64decode s = Ok (expected_signature config h p) ->
  _b64decode p = Ok raw ->
  Json.loads raw = Ok (JDict pairs) ->
  dict_get pairs (lit "exp") = None ->
  (0 <= now)%Z ->
  decode_token token config now = Raise (ValueError "Token expired").
Proof.
  intros Hsplit Hsig Hp Hraw Hexp Hnow.
  assert (Hget : py_get (JDict pairs) (lit "exp") (JInt 0) = Ok (JInt 0))
    by (cbn [py_get]; now rewrite Hexp).
  rewrite (decode_token_signed _ _ now _ _ _ _ _ _ Hsplit Hsig Hp Hraw Hget).
  destruct (now >=? 0)%Z eqn:E; [reflexivity|].
  rewrite Z.geb_leb in E. apply Z.leb_gt in E. lia.
Qed.

Lemma token_without_exp_rejected_witness :
  decode_token token_without_exp test_config 1000 = Raise (ValueError "Token expired").
Proof.
  apply (token_without_exp_rejected token_without_exp test_config 1000
           sample_header (lit "eyJzdWIiOjF9")
           (lit "lde-Q6Ba2wj9216Ydyz3WukHImcyUU7RvwSLuddDU4I")
           (compact (JDict [(lit "sub", JInt 1)]))
           [(lit "sub", JInt 1)]);
    vm_compute; first [reflexivity | discriminate].
Defined.




(** ** [verify_password] on stored credentials that are not well formed *)

Lemma verify_password_delimiters (password stored : str) :
  List.length (split "$"%byte stored) <> 2%nat ->
  verify_password password stored = Ok false.
Proof.
  intros H. unfold verify_password.
  destruct (split "$"%byte stored) as [|a [|b [|c l]]]; try reflexivity.
  now contradiction H.
Qed.

(** C4 fails on the code: a stored credential with its one [$] but with a
    part that is not base64 makes [verify_password] raise, where the
    claim promises [False].  The conversion of the parts is outside the
    [try] block that guards the split. *)
Theorem verify_password_raises :
  List.length (split "$"%byte (lit "A$A")) = 2%nat
  /\ verify_password (lit "password123") (lit "A$A")
     = Raise (BinasciiError
         "Invalid base64-encoded string: number of data characters (1) cannot be 1 more than a multiple of 4").
Proof. split; reflexivity. Qed.

Lemma sha256_length (m : bytes) : List.length (SHA256.sha256 m) = 32%nat.
Proof. reflexivity. Qed.

Lemma hmac_sha256_length (key m : bytes) :
  List.length (SHA256.hmac_sha256 key m) = 32%nat.
Proof. apply sha256_length. Qed.

Lemma xor_bytes_length (a b : bytes) :
  List.length (SHA256.xor_bytes a b) = Nat.min (List.length a) (List.length b).
Proof. unfold SHA256.xor_bytes. now rewrite length_map, length_combine. Qed.

Lemma pbkdf2_length (password salt : bytes) (n : N) :
  List.length (SHA256.pbkdf2_hmac_sha256 password salt n) = 32%nat.
Proof.
  unfold SHA256.pbkdf2_hmac_sha256.
  apply (N.iter_invariant (n - 1) _ _
           (fun tu : bytes * bytes => List.length (fst tu) = 32%nat)).
  - intros tu H. cbn [fst]. now rewrite xor_bytes_length, H, hmac_sha256_length.
  - apply hmac_sha256_length.
Qed.

(** A stored key of the wrong length never verifies. *)
Lemma verify_password_wrong_length (password stored a b : str) (salt key : bytes) :
  split "$"%byte stored = [a; b] ->
  _b64decode a = Ok salt ->
  _b64decode b = Ok key ->
  List.length key <> 32%nat ->
  verify_password password stored = Ok false.
Proof.
  intros Hsplit Ha Hb Hlen. unfold verify_password.
  rewrite Hsplit. cbn [unpack2]. rewrite Ha. cbn [bind]. rewrite Hb. cbn [bind].
  unfold compare_digest.
  destruct (bytes_eqb key _) eqn:E; [|reflexivity].
  apply bytes_eqb_eq in E. rewrite E, pbkdf2_length in Hlen. contradiction.
Qed.

(** ** Login *)

Lemma authenticate_unknown_email db e password config now :
  get_user_by_email db e = None ->
  authenticate_user db e password config now
  = Raise (ValueError "Invalid email or password").
Proof. intros H. unfold authenticate_user. now rewrite H. Qed.

Lemma authenticate_wrong_password db e password config now row :
  get_user_by_email db e = Some row ->
  verify_password password (password_hash row) = Ok false ->
  authenticate_user db e password config now
  = Raise (ValueError "Invalid email or password").
Proof. intros H V. unfold authenticate_user. now rewrite H, V. Qed.

Lemma verify_password_value_str (password stored : str) :
  verify_password_value (JStr password) stored = verify_password password stored.
Proof.
  unfold verify_password_value, verify_password.
  generalize SHA256.pbkdf2_hmac_sha256 as derive. intros derive.
  destruct (unpack2 _) as [[a b]|e]; [|reflexivity].
  destruct (_b64decode a); [|reflexivity].
  destruct (_b64decode b); reflexivity.
Qed.

Lemma authenticate_user_value_str db e (password : str) config now :
  authenticate_user_value db e (JStr password) config now
  = authenticate_user db e password config now.
Proof.
  unfold authenticate_user_value, authenticate_user.
  destruct (get_user_by_email db e); [|reflexivity].
  rewrite verify_password_value_str. reflexivity.
Qed.

(** Only a [str] is ever verified. *)
Lemma verify_password_value_true (password : json) (stored : str) :
  verify_password_value password stored = Ok true -> exists p, password = JStr p.
Proof.
  unfold verify_password_value.
  destruct (unpack2 _) as [[a b]|e];
    [|destruct (is_ValueError e); discriminate].
  destruct (_b64decode a); [|discriminate]. cbn [bind].
  destruct (_b64decode b); [|discriminate]. cbn [bind].
  destruct password; try discriminate. eauto.
Qed.

(** Where the failures do coincide: for a password that is a string, an
    unknown email and a stored credential against which
    [verify_password] returns [False] give the same error. *)
Lemma login_failure_same_error (self : JmailApplication) (request : Request)
    (now : Z) (payload : json) (e0 e password : str) :
  _parse_json request = Ok payload ->
  py_get payload (lit "email") (JStr []) = Ok (JStr e0) ->
  strip_lower (JStr e0) = Ok e ->
  e <> [] ->
  py_get payload (lit "password") (JStr []) = Ok (JStr password) ->
  password <> [] ->
  get_user_by_email (db self) e = None
  \/ (exists row, get_user_by_email (db self) e = Some row
                  /\ verify_password password (password_hash row) = Ok false) ->
  authenticate_user (db self) e password (config self) now
  = Raise (ValueError "Invalid email or password")
  /\ handle_login self request now
     = Raise (UnauthorizedError "Invalid email or password").
Proof.
  intros Hparse Hemail Hstrip He Hpw Hp Hcause.
  assert (A : authenticate_user (db self) e password (config self) now
              = Raise (ValueError "Invalid email or password")).
  { destruct Hcause as [Hnone | (row & Hrow & Hv)].
    - now apply authenticate_unknown_email.
    - now apply (authenticate_wrong_password _ _ _ _ _ row). }
  split; [exact A|].
  unfold handle_login. rewrite Hparse. cbn [bind]. rewrite Hemail. cbn [bind].
  rewrite Hstrip. cbn [bind]. rewrite Hpw. cbn [bind].
  destruct e as [|c e]; [contradiction|].
  destruct password as [|c' password]; [contradiction|].
  cbn [truthy negb orb]. rewrite authenticate_user_value_str, A. reflexivity.
Qed.

(** C5 fails on the code: the caller can tell a known email from an
    unknown one by the way the login fails.

    With a password that is not a string (here the number 1),
    [handle_login] gets past the check for missing fields; for an
    unknown email [authenticate_user] raises the generic [ValueError]
    and the answer is 401, while for a known email [verify_password]
    reaches [password.encode] and raises [AttributeError], which no
    handler catches, and the answer is 500.

    With a stored credential that has its [$] but whose parts are not
    base64 (the input of C4), a login with any string password raises
    [binascii.Error] in [verify_password]; it is a [ValueError], so
    [handle_login] answers 401 with its message instead of the generic
    one that an unknown email gets. *)
Theorem login_failure_leaks :
  (handle_login sample_app
     (login_request_value (lit "nobody@example.com") (JInt 1)) 1000
   = Raise (UnauthorizedError "Invalid email or password")
   /\ handle_login sample_app
        (login_request_value (lit "alice@example.com") (JInt 1)) 1000
      = Raise AttributeError)
  /\ (status_line
        (fst (__call__ sample_app
                (login_request_value (lit "nobody@example.com") (JInt 1))
                sample_world []))
      = Some (lit "401 Unauthorized")
      /\ status_line
           (fst (__call__ sample_app
                   (login_request_value (lit "alice@example.com") (JInt 1))
                   sample_world []))
         = Some (lit "500 Internal Server Error"))
  /\ (handle_login corrupt_app
        (login_request (lit "nobody@example.com") (lit "password123")) 1000
      = Raise (UnauthorizedError "Invalid email or password")
      /\ handle_login corrupt_app
           (login_request (lit "alice@example.com") (lit "password123")) 1000
         = Raise (UnauthorizedError
             "Invalid base64-encoded string: number of data characters (1) cannot be 1 more than a multiple of 4")).
Proof. repeat split; vm_compute; reflexivity. Qed.

(** ** Registration *)

Lemma find_none_existsb {A} (f : A -> bool) (l : list A) :
  find f l = None -> existsb f l = false.
Proof.
  induction l as [|x l IH]; [reflexivity|].
  cbn [find existsb]. destruct (f x); [discriminate | exact IH].
Qed.

Lemma find_app_last {A} (f : A -> bool) (l : list A) (x : A) :
  f x = true -> find f (l ++ [x]) <> None.
Proof.
  intros Hx. induction l as [|y l IH]; cbn [app find].
  - rewrite Hx. discriminate.
  - destruct (f y); [discriminate | exact IH].
Qed.

Lemma validate_email_error address err :
  validate_email address = Raise err -> err = ValueError "Invalid email address".
Proof.
  unfold validate_email. destruct (negb _); [congruence | discriminate].
Qed.

(** C10.  When [register_user] raises, the error is the rejection of the
    email's shape or of an address already in the store, and the store
    is left as it was: the row is created only after both checks. *)
Theorem register_error_leaves_store (db : Database) (e password : str)
    (name : option str) (config : AppConfig) (env : Env) (err : exn) :
  fst (register_user db e password name config env) = Raise err ->
  snd (register_user db e password name config env) = db
  /\ (err = ValueError "Invalid email address"
      \/ err = ValueError "Email already registered").
Proof.
  unfold register_user.
  destruct (validate_email e) as [a|verr] eqn:Hv.
  - destruct (get_user_by_email db e) as [row|] eqn:Hrow.
    + cbn [fst snd]. intros H. split; [reflexivity | right; congruence].
    + unfold create_user.
      unfold get_user_by_email in Hrow. rewrite (find_none_existsb _ _ Hrow).
      unfold get_user_by_id. cbn [users].
      destruct (find _ (users db ++ _)) eqn:Hfind.
      * cbn [fst]. discriminate.
      * exfalso. revert Hfind. apply find_app_last. cbn [id]. apply Z.eqb_refl.
  - cbn [fst snd]. intros H. split; [reflexivity | left].
    apply (validate_email_error e). congruence.
Qed.

Lemma register_error_leaves_store_witness :
  snd (register_user sample_db (lit "alice@example.com") (lit "password123")
                     None test_config sample_env) = sample_db.
Proof.
  apply (register_error_leaves_store sample_db (lit "alice@example.com")
           (lit "password123") None test_config sample_env
           (ValueError "Email already registered")).
  vm_compute. reflexivity.
Defined.

(** ** The shape of an email address *)

Module EmailFacts.
Import Re.
Local Open Scope N_scope.

Lemma match_plus a r s start :
  match_here (Plus a :: r) s start = true <->
  exists run rest,
    run <> [] /\ s = run ++ rest
    /\ forallb (atom_matches a) run = true /\ match_here r rest false = true.
Proof.
  induction s as [|c s IH].
  - split; [discriminate|].
    intros (run & rest & Hne & E & _). destruct run; [contradiction | discriminate].
  - assert (E : match_here (Plus a :: r) (c :: s) start
                = atom_matches a c
                  && (match_here (Plus a :: r) s start || match_here r s false))
      by reflexivity.
    rewrite E. split.
    + intros H. apply andb_prop in H. destruct H as [Hc H].
      apply orb_prop in H. destruct H as [H | H].
      * apply IH in H. destruct H as (run & rest & _ & -> & Hrun & Hk).
        exists (c :: run), rest. repeat split; [discriminate | |exact Hk].
        cbn [forallb]. now rewrite Hc.
      * exists [c], s. repeat split; [discriminate | | exact H].
        cbn [forallb]. now rewrite Hc.
    + intros (run & rest & Hne & Hs & Hrun & Hk).
      destruct run as [|x run]; [contradiction|].
      cbn [app] in Hs. injection Hs as -> ->.
      cbn [forallb] in Hrun. apply andb_prop in Hrun. destruct Hrun as [Hx Hrun].
      rewrite Hx. cbn [andb]. apply orb_true_intro.
      destruct run as [|y run].
      * right. exact Hk.
      * left. apply IH. exists (y :: run), rest.
        repeat split; [discriminate | exact Hrun | exact Hk].
Qed.

Lemma match_one_lit x r s start :
  match_here (One (Lit x) :: r) s start = true <->
  exists rest, s = x :: rest /\ match_here r rest false = true.
Proof.
  destruct s as [|c s]; cbn [match_here atom_matches].
  - split; [discriminate | intros (rest & E & _); discriminate].
  - split.
    + intros H. apply andb_prop in H. destruct H as [Hc H].
      apply N.eqb_eq in Hc. subst c. now exists s.
    + intros (rest & E & H). injection E as -> ->. now rewrite N.eqb_refl.
Qed.

Lemma match_eol s start :
  match_here [Eol] s start = true <-> s = [] \/ s = [10].
Proof.
  destruct s as [|c [|d s]]; cbn [match_here].
  - split; auto.
  - rewrite andb_true_r, N.eqb_eq. split.
    + intros ->. now right.
    + intros [E | E]; [discriminate | now injection E].
  - split; [discriminate | intros [E | E]; discriminate].
Qed.

Lemma regex_decomposes cps :
  match_here EMAIL_REGEX cps true = true <->
  decomposes cps [] \/ decomposes cps [10].
Proof.
  unfold EMAIL_REGEX. fold part_atom.
  change (match_here (Bol :: ?r) cps true) with (true && match_here r cps true)%bool.
  cbn [andb]. split.
  - intros H.
    apply match_plus in H. destruct H as (l & r1 & Hl & -> & Hokl & H).
    apply match_one_lit in H. destruct H as (r2 & -> & H).
    apply match_plus in H. destruct H as (d & r3 & Hd & -> & Hokd & H).
    apply match_one_lit in H. destruct H as (r4 & -> & H).
    apply match_plus in H. destruct H as (t & e & Ht & -> & Hokt & H).
    apply match_eol in H.
    destruct H as [-> | ->]; [left | right]; exists l, d, t; unfold ok;
      repeat split; first [assumption | reflexivity].
  - intros H.
    assert (K : exists e, (e = [] \/ e = [10]) /\ decomposes cps e)
      by (destruct H as [H | H];
          [exists []; split; [now left | exact H]
          | exists [10]; split; [now right | exact H]]).
    destruct K as (e & He & l & d & t & Hl & Hd & Ht & Hokl & Hokd & Hokt & ->).
    unfold ok in Hokl, Hokd, Hokt.
    apply match_plus. exists l, (64 :: d ++ 46 :: t ++ e).
    split; [exact Hl|]. split; [reflexivity|]. split; [exact Hokl|].
    apply match_one_lit. eexists. split; [reflexivity|].
    apply match_plus. exists d, (46 :: t ++ e).
    split; [exact Hd|]. split; [reflexivity|]. split; [exact Hokd|].
    apply match_one_lit. eexists. split; [reflexivity|].
    apply match_plus. exists t, e.
    split; [exact Ht|]. split; [reflexivity|]. split; [exact Hokt|].
    apply match_eol. exact He.
Qed.

Lemma ok_iff c : ok c = true <-> not_at c = true /\ is_space c = false.
Proof.
  unfold ok, part_atom, not_at. cbn [atom_matches existsb item_matches].
  rewrite orb_false_r, negb_orb, andb_true_iff, !negb_true_iff. tauto.
Qed.

Lemma forallb_ok l :
  forallb ok l = true <->
  forallb not_at l = true /\ forallb (fun c => negb (is_space c)) l = true.
Proof.
  induction l as [|c l IH]; cbn [forallb]; [tauto|].
  rewrite !andb_true_iff, IH, ok_iff, negb_true_iff. tauto.
Qed.

Lemma span_spec {A} (p : A -> bool) (l : list A) :
  l = fst (span p l) ++ snd (span p l)
  /\ forallb p (fst (span p l)) = true
  /\ match snd (span p l) with [] => True | c :: _ => p c = false end.
Proof.
  induction l as [|x l (IH1 & IH2 & IH3)]; cbn [span].
  - repeat split.
  - destruct (p x) eqn:Hx.
    + destruct (span p l) as [a b]. cbn [fst snd] in *.
      split; [cbn [app]; congruence|].
      split; [cbn [forallb]; now rewrite Hx, IH2 | exact IH3].
    + cbn [fst snd app forallb]. repeat split. exact Hx.
Qed.

Lemma at_count_app a b : at_count (a ++ b) = (at_count a + at_count b)%nat.
Proof. unfold at_count. now rewrite filter_app, length_app. Qed.

Lemma at_count_none l : forallb not_at l = true <-> at_count l = 0%nat.
Proof.
  unfold at_count, not_at. induction l as [|c l IH]; cbn [forallb filter]; [tauto|].
  destruct (c =? 64); cbn [negb andb List.length]; [split; discriminate | exact IH].
Qed.

Lemma dot_then_text_split r :
  dot_then_text r = true <-> exists x t, t <> [] /\ r = x ++ 46 :: t.
Proof.
  induction r as [|c r IH]; cbn [dot_then_text].
  - split; [discriminate|]. intros (x & t & _ & E). destruct x; discriminate.
  - rewrite orb_true_iff, andb_true_iff, N.eqb_eq, IH. split.
    + intros [[-> H] | (x & t & Ht & ->)].
      * exists [], r. split; [destruct r; [discriminate H | discriminate] | reflexivity].
      * exists (c :: x), t. auto.
    + intros (x & t & Ht & E). destruct x as [|y x]; cbn [app] in E; injection E as -> ->.
      * left. split; [reflexivity|]. destruct t; [contradiction | reflexivity].
      * right. exists x, t. auto.
Qed.

Lemma shape_decomposes cps : shape_of cps = true <-> decomposes cps [].
Proof.
  unfold shape_of. fold (at_count cps).
  destruct (span_spec not_at cps) as (Hcat & Hl & Hhead).
  destruct (span not_at cps) as [l b]. cbn [fst snd] in *.
  rewrite !andb_true_iff, Nat.eqb_eq. split.
  - intros [[[Hsp Hcount] Hne] Hdot].
    destruct b as [|c b].
    + exfalso. rewrite app_nil_r in Hcat. subst l.
      apply at_count_none in Hl. lia.
    + unfold not_at in Hhead. apply negb_false_iff, N.eqb_eq in Hhead. subst c.
      cbn [tl] in Hdot. rewrite Hcat in Hcount, Hsp.
      rewrite at_count_app in Hcount. apply at_count_none in Hl.
      change (64 :: b) with ([64] ++ b) in Hcount.
      rewrite at_count_app in Hcount.
      change (at_count [64]) with 1%nat in Hcount.
      assert (Hb : forallb not_at b = true) by (apply at_count_none; lia).
      rewrite forallb_app in Hsp. apply andb_prop in Hsp. destruct Hsp as [Hspl Hspb].
      cbn [forallb] in Hspb. apply andb_prop in Hspb. destruct Hspb as [_ Hspb].
      destruct b as [|c0 r]; [discriminate Hdot|]. cbn [inner_dot] in Hdot.
      apply dot_then_text_split in Hdot. destruct Hdot as (x & t & Ht & ->).
      change (c0 :: x ++ 46 :: t) with ((c0 :: x) ++ 46 :: t) in *.
      rewrite forallb_app in Hb, Hspb.
      apply andb_prop in Hb. destruct Hb as [Hbd Hbt].
      apply andb_prop in Hspb. destruct Hspb as [Hsd Hst].
      cbn [forallb] in Hbt, Hst.
      apply andb_prop in Hbt. destruct Hbt as [_ Hbt].
      apply andb_prop in Hst. destruct Hst as [_ Hst].
      exists l, (c0 :: x), t. rewrite app_nil_r.
      repeat split; try (apply forallb_ok; split; assumption);
        try discriminate; try assumption.
      * destruct l; [discriminate Hne | discriminate].
      * rewrite <- at_count_none in Hl. apply forallb_ok. split; assumption.
  - intros (l' & d & t & Hl' & Hd & Ht & Hokl & Hokd & Hokt & E).
    rewrite app_nil_r in E.
    apply forallb_ok in Hokl, Hokd, Hokt.
    destruct Hokl as [Hal Hsl]. destruct Hokd as [Had Hsd]. destruct Hokt as [Hat Hst].
    assert (Hspan : span not_at cps = (l', 64 :: d ++ 46 :: t))
      by (rewrite E; apply JsonFacts.span_run; [exact Hal | reflexivity]).
    pose proof (span_spec not_at cps) as K. rewrite Hspan in K.
    cbn [fst snd] in K. destruct K as (K1 & _).
    assert (El : l = l' /\ b = 64 :: d ++ 46 :: t).
    { revert Hcat Hl Hhead. rewrite E. clear - Hal.
      revert l. induction l' as [|x l' IH]; intros l Hcat Hl Hhead.
      - destruct l as [|y l]; [auto|].
        cbn [app] in Hcat. injection Hcat as <- _. discriminate Hl.
      - cbn [forallb] in Hal. apply andb_prop in Hal. destruct Hal as [Hx Hal].
        destruct l as [|y l].
        + cbn [app] in Hcat. subst b. cbn in Hhead. congruence.
        + cbn [app] in Hcat. injection Hcat as <- Hcat.
          cbn [forallb] in Hl. apply andb_prop in Hl. destruct Hl as [_ Hl].
          destruct (IH Hal l Hcat Hl Hhead) as [-> ->]. auto. }
    destruct El as [-> ->]. cbn [tl].
    repeat split.
    + rewrite E, forallb_app. cbn [forallb]. rewrite forallb_app. cbn [forallb].
      rewrite Hsl, Hsd, Hst. reflexivity.
    + rewrite E, at_count_app.
      change (64 :: d ++ 46 :: t) with ([64] ++ d ++ [46] ++ t).
      rewrite !at_count_app.
      apply at_count_none in Hal, Had, Hat. rewrite Hal, Had, Hat. reflexivity.
    + destruct l'; [contradiction | reflexivity].
    + destruct d as [|c0 x]; [contradiction|]. cbn [app inner_dot].
      apply dot_then_text_split. exists x, t. auto.
Qed.

Lemma decomposes_newline_last cps : decomposes cps [10] -> last cps 0 = 10.
Proof.
  intros (l & d & t & _ & _ & _ & _ & _ & _ & ->).
  change (l ++ 64 :: d ++ 46 :: t ++ [10])
    with (l ++ (64 :: d) ++ (46 :: t) ++ [10]).
  rewrite !app_assoc. apply last_last.
Qed.

End EmailFacts.

(** C7 (amended).  [validate_email] accepts every address of the shape
    [local@domain.tld]: no white space, exactly one [@], a local part
    that is not empty, a dot in the domain with text on both sides;
    the characters need not be ASCII.  It rejects with the validation
    error every address outside this shape that does not end with a
    newline. *)
Theorem email_validation (address : str) :
  (email_shape false address = true -> validate_email address = Ok address)
  /\ (last (code_points address) 0%N <> 10%N ->
      email_shape false address = false ->
      validate_email address = Raise (ValueError "Invalid email address")).
Proof.
  unfold email_shape, validate_email, Re.matches. cbn [andb]. split.
  - intros H. apply EmailFacts.shape_decomposes in H.
    assert (M : Re.match_here EMAIL_REGEX (code_points address) true = true)
      by (apply EmailFacts.regex_decomposes; now left).
    now rewrite M.
  - intros Hlast H.
    destruct (Re.match_here EMAIL_REGEX (code_points address) true) eqn:M;
      [|reflexivity].
    apply EmailFacts.regex_decomposes in M. destruct M as [M | M].
    + apply EmailFacts.shape_decomposes in M. congruence.
    + apply EmailFacts.decomposes_newline_last in M. contradiction.
Qed.

Lemma email_validation_witness :
  validate_email (lit "alice@example.com") = Ok (lit "alice@example.com")
  /\ validate_email (lit "invalid") = Raise (ValueError "Invalid email address").
Proof.
  split.
  - apply (proj1 (email_validation (lit "alice@example.com"))). reflexivity.
  - apply (proj2 (email_validation (lit "invalid"))); [discriminate | reflexivity].
Defined.

(** C7 as stated fails: an address whose local part is the letter e with
    an acute accent (two bytes in UTF-8) is not ASCII, so it is outside
    the shape of the claim, and [validate_email] accepts it. *)
Lemma non_ascii_email_accepted :
  email_shape true ([chr 195; chr 169] ++ lit "@b.c") = false
  /\ validate_email ([chr 195; chr 169] ++ lit "@b.c")
     = Ok ([chr 195; chr 169] ++ lit "@b.c").
Proof. split; reflexivity. Qed.

(** An address that ends with a newline is accepted when the text before
    the newline has the shape: [$] holds before a final newline. *)
Lemma trailing_newline_accepted :
  email_shape false (lit "a@b.c" ++ [chr 10]) = false
  /\ validate_email (lit "a@b.c" ++ [chr 10]) = Ok (lit "a@b.c" ++ [chr 10]).
Proof. split; reflexivity. Qed.

(** * Further properties *)

(** ** The codec, the hasher and the token engine: further properties *)

Lemma b64url_char_enc n : (n < 64)%N -> b64url_char (Base64.enc n) = true.
Proof.
  apply (N_forall_lt 64 (fun n => b64url_char (Base64.enc n))).
  vm_compute. reflexivity.
Qed.

Lemma urlsafe_b64url s : Forall Base64.urlsafe_char s -> forallb b64url_char s = true.
Proof.
  induction 1 as [| c s (n & Hn & ->) _ IH]; [reflexivity|].
  cbn [forallb]. rewrite IH, (b64url_char_enc n Hn). reflexivity.
Qed.

Lemma b64encode_alphabet data : forallb b64url_char (_b64encode data) = true.
Proof. apply urlsafe_b64url, Base64Facts.b64encode_chars. Qed.

Lemma b64encode_length data :
  List.length (_b64encode data) = ((4 * List.length data + 2) / 3)%nat.
Proof.
  induction data as [| a | a b | a b c l IH] using list_ind3.
  - reflexivity.
  - rewrite Base64Facts.b64encode_1. reflexivity.
  - rewrite Base64Facts.b64encode_2. reflexivity.
  - rewrite Base64Facts.b64encode_3. cbn [List.length]. rewrite IH.
    replace (4 * S (S (S (List.length l))) + 2)%nat
      with ((4 * List.length l + 2) + 4 * 3)%nat by lia.
    rewrite Nat.div_add by discriminate. lia.
Qed.

(** X1.  The text [_b64encode] gives for [n] bytes has
    [(4 * n + 2) / 3] characters, all of them letters, digits, [-] or
    [_]: there is no padding and no [+] or [/]. *)
Theorem b64encode_shape (data : bytes) :
  forallb b64url_char (_b64encode data) = true
  /\ List.length (_b64encode data) = ((4 * List.length data + 2) / 3)%nat.
Proof. split; [apply b64encode_alphabet | apply b64encode_length]. Qed.

(** *** [split] counts the separators and [join] undoes it *)

Lemma split_length sep s : List.length (split sep s) = S (occurrences sep s).
Proof.
  unfold occurrences. induction s as [|c s IH]; [reflexivity|].
  cbn [split filter]. destruct (Byte.eqb c sep).
  - cbn [List.length]. now rewrite IH.
  - destruct (split sep s) as [|x parts]; [discriminate IH | exact IH].
Qed.

Lemma join_split sep s : join [sep] (split sep s) = s.
Proof.
  induction s as [|c s IH]; [reflexivity|].
  cbn [split]. destruct (Byte.eqb c sep) eqn:E.
  - apply Byte.byte_dec_bl in E. subst c.
    destruct (split sep s) as [|x parts] eqn:S; [now apply split_nonempty in S|].
    change (join [sep] ([] :: x :: parts)) with (sep :: join [sep] (x :: parts)).
    now rewrite IH.
  - destruct (split sep s) as [|x parts] eqn:S; [now apply split_nonempty in S|].
    destruct parts as [|y parts].
    + cbn [join] in *. now rewrite IH.
    + change (join [sep] ((c :: x) :: y :: parts))
        with (c :: join [sep] (x :: y :: parts)).
      now rewrite IH.
Qed.

Lemma split_parts sep s : Forall (fun part => ~ In sep part) (split sep s).
Proof.
  induction s as [|c s IH]; [repeat constructor; auto|].
  cbn [split]. destruct (Byte.eqb c sep) eqn:E.
  - constructor; [auto | exact IH].
  - destruct (split sep s) as [|x parts]; [repeat constructor|].
    + intros [K|[]]. subst c. now rewrite byte_eqb_refl in E.
    + inversion IH as [|? ? Hx Hp]; subst. constructor; [|exact Hp].
      intros [K|K]; [subst c; now rewrite byte_eqb_refl in E | auto].
Qed.

Lemma split_two sep s a b :
  split sep s = [a; b] -> s = a ++ sep :: b /\ ~ In sep a /\ ~ In sep b.
Proof.
  intros H. assert (P := split_parts sep s). rewrite H in P.
  inversion P as [|? ? Ha P']; subst. inversion P' as [|? ? Hb _]; subst.
  split; [|auto].
  rewrite <- (join_split sep s), H. reflexivity.
Qed.

Lemma split_three sep s a b c :
  split sep s = [a; b; c] ->
  s = a ++ sep :: b ++ sep :: c /\ ~ In sep a /\ ~ In sep b /\ ~ In sep c.
Proof.
  intros H. assert (P := split_parts sep s). rewrite H in P.
  inversion P as [|? ? Ha P']; subst. inversion P' as [|? ? Hb P'']; subst.
  inversion P'' as [|? ? Hc _]; subst.
  split; [|auto].
  rewrite <- (join_split sep s), H. reflexivity.
Qed.

(** X2.  A stored credential that does not hold exactly one [$] never
    verifies and never makes [verify_password] raise, whatever the
    password. *)
Theorem verify_password_delimiter_count (password stored : str) :
  occurrences "$"%byte stored <> 1%nat ->
  verify_password password stored = Ok false.
Proof.
  intros H. apply verify_password_delimiters. rewrite split_length. lia.
Qed.

Lemma verify_password_delimiter_count_witness :
  verify_password (lit "password123") (lit "no delimiter") = Ok false
  /\ verify_password (lit "password123") (lit "a$b$c") = Ok false.
Proof.
  split; apply verify_password_delimiter_count; vm_compute; discriminate.
Defined.

Lemma verify_password_parts password a b salt key :
  _b64decode a = Ok salt ->
  _b64decode b = Ok key ->
  ~ In "$"%byte a -> ~ In "$"%byte b ->
  verify_password password (a ++ lit "$" ++ b)
  = Ok (bytes_eqb key (derived_key password salt)).
Proof.
  intros Ha Hb Na Nb. unfold verify_password.
  change (lit "$" ++ b) with ("$"%byte :: b).
  rewrite (split_app _ _ _ Na), (split_no_sep _ _ Nb). cbn [unpack2].
  rewrite Ha. cbn [bind]. rewrite Hb. cbn [bind].
  unfold compare_digest, derived_key. reflexivity.
Qed.

(** X3.  [verify_password] accepts a password only for a stored
    credential of the form [salt$key] whose two parts decode and whose
    key is the PBKDF2 key of that password under that salt. *)
Theorem verify_password_sound (password stored : str) :
  verify_password password stored = Ok true ->
  exists a b salt,
    stored = a ++ lit "$" ++ b
    /\ _b64decode a = Ok salt
    /\ _b64decode b = Ok (derived_key password salt).
Proof.
  unfold verify_password.
  destruct (split "$"%byte stored) as [|a [|b [|c l]]] eqn:S;
    cbn [unpack2 is_ValueError]; try discriminate.
  destruct (_b64decode a) as [salt|e] eqn:Ha; [|discriminate]. cbn [bind].
  destruct (_b64decode b) as [key|e] eqn:Hb; [|discriminate]. cbn [bind].
  unfold compare_digest.
  destruct (bytes_eqb key _) eqn:E; [|discriminate].
  intros _. apply bytes_eqb_eq in E. apply split_two in S as (-> & _ & _).
  exists a, b, salt. subst key. auto.
Qed.

Lemma verify_password_sound_witness :
  exists a b salt,
    hash_password (lit "password123") (lit "0123456789abcdef") = a ++ lit "$" ++ b
    /\ _b64decode a = Ok salt
    /\ _b64decode b = Ok (derived_key (lit "password123") salt).
Proof.
  apply (verify_password_sound (lit "password123")).
  apply verify_hash_password.
Defined.

Lemma hash_password_eq (password : str) (salt : bytes) :
  hash_password password salt
  = _b64encode salt ++ lit "$" ++ _b64encode (derived_key password salt).
Proof. unfold hash_password, derived_key. reflexivity. Qed.

Lemma verify_other_key (p1 p2 : str) (salt : bytes) :
  exists accepted,
    verify_password p1 (hash_password p2 salt) = Ok accepted
    /\ (accepted = true <-> derived_key p1 salt = derived_key p2 salt).
Proof.
  exists (bytes_eqb (derived_key p2 salt) (derived_key p1 salt)). split.
  - rewrite hash_password_eq. apply verify_password_parts.
    + apply Base64Facts.b64decode_b64encode.
    + apply Base64Facts.b64decode_b64encode.
    + apply Base64Facts.urlsafe_no_dollar, Base64Facts.b64encode_chars.
    + apply Base64Facts.urlsafe_no_dollar, Base64Facts.b64encode_chars.
  - rewrite bytes_eqb_eq. split; congruence.
Qed.

(** X4.  On a credential made by [hash_password], [verify_password]
    never raises, and it accepts a password exactly when that password
    has the same PBKDF2 key under the credential's salt as the password
    that was hashed. *)
Theorem verify_other_password (p1 p2 : str) (salt : bytes) :
  exists accepted,
    verify_password p1 (hash_password p2 salt) = Ok accepted
    /\ (accepted = true <-> derived_key p1 salt = derived_key p2 salt).
Proof. exact (verify_other_key p1 p2 salt). Qed.

(** X5.  With the 16-byte salt that [os.urandom(16)] gives, the
    credential [hash_password] makes has 66 characters: 22 for the salt,
    a [$], and 43 for the 32-byte key, the two parts in the URL-safe
    base64 alphabet. *)
Theorem hash_password_format (password : str) (salt : bytes) :
  List.length salt = 16%nat ->
  exists a b,
    hash_password password salt = a ++ lit "$" ++ b
    /\ List.length a = 22%nat /\ List.length b = 43%nat
    /\ forallb b64url_char a = true /\ forallb b64url_char b = true
    /\ List.length (hash_password password salt) = 66%nat.
Proof.
  intros H. rewrite hash_password_eq.
  exists (_b64encode salt), (_b64encode (derived_key password salt)).
  assert (La : List.length (_b64encode salt) = 22%nat)
    by (rewrite b64encode_length, H; reflexivity).
  assert (Lb : List.length (_b64encode (derived_key password salt)) = 43%nat)
    by (rewrite b64encode_length; unfold derived_key; rewrite pbkdf2_length;
        reflexivity).
  split; [reflexivity|]. split; [exact La|]. split; [exact Lb|].
  split; [apply b64encode_alphabet|]. split; [apply b64encode_alphabet|].
  rewrite !length_app, La, Lb. reflexivity.
Qed.

Lemma hash_password_format_witness :
  List.length (hash_password (lit "password123") (lit "0123456789abcdef")) = 66%nat.
Proof.
  destruct (hash_password_format (lit "password123") (lit "0123456789abcdef"))
    as (a & b & _ & _ & _ & _ & _ & H); [reflexivity | exact H].
Defined.

(** *** Tokens *)

(** X6.  A token that does not hold exactly two dots is rejected as
    malformed, before anything in it is decoded. *)
Theorem decode_token_dot_count (token : str) (config : AppConfig) (now : Z) :
  occurrences "."%byte token <> 2%nat ->
  decode_token token config now = Raise (ValueError "Malformed token").
Proof.
  intros H. apply decode_token_malformed. rewrite split_length. lia.
Qed.

Lemma decode_token_dot_count_witness :
  decode_token (lit "not a token") test_config 1000
  = Raise (ValueError "Malformed token")
  /\ decode_token (sample_token ++ lit ".x") test_config 1000
     = Raise (ValueError "Malformed token").
Proof.
  split; apply decode_token_dot_count; vm_compute; discriminate.
Defined.

(** X7.  [decode_token] gives a payload only for a token of three
    segments whose third segment decodes to the HMAC-SHA256 of the first
    two under the configured secret, whose second segment decodes to
    JSON text of that payload, and whose expiry is an integer after
    the current time. *)
Theorem decode_token_sound (token : str) (config : AppConfig) (now : Z)
    (payload : json) :
  decode_token token config now = Ok payload ->
  exists h p s raw exp,
    token = h ++ lit "." ++ p ++ lit "." ++ s
    /\ _b64decode s = Ok (expected_signature config h p)
    /\ _b64decode p = Ok raw
    /\ Json.loads raw = Ok payload
    /\ (x <- py_get payload (lit "exp") (JInt 0);; py_int x) = Ok exp
    /\ (now < exp)%Z.
Proof.
  intros H.
  destruct (split "."%byte token) as [|h [|p [|s [|x l]]]] eqn:S;
    try (rewrite decode_token_malformed in H by (rewrite S; discriminate);
         discriminate).
  rewrite (decode_token_three _ _ _ _ _ _ S) in H.
  destruct (_b64decode s) as [supplied|e] eqn:Hs; [|discriminate].
  cbn [bind] in H. unfold compare_digest in H.
  destruct (bytes_eqb _ supplied) eqn:E; [|discriminate].
  apply bytes_eqb_eq in E. subst supplied. cbn [negb] in H.
  destruct (_b64decode p) as [raw|e] eqn:Hp; [|discriminate]. cbn [bind] in H.
  destruct (Json.loads raw) as [v|e] eqn:Hl; [|discriminate]. cbn [bind] in H.
  destruct (py_get v (lit "exp") (JInt 0)) as [x|e] eqn:Hg; [|discriminate].
  cbn [bind] in H.
  destruct (py_int x) as [exp|e] eqn:Hi; [|discriminate]. cbn [bind] in H.
  destruct (now >=? exp)%Z eqn:Hn; [discriminate|].
  injection H as <-.
  apply split_three in S as (-> & _).
  exists h, p, s, raw, exp. rewrite Hg. cbn [bind].
  repeat split; try assumption.
  rewrite Z.geb_leb in Hn. apply Z.leb_gt in Hn. exact Hn.
Qed.

Lemma decode_token_sound_witness :
  exists h p s raw exp,
    sample_token = h ++ lit "." ++ p ++ lit "." ++ s
    /\ _b64decode s = Ok (expected_signature test_config h p)
    /\ _b64decode p = Ok raw
    /\ Json.loads raw = Ok (Json.claims 1 1000 4600)
    /\ (x <- py_get (Json.claims 1 1000 4600) (lit "exp") (JInt 0);; py_int x) = Ok exp
    /\ (1000 < exp)%Z.
Proof.
  apply (decode_token_sound sample_token test_config 1000).
  vm_compute. reflexivity.
Defined.

(** X8.  A token issued under one secret is rejected with the
    invalid-signature error under a configuration whose secret gives
    its first two segments another HMAC. *)
Theorem token_of_other_secret (user_id : Z) (issuer verifier : AppConfig)
    (issued now : Z) :
  let p := claims_segment user_id issued (issued + token_exp_seconds issuer) in
  expected_signature verifier header_segment p
  <> expected_signature issuer header_segment p ->
  decode_token (generate_token user_id issuer issued) verifier now
  = Raise (ValueError "Invalid signature").
Proof.
  intros p Hne.
  rewrite (decode_token_three _ _ _ _ _ _ (generate_token_split user_id issuer issued)).
  fold p. rewrite Base64Facts.b64decode_b64encode. cbn [bind].
  unfold compare_digest.
  destruct (bytes_eqb _ _) eqn:E; [apply bytes_eqb_eq in E; contradiction|].
  reflexivity.
Qed.

Lemma token_of_other_secret_witness :
  decode_token (generate_token 1 test_config 1000) other_config 1000
  = Raise (ValueError "Invalid signature").
Proof.
  apply (token_of_other_secret 1 test_config other_config 1000 1000).
  vm_compute. discriminate.
Defined.

Lemma decode_generate_expired user_id config issued now :
  (issued + token_exp_seconds config <= now)%Z ->
  decode_token (generate_token user_id config issued) config now
  = Raise (ValueError "Token expired").
Proof.
  intros H.
  erewrite (decode_token_signed _ _ now _ _ _
              (compact (Json.claims user_id issued (issued + token_exp_seconds config)))
              _ (issued + token_exp_seconds config)
              (generate_token_split user_id config issued)).
  - replace (now >=? _)%Z with true; [reflexivity|].
    symmetry. apply geb_expired. lia.
  - apply Base64Facts.b64decode_b64encode.
  - apply Base64Facts.b64decode_b64encode.
  - apply JsonFacts.loads_claims.
  - reflexivity.
Qed.

(** X9.  A token issued at time [issued] decodes under the same
    configuration exactly until its time to live has passed: before
    [issued + token_exp_seconds] it gives its claims, and from that
    instant on it is rejected as expired. *)
Theorem issued_token_lifetime (user_id : Z) (config : AppConfig) (issued now : Z) :
  decode_token (generate_token user_id config issued) config now
  = if (now <? issued + token_exp_seconds config)%Z
    then Ok (Json.claims user_id issued (issued + token_exp_seconds config))
    else Raise (ValueError "Token expired").
Proof.
  destruct (Z.ltb_spec now (issued + token_exp_seconds config)) as [H|H].
  - apply decode_generate_token. exact H.
  - apply decode_generate_expired. exact H.
Qed.

(** X10.  Every token [generate_token] makes is the fixed header
    segment, a dot, a claims segment, a dot and a signature segment of
    43 characters; the segments are in the URL-safe base64 alphabet, so
    the token holds exactly two dots and no white space. *)
Theorem generate_token_format (user_id : Z) (config : AppConfig) (issued : Z) :
  exists p s,
    generate_token user_id config issued
    = sample_header ++ lit "." ++ p ++ lit "." ++ s
    /\ forallb b64url_char p = true
    /\ forallb b64url_char s = true
    /\ List.length s = 43%nat
    /\ occurrences "."%byte (generate_token user_id config issued) = 2%nat.
Proof.
  exists (claims_segment user_id issued (issued + token_exp_seconds config)).
  exists (_b64encode (expected_signature config header_segment
            (claims_segment user_id issued (issued + token_exp_seconds config)))).
  split; [apply generate_token_eq|].
  split; [apply b64encode_alphabet|].
  split; [apply b64encode_alphabet|].
  split.
  - rewrite b64encode_length. unfold expected_signature.
    rewrite hmac_sha256_length. reflexivity.
  - assert (H := split_length "."%byte (generate_token user_id config issued)).
    rewrite generate_token_split in H. cbn [List.length] in H. lia.
Qed.

(** ** The store *)

Lemma find_app {A} (f : A -> bool) (l : list A) (x : A) :
  find f (l ++ [x]) =
  match find f l with
  | Some y => Some y
  | None => if f x then Some x else None
  end.
Proof.
  induction l as [|y l IH]; [reflexivity|].
  cbn [app find]. destruct (f y); [reflexivity | exact IH].
Qed.

Lemma find_none_forall {A} (f : A -> bool) (l : list A) :
  Forall (fun x => f x = false) l -> find f l = None.
Proof.
  induction 1 as [|x l Hx _ IH]; [reflexivity|].
  cbn [find]. now rewrite Hx.
Qed.

Lemma find_some_existsb {A} (f : A -> bool) (l : list A) (x : A) :
  find f l = Some x -> existsb f l = true.
Proof.
  induction l as [|y l IH]; [discriminate|].
  cbn [find existsb]. destruct (f y); [reflexivity | exact IH].
Qed.

Lemma email_absent db e :
  get_user_by_email db e = None -> ~ In e (map email (users db)).
Proof.
  unfold get_user_by_email. induction (users db) as [|r l IH]; [auto|].
  cbn [find map In]. destruct (str_eqb (email r) e) eqn:E; [discriminate|].
  intros H [K|K]; [|exact (IH H K)].
  unfold str_eqb in E. rewrite K, bytes_eqb_refl in E. discriminate.
Qed.

Lemma id_fresh db :
  wf_db db -> get_user_by_id db (sequence db + 1) = None.
Proof.
  intros (_ & _ & H). unfold get_user_by_id. apply find_none_forall.
  eapply Forall_impl; [|exact H]. cbn beta. intros r Hr. apply Z.eqb_neq. lia.
Qed.

Lemma create_user_absent db e hash name ts :
  get_user_by_email db e = None ->
  create_user db e hash name ts
  = (Ok (sequence db + 1)%Z, with_row db (new_row db e hash name ts)).
Proof.
  intros H. unfold create_user, get_user_by_email in *.
  rewrite (find_none_existsb _ _ H). reflexivity.
Qed.

Lemma create_user_present db e hash name ts row :
  get_user_by_email db e = Some row ->
  create_user db e hash name ts = (Raise IntegrityError, db).
Proof.
  intros H. unfold create_user, get_user_by_email in *.
  rewrite (find_some_existsb _ _ _ H). reflexivity.
Qed.

Lemma wf_with_row db e hash name ts :
  wf_db db -> get_user_by_email db e = None ->
  wf_db (with_row db (new_row db e hash name ts)).
Proof.
  intros (He & Hi & Hs) Habs. unfold wf_db, with_row, new_row. cbn [users sequence id].
  rewrite !map_app. cbn [map email id].
  repeat split.
  - apply NoDup_app; [exact He | repeat constructor; auto |].
    intros x Hx [K|[]]. subst x. exact (email_absent db e Habs Hx).
  - apply NoDup_app; [exact Hi | repeat constructor; auto |].
    intros x Hx [K|[]]. subst x. apply in_map_iff in Hx as (r & Hr & Hin).
    rewrite Forall_forall in Hs. specialize (Hs r Hin). lia.
  - apply Forall_app. split.
    + eapply Forall_impl; [|exact Hs]. cbn beta. intros r Hr. lia.
    + repeat constructor. cbn [id]. lia.
Qed.

Lemma lookup_new_row db row :
  get_user_by_id db (id row) = None ->
  get_user_by_id (with_row db row) (id row) = Some row.
Proof.
  unfold get_user_by_id, with_row. cbn [users]. intros H.
  rewrite find_app, H, Z.eqb_refl. reflexivity.
Qed.

Lemma lookup_new_email db row :
  get_user_by_email db (email row) = None ->
  get_user_by_email (with_row db row) (email row) = Some row.
Proof.
  unfold get_user_by_email, with_row. cbn [users]. intros H.
  rewrite find_app, H. unfold str_eqb. rewrite bytes_eqb_refl. reflexivity.
Qed.

(** X11.  [create_user] keeps the table well formed: after it, as
    before, no two rows share an email or an id and no id is above the
    sequence.  The empty table is well formed, so every table the
    program builds is. *)
Theorem create_user_keeps_invariant (db : Database) (e hash : str)
    (name : option str) (ts : str) :
  wf_db empty_db
  /\ (wf_db db -> wf_db (snd (create_user db e hash name ts))).
Proof.
  split.
  - repeat split; constructor.
  - intros H. destruct (get_user_by_email db e) as [row|] eqn:E.
    + rewrite (create_user_present _ _ _ _ _ _ E). exact H.
    + rewrite (create_user_absent _ _ _ _ _ E). now apply wf_with_row.
Qed.

Lemma sample_db_wf : wf_db sample_db.
Proof.
  repeat split.
  - repeat constructor. intros [].
  - repeat constructor. intros [].
  - repeat constructor. cbn. lia.
Qed.

Lemma create_user_keeps_invariant_witness :
  wf_db (snd (create_user sample_db (lit "bob@example.com") (lit "AAAA$AAAA") None
                          (lit "2024-01-02T00:00:00"))).
Proof.
  apply (create_user_keeps_invariant sample_db (lit "bob@example.com")
           (lit "AAAA$AAAA") None (lit "2024-01-02T00:00:00")).
  repeat split.
  - repeat constructor. intros [].
  - repeat constructor. intros [].
  - repeat constructor. cbn. lia.
Defined.

(** X12.  On a well-formed table [create_user] either inserts or
    refuses.  If no row has the email, it gives the next id of the
    sequence, and the new row is then the one found under that id and
    under the email.  If a row has the email, it raises
    [IntegrityError] and the table is unchanged. *)
Theorem create_user_then_lookup (db : Database) (e hash : str)
    (name : option str) (ts : str) :
  wf_db db ->
  match get_user_by_email db e with
  | None =>
      let row := new_row db e hash name ts in
      exists db',
        create_user db e hash name ts = (Ok (id row), db')
        /\ get_user_by_id db' (id row) = Some row
        /\ get_user_by_email db' e = Some row
        /\ List.length (users db') = S (List.length (users db))
  | Some _ => create_user db e hash name ts = (Raise IntegrityError, db)
  end.
Proof.
  intros H. destruct (get_user_by_email db e) as [row|] eqn:E.
  - exact (create_user_present _ _ _ _ _ _ E).
  - cbn zeta. exists (with_row db (new_row db e hash name ts)).
    split; [exact (create_user_absent _ _ _ _ _ E)|].
    split; [apply lookup_new_row; cbn [new_row id]; now apply id_fresh|].
    split; [apply (lookup_new_email db (new_row db e hash name ts)); exact E|].
    unfold with_row. cbn [users]. rewrite length_app. cbn [List.length]. lia.
Qed.

Lemma create_user_then_lookup_witness :
  create_user sample_db (lit "alice@example.com") (lit "AAAA$AAAA") None
              (lit "2024-01-02T00:00:00")
  = (Raise IntegrityError, sample_db).
Proof.
  exact (create_user_then_lookup sample_db (lit "alice@example.com")
           (lit "AAAA$AAAA") None (lit "2024-01-02T00:00:00") sample_db_wf).
Defined.

(** X13.  [create_user] touches nothing else: the rows found under
    every other email and under every id other than the one it hands
    out are the same before and after the call. *)
Theorem create_user_frame (db : Database) (e hash : str)
    (name : option str) (ts : str) :
  let db' := snd (create_user db e hash name ts) in
  (forall e', e' <> e -> get_user_by_email db' e' = get_user_by_email db e')
  /\ (forall i, i <> (sequence db + 1)%Z ->
                get_user_by_id db' i = get_user_by_id db i).
Proof.
  cbn zeta. unfold create_user.
  destruct (existsb _ (users db)); cbn [snd]; [split; reflexivity|].
  unfold get_user_by_email, get_user_by_id. cbn [users]. split.
  - intros e' Hne. rewrite find_app. cbn [email].
    destruct (find _ (users db)); [reflexivity|].
    destruct (str_eqb e e') eqn:K; [|reflexivity].
    apply bytes_eqb_eq in K. congruence.
  - intros i Hne. rewrite find_app. cbn [id].
    destruct (find _ (users db)); [reflexivity|].
    destruct (Z.eqb_spec (sequence db + 1) i); [congruence | reflexivity].
Qed.

Lemma create_user_frame_witness :
  get_user_by_email
    (snd (create_user sample_db (lit "bob@example.com") (lit "AAAA$AAAA") None
                      (lit "2024-01-02T00:00:00")))
    (lit "alice@example.com")
  = get_user_by_email sample_db (lit "alice@example.com")
  /\ get_user_by_id
       (snd (create_user sample_db (lit "bob@example.com") (lit "AAAA$AAAA") None
                         (lit "2024-01-02T00:00:00"))) 1
     = get_user_by_id sample_db 1.
Proof.
  destruct (create_user_frame sample_db (lit "bob@example.com") (lit "AAAA$AAAA")
              None (lit "2024-01-02T00:00:00")) as [He Hi].
  split; [apply He | apply Hi]; vm_compute; discriminate.
Defined.

(** ** Registration, login and the bearer token *)

Lemma register_user_ok db e password name config env :
  wf_db db ->
  validate_email e = Ok e ->
  get_user_by_email db e = None ->
  register_user db e password name config env
  = (Ok (registered db e password name config env),
     with_row db (registered_row db e password name env)).
Proof.
  intros Hwf Hv Habs. unfold register_user. rewrite Hv, Habs.
  rewrite (create_user_absent _ _ _ _ _ Habs).
  fold (registered_row db e password name env).
  assert (L := lookup_new_row db (registered_row db e password name env)
                 (id_fresh db Hwf)).
  change (id (registered_row db e password name env)) with (sequence db + 1)%Z in L.
  rewrite L. reflexivity.
Qed.

Lemma registered_row_found db e password name env :
  wf_db db ->
  get_user_by_email db e = None ->
  get_user_by_email (with_row db (registered_row db e password name env)) e
  = Some (registered_row db e password name env).
Proof.
  intros Hwf Habs.
  exact (lookup_new_email db (registered_row db e password name env) Habs).
Qed.

(** X14.  On a well-formed table, registering a valid address that no
    row has succeeds: one row is added, under the next id, holding the
    address, the display name and a credential made by [hash_password]
    (which verifies the password); the result carries a
    token for the new id and the public view of the new row; and the
    table stays well formed. *)
Theorem register_user_success (db : Database) (e password : str)
    (name : option str) (config : AppConfig) (env : Env) :
  wf_db db ->
  validate_email e = Ok e ->
  get_user_by_email db e = None ->
  let row := mkRow (sequence db + 1) e (hash_password password (urandom16 env))
                   name (current_timestamp env) in
  let db' := {| users := users db ++ [row]; sequence := sequence db + 1 |} in
  register_user db e password name config env
  = (Ok (mkAuthResult (generate_token (sequence db + 1) config (time_now env))
                      (row_to_dict row)), db')
  /\ verify_password password (password_hash row) = Ok true
  /\ wf_db db'.
Proof.
  intros Hwf Hv Habs. cbn zeta. split; [|split].
  - exact (register_user_ok db e password name config env Hwf Hv Habs).
  - cbn [password_hash]. apply verify_hash_password.
  - exact (wf_with_row db e (hash_password password (urandom16 env)) name
             (current_timestamp env) Hwf Habs).
Qed.

Lemma register_user_success_witness :
  wf_db {| users := users sample_db
             ++ [mkRow 2 (lit "bob@example.com")
                       (hash_password (lit "password123") (urandom16 sample_env))
                       None (current_timestamp sample_env)];
           sequence := 2 |}.
Proof.
  apply (register_user_success sample_db (lit "bob@example.com") (lit "password123")
           None test_config sample_env).
  - exact sample_db_wf.
  - vm_compute. reflexivity.
  - reflexivity.
Defined.

Lemma authenticate_registered db e password name config env now :
  wf_db db ->
  get_user_by_email db e = None ->
  authenticate_user (with_row db (registered_row db e password name env)) e password
                    config now
  = Ok (mkAuthResult (generate_token (sequence db + 1) config now)
          (row_to_dict (registered_row db e password name env))).
Proof.
  intros Hwf Habs. unfold authenticate_user.
  rewrite (registered_row_found db e password name env Hwf Habs).
  cbn [password_hash registered_row new_row].
  rewrite verify_hash_password. reflexivity.
Qed.

Lemma grown_db_eq :
  grown_db = with_row sample_db (registered_row sample_db new_email new_password None
                                                sample_env).
Proof.
  unfold grown_db. rewrite register_user_ok.
  - reflexivity.
  - exact sample_db_wf.
  - vm_compute. reflexivity.
  - reflexivity.
Qed.

(** X15.  After a successful registration, logging in with the same
    address and password succeeds and gives the same view of the user,
    with a token for the same id; a password whose PBKDF2 key under the
    stored salt differs is refused with the generic error. *)
Theorem register_then_login (db : Database) (e password : str)
    (name : option str) (config : AppConfig) (env : Env) (now : Z) :
  wf_db db ->
  validate_email e = Ok e ->
  get_user_by_email db e = None ->
  let db' := snd (register_user db e password name config env) in
  exists r,
    fst (register_user db e password name config env) = Ok r
    /\ authenticate_user db' e password config now
       = Ok (mkAuthResult (generate_token (sequence db + 1) config now) (user r))
    /\ (forall other,
           derived_key other (urandom16 env) <> derived_key password (urandom16 env) ->
           authenticate_user db' e other config now
           = Raise (ValueError "Invalid email or password")).
Proof.
  intros Hwf Hv Habs. cbn zeta.
  rewrite (register_user_ok db e password name config env Hwf Hv Habs).
  cbn [fst snd]. eexists. split; [reflexivity|].
  split; [exact (authenticate_registered db e password name config env now Hwf Habs)|].
  unfold authenticate_user.
  rewrite (registered_row_found db e password name env Hwf Habs).
  cbn [password_hash registered_row new_row].
  intros other Hne.
  destruct (verify_other_key other password (urandom16 env)) as (b & -> & Hb).
  cbn [bind]. destruct b; [|reflexivity].
  destruct Hne. now apply Hb.
Qed.

Lemma register_then_login_witness :
  exists r,
    fst (register_user sample_db new_email new_password None test_config sample_env)
    = Ok r
    /\ authenticate_user
         (snd (register_user sample_db new_email new_password None test_config
                             sample_env))
         new_email new_password test_config 2000
       = Ok (mkAuthResult (generate_token (sequence sample_db + 1) test_config 2000)
                          (user r))
    /\ (forall other,
           derived_key other (urandom16 sample_env)
           <> derived_key new_password (urandom16 sample_env) ->
           authenticate_user
             (snd (register_user sample_db new_email new_password None test_config
                                 sample_env))
             new_email other test_config 2000
           = Raise (ValueError "Invalid email or password")).
Proof.
  apply (register_then_login sample_db new_email new_password None test_config
           sample_env 2000).
  - exact sample_db_wf.
  - vm_compute. reflexivity.
  - reflexivity.
Defined.

(** X16.  After a successful registration, a second registration of the
    same address, with any password, name and environment, is refused
    with the already-registered error and leaves the table as the first
    one made it. *)
Theorem register_twice (db : Database) (e password password2 : str)
    (name name2 : option str) (config : AppConfig) (env env2 : Env) :
  wf_db db ->
  validate_email e = Ok e ->
  get_user_by_email db e = None ->
  let db' := snd (register_user db e password name config env) in
  register_user db' e password2 name2 config env2
  = (Raise (ValueError "Email already registered"), db').
Proof.
  intros Hwf Hv Habs. cbn zeta.
  rewrite (register_user_ok db e password name config env Hwf Hv Habs).
  cbn [snd]. unfold register_user at 1. rewrite Hv.
  rewrite (registered_row_found db e password name env Hwf Habs). reflexivity.
Qed.

Lemma register_twice_witness :
  register_user
    (snd (register_user sample_db new_email new_password None test_config sample_env))
    new_email (lit "another password") (Some (lit "Bob")) test_config sample_env
  = (Raise (ValueError "Email already registered"),
     snd (register_user sample_db new_email new_password None test_config sample_env)).
Proof.
  apply (register_twice sample_db new_email new_password (lit "another password")
           None (Some (lit "Bob")) test_config sample_env sample_env).
  - exact sample_db_wf.
  - vm_compute. reflexivity.
  - reflexivity.
Defined.

(** *** The bearer token *)

Lemma header_get_bearer verb route token content :
  header_get (headers (bearer_request verb route token content)) (lit "Authorization")
  = Some (lit "Bearer " ++ token).
Proof. reflexivity. Qed.

Lemma startswith_bearer token : startswith (lit "Bearer " ++ token) (lit "Bearer ") = true.
Proof. reflexivity. Qed.

Lemma split_once_bearer token :
  nth 1 (split_once " "%byte (lit "Bearer " ++ token)) [] = token.
Proof. reflexivity. Qed.

(** What [_require_user] does with a request that carries a bearer
    token. *)
Lemma require_user_bearer self request now token :
  header_get (headers request) (lit "Authorization") = Some (lit "Bearer " ++ token) ->
  _require_user self request now =
  (payload <- try_except (decode_token token (config self) now) is_ValueError
                (fun exc => Raise (UnauthorizedError (exn_str exc)));;
   user_id <- py_get payload (lit "sub") JNull;;
   match user_id with
   | JNull => Raise (UnauthorizedError "Token missing subject")
   | _ =>
       n <- py_int user_id;;
       if sqlite_integer n then
         match get_user_by_id (db self) n with
         | None => Raise (UnauthorizedError "User not found")
         | Some row => Ok (row_to_dict row)
         end
       else Raise OutsideModel
   end).
Proof.
  intros H. unfold _require_user. rewrite H.
  rewrite startswith_bearer, split_once_bearer. reflexivity.
Qed.

Lemma require_user_issued self request now user_id issued row :
  header_get (headers request) (lit "Authorization")
  = Some (lit "Bearer " ++ generate_token user_id (config self) issued) ->
  (now < issued + token_exp_seconds (config self))%Z ->
  sqlite_integer user_id = true ->
  get_user_by_id (db self) user_id = Some row ->
  _require_user self request now = Ok (row_to_dict row).
Proof.
  intros Hh Hnow Hrange Hrow.
  rewrite (require_user_bearer _ _ _ _ Hh).
  rewrite (decode_generate_token _ _ _ _ Hnow). cbn [try_except bind].
  destruct (py_get_claims user_id issued (issued + token_exp_seconds (config self))
              JNull) as [-> _].
  cbn [bind py_int]. rewrite Hrange, Hrow. reflexivity.
Qed.

(** X17.  The token a successful registration returns opens the
    profile: until it expires, a request that carries it as its bearer
    token is recognised by [_require_user] as the registered user, and
    [handle_profile] answers 200 with the same view of the user as the
    registration gave. *)
Theorem registered_token_authorizes (db : Database) (e password : str)
    (name : option str) (config : AppConfig) (env : Env) (request : Request)
    (now : Z) :
  wf_db db ->
  validate_email e = Ok e ->
  get_user_by_email db e = None ->
  (0 <= sequence db < 9223372036854775807)%Z ->
  (now < time_now env + token_exp_seconds config)%Z ->
  header_get (headers request) (lit "Authorization")
  = Some (lit "Bearer " ++ generate_token (sequence db + 1) config (time_now env)) ->
  let db' := snd (register_user db e password name config env) in
  exists r,
    fst (register_user db e password name config env) = Ok r
    /\ token r = generate_token (sequence db + 1) config (time_now env)
    /\ _require_user (mkApp config db') request now = Ok (user r)
    /\ handle_profile (mkApp config db') request now
       = Ok (json_response (JDict [(lit "user", user r)]) 200).
Proof.
  intros Hwf Hv Habs Hseq Hnow Hh. cbn zeta.
  rewrite (register_user_ok db e password name config env Hwf Hv Habs).
  cbn [fst snd]. eexists. split; [reflexivity|].
  unfold registered. cbn [token user]. split; [reflexivity|].
  assert (R : _require_user
                (mkApp config (with_row db (registered_row db e password name env)))
                request now
              = Ok (row_to_dict (registered_row db e password name env))).
  { apply (require_user_issued _ _ _ (sequence db + 1)%Z (time_now env)).
    - exact Hh.
    - exact Hnow.
    - unfold sqlite_integer. apply andb_true_intro. split; apply Z.leb_le; lia.
    - exact (lookup_new_row db (registered_row db e password name env)
             (id_fresh db Hwf)). }
  split; [exact R|]. unfold handle_profile. rewrite R. reflexivity.
Qed.

Lemma registered_token_authorizes_witness :
  exists r,
    fst (register_user sample_db new_email new_password None test_config sample_env)
    = Ok r
    /\ token r = generate_token (sequence sample_db + 1) test_config (time_now sample_env)
    /\ _require_user (mkApp test_config grown_db) profile_request 2000 = Ok (user r)
    /\ handle_profile (mkApp test_config grown_db) profile_request 2000
       = Ok (json_response (JDict [(lit "user", user r)]) 200).
Proof.
  apply (registered_token_authorizes sample_db new_email new_password None
           test_config sample_env profile_request 2000).
  - exact sample_db_wf.
  - vm_compute. reflexivity.
  - reflexivity.
  - cbn. lia.
  - cbn. lia.
  - reflexivity.
Defined.

(** ** The errors of the handlers *)

Lemma ro_raise {A} codes e : http_in codes e = true -> @raises_only A codes (Raise e).
Proof. intros H. exact H. Qed.

Lemma ro_bind {A B} codes (c : result A) (k : A -> result B) :
  raises_only codes c -> (forall a, raises_only codes (k a)) ->
  raises_only codes (bind c k).
Proof. destruct c; cbn [bind]; auto. Qed.

Lemma ro_try {A} codes (c : result A) catches h :
  raises_only codes c -> (forall e, raises_only codes (h e)) ->
  raises_only codes (try_except c catches h).
Proof.
  destruct c as [a|e]; cbn [try_except]; [auto|].
  intros Hc Hh. destruct (catches e); [apply Hh | exact Hc].
Qed.

Lemma ro_weaken {A} codes (r : result A) : raises_only [] r -> raises_only codes r.
Proof. destruct r as [a|[]]; cbn; auto; discriminate. Qed.

Create HintDb quiet.

Ltac ro_step :=
  match goal with
  | |- raises_only _ (Ok _) => exact I
  | |- raises_only _ (Raise _) => apply ro_raise; reflexivity
  | |- raises_only _ (bind _ _) => apply ro_bind; [|intros ?]
  | |- raises_only _ (try_except _ _ _) => apply ro_try; [|intros ?]
  | |- raises_only _ _ => solve [auto with quiet]
  | |- raises_only _ _ => solve [apply ro_weaken; auto with quiet]
  | |- raises_only _ (if ?b then _ else _) => destruct b
  | |- raises_only _ (match ?x with _ => _ end) => destruct x
  end.

Ltac ro := repeat ro_step.

Lemma quiet_emit x r : raises_only [] r -> raises_only [] (Base64.emit x r).
Proof. destruct r; auto. Qed.

Lemma quiet_a2b_loop s q l p k : raises_only [] (Base64.a2b_loop s q l p k).
Proof.
  revert q l p k. induction s as [|c s IH]; intros q l p k; cbn [Base64.a2b_loop].
  - destruct q as [|[|q]]; ro.
  - destruct (Byte.eqb c Base64.PAD).
    + destruct (Nat.leb 2 q); [destruct (Nat.leb 4 (q + S p))|]; [exact I | apply IH ..].
    + cbn zeta. destruct (N.leb 64 _); [apply IH|].
      destruct q as [|[|[|q]]]; [apply IH | apply quiet_emit, IH ..].
Qed.

Lemma quiet_b64decode s : raises_only [] (_b64decode s).
Proof.
  unfold _b64decode, Base64.urlsafe_b64decode, Base64.a2b_base64. cbn zeta.
  destruct (is_ascii _); [apply quiet_a2b_loop | reflexivity].
Qed.
#[local] Hint Resolve quiet_b64decode : quiet.

Lemma quiet_prepend {B} x (r : result (str * B)) :
  raises_only [] r -> raises_only [] (Json.prepend x r).
Proof. destruct r; auto. Qed.

Lemma quiet_utf8 n : raises_only [] (Json.utf8_of_code_point n).
Proof. unfold Json.utf8_of_code_point. ro. Qed.

Lemma quiet_scanstring_upto n s :
  (List.length s <= n)%nat -> raises_only [] (Json.scanstring s).
Proof.
  revert s. induction n as [|n IH]; intros s Hs.
  - destruct s; [reflexivity | cbn in Hs; lia].
  - destruct s as [|c rest]; cbn [Json.scanstring]; [reflexivity|].
    repeat first
      [ apply quiet_prepend; apply IH; cbn [List.length] in *; lia
      | match goal with
        | |- raises_only _ (match Json.utf8_of_code_point ?n with _ => _ end) =>
            let H := fresh in
            assert (H := quiet_utf8 n); destruct (Json.utf8_of_code_point n);
            [|exact H]
        end
      | ro_step ].
Qed.

Lemma quiet_scanstring s : raises_only [] (Json.scanstring s).
Proof. apply (quiet_scanstring_upto (List.length s)). lia. Qed.
#[local] Hint Resolve quiet_scanstring : quiet.

Lemma quiet_scan fuel :
  (forall s, raises_only [] (Json.scan_once fuel s))
  /\ (forall s pairs, raises_only [] (Json.JSONObject fuel s pairs))
  /\ (forall s items, raises_only [] (Json.JSONArray fuel s items)).
Proof.
  induction fuel as [|fuel (IH1 & IH2 & IH3)]; [repeat split; reflexivity|].
  split; [|split].
  - intros s. cbn [Json.scan_once].
    repeat first [apply IH2 | apply IH3 | ro_step].
  - intros s pairs. cbn [Json.JSONObject].
    repeat first [apply IH1 | apply IH2 | ro_step].
  - intros s items. cbn [Json.JSONArray].
    repeat first [apply IH1 | apply IH3 | ro_step].
Qed.

Lemma quiet_loads s : raises_only [] (Json.loads s).
Proof.
  unfold Json.loads.
  repeat first [apply (proj1 (quiet_scan _)) | ro_step].
Qed.
#[local] Hint Resolve quiet_loads : quiet.

Lemma quiet_py_get obj key default : raises_only [] (py_get obj key default).
Proof. unfold py_get. ro. Qed.

Lemma quiet_py_int x : raises_only [] (py_int x).
Proof. unfold py_int. ro. Qed.

Lemma quiet_strip_lower x : raises_only [] (strip_lower x).
Proof. unfold strip_lower. ro. Qed.

Lemma quiet_strip_value x : raises_only [] (strip_value x).
Proof. unfold strip_value. ro. Qed.

Lemma quiet_validate_email e : raises_only [] (validate_email e).
Proof. unfold validate_email. ro. Qed.
#[local] Hint Resolve quiet_py_get quiet_py_int quiet_strip_lower quiet_strip_value
  quiet_validate_email : quiet.

Lemma quiet_unpack2 parts : raises_only [] (unpack2 parts).
Proof. destruct parts as [|a [|b [|c l]]]; reflexivity. Qed.

Lemma quiet_unpack3 parts : raises_only [] (unpack3 parts).
Proof. destruct parts as [|a [|b [|c [|d l]]]]; reflexivity. Qed.
#[local] Hint Resolve quiet_unpack2 quiet_unpack3 : quiet.

Lemma quiet_decode_token token config now :
  raises_only [] (decode_token token config now).
Proof.
  unfold decode_token. apply ro_bind; [ro|]. intros [[h p] s]. ro.
Qed.

Lemma quiet_verify_password password stored :
  raises_only [] (verify_password password stored).
Proof.
  unfold verify_password.
  assert (H := quiet_unpack2 (split "$"%byte stored)).
  destruct (unpack2 _) as [[a b]|e].
  - apply ro_bind; [auto with quiet|]. intros salt.
    apply ro_bind; [auto with quiet|]. intros expected. exact I.
  - destruct (is_ValueError e); [exact I | exact H].
Qed.

Lemma quiet_authenticate_user db e password config now :
  raises_only [] (authenticate_user db e password config now).
Proof.
  unfold authenticate_user. destruct (get_user_by_email db e); [|reflexivity].
  apply ro_bind; [apply quiet_verify_password|]. intros v.
  destruct (negb v); [reflexivity | exact I].
Qed.

Lemma quiet_register_user db e password name config env :
  raises_only [] (fst (register_user db e password name config env)).
Proof.
  unfold register_user.
  assert (H := quiet_validate_email e).
  destruct (validate_email e); [|exact H].
  destruct (get_user_by_email db e); [reflexivity|].
  unfold create_user. destruct (existsb _ _); [reflexivity|].
  destruct (get_user_by_id _ _); [exact I | reflexivity].
Qed.
Lemma quiet_verify_password_value password stored :
  raises_only [] (verify_password_value password stored).
Proof.
  unfold verify_password_value.
  assert (H := quiet_unpack2 (split "$"%byte stored)).
  destruct (unpack2 _) as [[a b]|e].
  - apply ro_bind; [auto with quiet|]. intros salt.
    apply ro_bind; [auto with quiet|]. intros expected.
    apply ro_bind; [destruct password; reflexivity|]. intros data. exact I.
  - destruct (is_ValueError e); [exact I | exact H].
Qed.

Lemma quiet_authenticate_user_value db e password config now :
  raises_only [] (authenticate_user_value db e password config now).
Proof.
  unfold authenticate_user_value. destruct (get_user_by_email db e); [|reflexivity].
  apply ro_bind; [apply quiet_verify_password_value|]. intros v.
  destruct (negb v); [reflexivity | exact I].
Qed.
#[local] Hint Resolve quiet_decode_token quiet_authenticate_user
  quiet_authenticate_user_value : quiet.

Lemma ro_sub {A} codes codes' (r : result A) :
  incl codes codes' -> raises_only codes r -> raises_only codes' r.
Proof.
  intros Hi. destruct r as [a|e]; [auto|]. destruct e; cbn; auto.
  rewrite !existsb_exists. intros (x & Hx & E). exists x. auto.
Qed.

Lemma ro_parse_json request : raises_only [400%Z] (_parse_json request).
Proof.
  unfold _parse_json, request_json. apply ro_try; [|intros e; reflexivity].
  destruct (body request); [exact I | apply ro_weaken, quiet_loads].
Qed.

Lemma ro_handle_login self request now :
  raises_only [400%Z; 401%Z] (handle_login self request now).
Proof.
  unfold handle_login.
  apply ro_bind; [apply (ro_sub [400%Z]); [|apply ro_parse_json]|].
  { intros x [<-|[]]. left. reflexivity. }
  intros payload. ro.
Qed.

Lemma ro_register_fields request : raises_only [400%Z] (register_fields request).
Proof.
  unfold register_fields. apply ro_bind; [apply ro_parse_json|].
  intros payload. ro.
Qed.

Lemma ro_register_error exc : http_in [400%Z; 409%Z] (register_error exc) = true.
Proof. unfold register_error. cbn zeta. destruct (str_in _ _); reflexivity. Qed.

Lemma ro_handle_register self request env :
  raises_only [400%Z; 409%Z] (fst (handle_register self request env)).
Proof.
  unfold handle_register.
  assert (F := ro_register_fields request).
  destruct (register_fields request) as [[[e password] name]|err].
  - assert (V := quiet_validate_email e).
    destruct (validate_email e) as [a|exc].
    + assert (R := quiet_register_user (db self) e password name (config self) env).
      destruct (register_user _ _ _ _ _ _) as [[r|exc] db']; cbn [fst] in *; [exact I|].
      destruct (is_ValueError exc); [apply ro_register_error|].
      apply (ro_weaken _ (Raise exc)). exact R.
    + cbn [fst]. destruct (is_ValueError exc); [apply ro_register_error|].
      apply (ro_weaken _ (Raise exc)). exact V.
  - cbn [fst]. apply (ro_sub [400%Z]); [|exact F].
    intros x [<-|[]]. left. reflexivity.
Qed.

Lemma ro_require_user self request now :
  raises_only [401%Z] (_require_user self request now).
Proof.
  unfold _require_user. cbn zeta.
  destruct (negb _); [reflexivity|].
  apply ro_bind; [ro|]. intros payload.
  apply ro_bind; [ro|]. intros user_id.
  destruct user_id; ro.
Qed.

Lemma ro_handle_profile self request now :
  raises_only [401%Z] (handle_profile self request now).
Proof.
  unfold handle_profile. apply ro_bind; [apply ro_require_user | intros; exact I].
Qed.

Lemma ro_send_fields self request now :
  raises_only [400%Z; 401%Z] (send_fields self request now).
Proof.
  unfold send_fields.
  apply ro_bind; [apply (ro_sub [401%Z]); [|apply ro_require_user]|].
  { intros x [<-|[]]. right. left. reflexivity. }
  intros _.
  apply ro_bind; [apply (ro_sub [400%Z]); [|apply ro_parse_json]|].
  { intros x [<-|[]]. left. reflexivity. }
  intros payload. ro.
Qed.

Lemma raises_only_spec {A} codes (r : result A) code msg :
  raises_only codes r -> r = Raise (HTTPError code msg) -> In code codes.
Proof.
  intros H ->. cbn in H. apply existsb_exists in H as (x & Hx & E).
  apply Z.eqb_eq in E. now subst.
Qed.


Lemma is_empty_false (s : str) : is_empty s = false -> s <> [].
Proof. destruct s; [discriminate | discriminate]. Qed.


(** The ways [send_email] ends: nothing handed over and an error that
    is not one of the core, or the one message handed over and either a
    normal return or the error of a session that could not be closed. *)
Lemma send_email_cases config recipient subject content reply transport sent :
  let r := send_email config recipient subject content reply transport sent in
  (snd r = sent
   /\ exists e, fst r = Raised e /\ forall x, e <> Std x)
  \/ exists m,
       snd r = sent ++ [m]
       /\ (fst r = Done tt
           \/ (fst r = Raised TransportError /\ quits (transport m) = false))
       /\ sends_message (transport m) = true
       /\ mail_to m = recipient /\ mail_subject m = subject /\ mail_content m = content
       /\ mail_host m = smtp_host config
       /\ mail_login m = (smtp_username config, smtp_password config)
       /\ mail_host m <> [] /\ fst (mail_login m) <> [] /\ snd (mail_login m) <> []
       /\ snd (mail_from m) <> []
       /\ snd (mail_from m)
          = (if is_empty (smtp_from_email config) then smtp_username config
             else smtp_from_email config)
       /\ mail_reply_to m
          = match reply with
            | Some a => if is_empty a then None else Some a
            | None => None
            end.
Proof.
  cbn zeta. unfold send_email.
  destruct (is_empty (smtp_host config) || is_empty (smtp_username config)
            || is_empty (smtp_password config))%bool eqn:E.
  { left. cbn [fst snd]. split; [reflexivity|]. eexists. split; [reflexivity|].
    discriminate. }
  apply orb_false_elim in E as [E E3]. apply orb_false_elim in E as [E1 E2].
  match goal with |- context [transport ?m] => set (msg := m) end.
  cbn zeta.
  destruct (builds_message (transport msg)); cbn [negb];
    [|left; cbn [fst snd]; split; [reflexivity|]; eexists; split; [reflexivity|];
      discriminate].
  destruct (connects (transport msg)); cbn [negb];
    [|left; cbn [fst snd]; split; [reflexivity|]; eexists; split; [reflexivity|];
      discriminate].
  destruct ((if smtp_use_tls config then starts_tls (transport msg) else true)
            && logs_in (transport msg) && sends_message (transport msg))%bool eqn:H;
    [|left; cbn [andb fst snd]; split; [reflexivity|]; eexists;
      split; [reflexivity|]; discriminate].
  apply andb_prop in H as [_ Hs].
  right. exists msg.
  assert (Hfrom : snd (mail_from msg) <> []).
  { subst msg. cbn [mail_from snd].
    destruct (is_empty (smtp_from_email config)) eqn:F; auto using is_empty_false. }
  assert (Hend : fst (if (true && quits (transport msg))%bool
                      then (@Done unit tt, sent ++ [msg])
                      else (Raised TransportError, sent ++ [msg])) = Done tt
                 \/ (fst (if (true && quits (transport msg))%bool
                          then (@Done unit tt, sent ++ [msg])
                          else (Raised TransportError, sent ++ [msg]))
                     = Raised TransportError
                     /\ quits (transport msg) = false)).
  { destruct (quits (transport msg)); cbn [andb fst]; auto. }
  assert (Hsnd : snd (if (true && quits (transport msg))%bool
                      then (@Done unit tt, sent ++ [msg])
                      else (Raised TransportError, sent ++ [msg])) = sent ++ [msg]).
  { destruct (quits (transport msg)); reflexivity. }
  split; [exact Hsnd|]. split; [exact Hend|]. split; [exact Hs|].
  subst msg.
  cbn [mail_to mail_subject mail_content mail_host mail_login mail_from
       mail_reply_to fst snd] in *.
  repeat split; auto using is_empty_false.
Qed.


Lemma handle_send_not_core self request now transport sent recipient subject
    content reply e :
  send_fields self request now = Ok (recipient, subject, content, reply) ->
  fst (handle_send self request now transport sent) <> Raised (Std e).
Proof.
  intros F. unfold handle_send. rewrite F.
  destruct (send_email_cases (config self) recipient subject content reply transport sent)
    as [(_ & r & Hr & Hn) | (m & _ & [H | [H _]] & _)];
    destruct (send_email _ _ _ _ _ _ _) as [o sent']; cbn [fst] in *; subst o;
    cbn [fst]; try discriminate.
  intros K. apply (Hn e). congruence.
Qed.

(** X18.  The HTTP errors of the handlers.  [handle_login] raises an
    [HTTPError] only with status 400 or 401, [handle_register] only with
    400 or 409, [_require_user] and [handle_profile] only with 401, and
    [handle_send] only with 400 or 401: the library calls below them
    raise no [HTTPError] of their own, and what the [try] blocks
    catch is mapped to these statuses. *)
Theorem handler_error_statuses (self : JmailApplication) (request : Request)
    (now : Z) (env : Env) (transport : Mail -> Smtp) (sent : list Mail)
    (code : Z) (msg : string) :
  (handle_login self request now = Raise (HTTPError code msg) ->
   code = 400 \/ code = 401)%Z
  /\ (fst (handle_register self request env) = Raise (HTTPError code msg) ->
      code = 400 \/ code = 409)%Z
  /\ (_require_user self request now = Raise (HTTPError code msg) -> code = 401%Z)
  /\ (handle_profile self request now = Raise (HTTPError code msg) -> code = 401%Z)
  /\ (fst (handle_send self request now transport sent)
      = Raised (Std (HTTPError code msg)) ->
      code = 400 \/ code = 401)%Z.
Proof.
  repeat split.
  - intros H. apply (raises_only_spec _ _ _ _ (ro_handle_login _ _ _)) in H.
    cbn in H. intuition.
  - intros H. apply (raises_only_spec _ _ _ _ (ro_handle_register _ _ _)) in H.
    cbn in H. intuition.
  - intros H. apply (raises_only_spec _ _ _ _ (ro_require_user _ _ _)) in H.
    cbn in H. intuition.
  - intros H. apply (raises_only_spec _ _ _ _ (ro_handle_profile _ _ _)) in H.
    cbn in H. intuition.
  - intros H.
    assert (F := ro_send_fields self request now).
    destruct (send_fields self request now)
      as [[[[recipient subject] content] reply]|err] eqn:F'.
    + exfalso. revert H.
      apply (handle_send_not_core self request now transport sent
               recipient subject content reply). exact F'.
    + unfold handle_send in H. rewrite F' in H. cbn [fst] in H.
      assert (E : err = HTTPError code msg) by congruence.
      subst err. cbn in F. apply orb_prop in F as [F|F].
      * left. apply Z.eqb_eq in F. exact F.
      * right. rewrite orb_false_r in F. apply Z.eqb_eq in F. exact F.
Qed.

Lemma handler_error_statuses_witness :
  (400 = 400 \/ 400 = 401)%Z /\ (400 = 400 \/ 400 = 409)%Z /\ 401%Z = 401%Z.
Proof.
  destruct (handler_error_statuses sample_app (bare_request "POST" "/api/login")
              1000 sample_env (fun _ => willing) [] 400
              "Email and password are required") as (H1 & H2 & _).
  destruct (handler_error_statuses sample_app (bare_request "GET" "/api/profile")
              1000 sample_env (fun _ => willing) [] 401
              "Missing Authorization header") as (_ & _ & H3 & _).
  split; [apply H1; vm_compute; reflexivity|].
  split; [apply H2; vm_compute; reflexivity|].
  apply H3. vm_compute. reflexivity.
Defined.

(** ** The answer of the application *)














Lemma handle_send_done self request now transport sent response :
  fst (handle_send self request now transport sent) = Done response ->
  response = json_response (JDict [(lit "status", JStr (lit "sent"))]) 200.
Proof.
  unfold handle_send.
  destruct (send_fields self request now) as [[[[recipient subject] content] reply]|];
    [|discriminate].
  destruct (send_email _ _ _ _ _ _ _) as [[u|r] sent']; cbn [fst]; congruence.
Qed.




(** ** Sending mail *)




(** ** The bearer token, read back *)

Lemma strip_prefix_app p s r : Json.strip_prefix p s = Some r -> s = p ++ r.
Proof.
  revert s. induction p as [|x p IH]; intros s; cbn [Json.strip_prefix].
  - intros H. injection H as ->. reflexivity.
  - destruct s as [|c s]; [discriminate|].
    destruct (Byte.eqb x c) eqn:E; [|discriminate].
    apply Byte.byte_dec_bl in E. subst c. intros H. cbn [app]. f_equal. now apply IH.
Qed.

Lemma find_some_in {A} (f : A -> bool) (l : list A) (x : A) :
  find f l = Some x -> In x l /\ f x = true.
Proof. apply find_some. Qed.

(** X23.  [_require_user] gives a user only to a request whose
    [Authorization] header is [Bearer ] followed by a token that
    [decode_token] accepts at that time, and the user it gives is the
    public view of a row of the table whose id is the [sub] of the
    token. *)
Theorem require_user_sound (self : JmailApplication) (request : Request)
    (now : Z) (u : json) :
  _require_user self request now = Ok u ->
  exists token payload row,
    header_get (headers request) (lit "Authorization") = Some (lit "Bearer " ++ token)
    /\ decode_token token (config self) now = Ok payload
    /\ (x <- py_get payload (lit "sub") JNull;; py_int x) = Ok (id row)
    /\ In row (users (db self))
    /\ u = row_to_dict row.
Proof.
  intros H.
  assert (Hh : exists token,
             header_get (headers request) (lit "Authorization")
             = Some (lit "Bearer " ++ token)).
  { unfold _require_user in H. cbn zeta in H.
    destruct (header_get (headers request) (lit "Authorization")) as [h|];
      [|discriminate].
    unfold startswith in H.
    destruct (Json.strip_prefix (lit "Bearer ") h) as [token|] eqn:P; [|discriminate].
    apply strip_prefix_app in P. exists token. now rewrite P. }
  destruct Hh as (token & Hh). rewrite (require_user_bearer _ _ _ _ Hh) in H.
  destruct (decode_token token (config self) now) as [payload|exc] eqn:D;
    [|cbn [try_except] in H; destruct (is_ValueError exc); discriminate].
  cbn [try_except bind] in H.
  destruct (py_get payload (lit "sub") JNull) as [x|] eqn:G; [|discriminate].
  cbn [bind] in H.
  assert (K : exists n row,
             py_int x = Ok n /\ get_user_by_id (db self) n = Some row
             /\ u = row_to_dict row).
  { destruct x as [|b|z|f|t|l|d]; try discriminate;
      (destruct (py_int _) as [k|] eqn:Pi; [|discriminate]; cbn [bind] in H;
       destruct (sqlite_integer k); [|discriminate];
       destruct (get_user_by_id (db self) k) as [row|] eqn:R; [|discriminate];
       exists k, row; repeat split; congruence). }
  destruct K as (n & row & Pi & R & ->).
  apply find_some_in in R as [Hin Hid]. apply Z.eqb_eq in Hid. subst n.
  exists token, payload, row. rewrite G. cbn [bind]. auto.
Qed.

Lemma require_user_sound_witness :
  exists token payload row,
    header_get (headers send_request) (lit "Authorization")
    = Some (lit "Bearer " ++ token)
    /\ decode_token token (config sample_app) 1000 = Ok payload
    /\ (x <- py_get payload (lit "sub") JNull;; py_int x) = Ok (id row)
    /\ In row (users (db sample_app))
    /\ row_to_dict (mkRow 1 (lit "alice@example.com") (lit "AAAA$AAAA")
                          (Some (lit "Alice")) (lit "2024-01-01T00:00:00"))
       = row_to_dict row.
Proof.
  apply (require_user_sound sample_app send_request 1000).
  vm_compute. reflexivity.
Defined.

(** ** Requests without the fields, and the outcome of a registration *)

(** X24.  A login or registration request whose JSON body is an object
    without an [email] field (the empty body counts as the empty
    object) is answered with the 400 error that asks for email and
    password, whatever else it holds; the registration stores
    nothing. *)
Theorem missing_email_is_bad_request (self : JmailApplication) (request : Request)
    (now : Z) (env : Env) (d : list (str * json)) :
  _parse_json request = Ok (JDict d) ->
  dict_get d (lit "email") = None ->
  handle_login self request now
  = Raise (BadRequestError "Email and password are required")
  /\ handle_register self request env
     = (Raise (BadRequestError "Email and password are required"), db self).
Proof.
  intros Hp He. split.
  - unfold handle_login. rewrite Hp. cbn [bind py_get]. rewrite He.
    cbn [bind strip_lower is_ascii forallb lstrip rev map app].
    destruct (dict_get d (lit "password")); reflexivity.
  - unfold handle_register, register_fields. rewrite Hp. cbn [bind py_get]. rewrite He.
    cbn [bind strip_lower is_ascii forallb lstrip rev map app].
    destruct (dict_get d (lit "password")); destruct (dict_get d (lit "display_name"));
      reflexivity.
Qed.

Lemma missing_email_is_bad_request_witness :
  handle_login sample_app (bare_request "POST" "/api/login") 1000
  = Raise (BadRequestError "Email and password are required")
  /\ handle_register sample_app (bare_request "POST" "/api/register") sample_env
     = (Raise (BadRequestError "Email and password are required"), db sample_app).
Proof.
  split.
  - apply (missing_email_is_bad_request sample_app (bare_request "POST" "/api/login")
             1000 sample_env []); reflexivity.
  - apply (missing_email_is_bad_request sample_app (bare_request "POST" "/api/register")
             1000 sample_env []); reflexivity.
Defined.

(** X25.  The outcome of [handle_register] on a request whose fields
    were read, over a well-formed table: 400 when the normalised
    address does not pass [validate_email], 409 when a row already has
    it, and otherwise the 200 response with the token and the view of
    the row that was added.  In the first two cases the table is
    unchanged. *)
Theorem handle_register_outcome (self : JmailApplication) (request : Request)
    (env : Env) (e password : str) (name : option str) :
  wf_db (db self) ->
  register_fields request = Ok (e, password, name) ->
  handle_register self request env =
  if negb (Re.matches EMAIL_REGEX e) then
    (Raise (BadRequestError "Invalid email address"), db self)
  else
    match get_user_by_email (db self) e with
    | Some _ => (Raise (ConflictError "Email already registered"), db self)
    | None =>
        (Ok (auth_response (registered (db self) e password name (config self) env)),
         with_row (db self) (registered_row (db self) e password name env))
    end.
Proof.
  intros Hwf Hf. unfold handle_register. rewrite Hf.
  unfold validate_email at 1.
  destruct (negb (Re.matches EMAIL_REGEX e)) eqn:M; [reflexivity|].
  assert (Hv : validate_email e = Ok e) by (unfold validate_email; now rewrite M).
  destruct (get_user_by_email (db self) e) as [row|] eqn:G.
  - unfold register_user. rewrite Hv, G. reflexivity.
  - rewrite (register_user_ok _ _ _ _ _ _ Hwf Hv G). reflexivity.
Qed.

Lemma handle_register_outcome_witness :
  handle_register sample_app (register_request (lit "alice@example.com") new_password)
                  sample_env
  = (Raise (ConflictError "Email already registered"), db sample_app).
Proof.
  apply (handle_register_outcome sample_app
           (register_request (lit "alice@example.com") new_password) sample_env
           (lit "alice@example.com") new_password None).
  - exact sample_db_wf.
  - vm_compute. reflexivity.
Defined.

(** ** Login, read back *)

(** X26.  [handle_login] answers 200 only when the body is JSON whose
    [email], stripped and lowered, is the address of a row of the table
    and whose [password] verifies against the credential of that row;
    the answer then carries a token for the id of that row and its
    public view. *)
Theorem handle_login_sound (self : JmailApplication) (request : Request)
    (now : Z) (response : Response) :
  handle_login self request now = Ok response ->
  exists payload e password row,
    _parse_json request = Ok payload
    /\ (x <- py_get payload (lit "email") (JStr []);; strip_lower x) = Ok e
    /\ py_get payload (lit "password") (JStr []) = Ok (JStr password)
    /\ get_user_by_email (db self) e = Some row
    /\ verify_password password (password_hash row) = Ok true
    /\ response
       = auth_response (mkAuthResult (generate_token (id row) (config self) now)
                                     (row_to_dict row)).
Proof.
  unfold handle_login.
  destruct (_parse_json request) as [payload|]; [|discriminate]. cbn [bind].
  destruct (py_get payload (lit "email") (JStr [])) as [x|] eqn:He; [|discriminate].
  cbn [bind].
  destruct (strip_lower x) as [e|] eqn:Hs; [|discriminate]. cbn [bind].
  destruct (py_get payload (lit "password") (JStr [])) as [pw|] eqn:Hp;
    [|discriminate].
  cbn [bind].
  destruct (_ || _)%bool; [discriminate|].
  intros H.
  assert (H' : (r <- try_except
                      (authenticate_user_value (db self) e pw (config self) now)
                      is_ValueError
                      (fun exc => Raise (UnauthorizedError (exn_str exc)));;
                Ok (json_response
                      (JDict [(lit "token", JStr (token r)); (lit "user", user r)])
                      200))
               = Ok response)
    by (destruct pw; try exact H; discriminate H).
  clear H.
  destruct (authenticate_user_value (db self) e pw (config self) now) as [r|exc] eqn:A;
    [|cbn [try_except bind] in H'; destruct (is_ValueError exc); discriminate].
  cbn [try_except bind] in H'.
  unfold authenticate_user_value in A.
  destruct (get_user_by_email (db self) e) as [row|] eqn:Hr; [|discriminate].
  destruct (verify_password_value pw (password_hash row)) as [[|]|exc] eqn:Hv;
    cbn [bind negb] in A; try discriminate.
  destruct (verify_password_value_true _ _ Hv) as (password & ->).
  rewrite verify_password_value_str in Hv.
  exists payload, e, password, row.
  split; [reflexivity|]. split; [rewrite He; exact Hs|]. split; [exact Hp|].
  split; [exact Hr|]. split; [exact Hv|].
  unfold auth_response.
  assert (R : r = mkAuthResult (generate_token (id row) (config self) now)
                               (row_to_dict row)) by congruence.
  subst r. cbn [token user] in *. congruence.
Qed.

(** A login that succeeds: after the registration of [new_email] in
    [sample_db], the login request with the same password. *)
Lemma login_after_register :
  handle_login (mkApp test_config grown_db) (login_request new_email new_password) 2000
  = Ok (auth_response
          (mkAuthResult (generate_token (sequence sample_db + 1) test_config 2000)
             (row_to_dict (registered_row sample_db new_email new_password None
                                          sample_env)))).
Proof.
  unfold handle_login.
  assert (P : _parse_json (login_request new_email new_password)
              = Ok (JDict [(lit "email", JStr new_email);
                           (lit "password", JStr new_password)]))
    by (vm_compute; reflexivity).
  rewrite P. cbn [bind].
  assert (G1 : py_get (JDict [(lit "email", JStr new_email);
                              (lit "password", JStr new_password)])
                      (lit "email") (JStr []) = Ok (JStr new_email)) by reflexivity.
  assert (G2 : py_get (JDict [(lit "email", JStr new_email);
                              (lit "password", JStr new_password)])
                      (lit "password") (JStr []) = Ok (JStr new_password))
    by reflexivity.
  assert (S : strip_lower (JStr new_email) = Ok new_email)
    by (vm_compute; reflexivity).
  rewrite G1. cbn [bind]. rewrite S. cbn [bind]. rewrite G2. cbn [bind].
  change (negb (truthy (JStr new_email)) || negb (truthy (JStr new_password)))%bool
    with false.
  cbv iota.
  change (db (mkApp test_config grown_db)) with grown_db.
  change (config (mkApp test_config grown_db)) with test_config.
  rewrite grown_db_eq, authenticate_user_value_str.
  rewrite (authenticate_registered sample_db new_email new_password None test_config
             sample_env 2000 sample_db_wf eq_refl).
  reflexivity.
Qed.

Lemma handle_login_sound_witness :
  exists payload e password row,
    _parse_json (login_request new_email new_password) = Ok payload
    /\ (x <- py_get payload (lit "email") (JStr []);; strip_lower x) = Ok e
    /\ py_get payload (lit "password") (JStr []) = Ok (JStr password)
    /\ get_user_by_email (db (mkApp test_config grown_db)) e = Some row
    /\ verify_password password (password_hash row) = Ok true
    /\ auth_response
         (mkAuthResult (generate_token (sequence sample_db + 1) test_config 2000)
            (row_to_dict (registered_row sample_db new_email new_password None
                                         sample_env)))
       = auth_response
           (mkAuthResult
              (generate_token (id row) (config (mkApp test_config grown_db)) 2000)
              (row_to_dict row)).
Proof.
  apply (handle_login_sound (mkApp test_config grown_db)
           (login_request new_email new_password) 2000).
  exact login_after_register.
Defined.

(** ** Tokens that no longer open the profile *)

(** X29.  A request whose bearer token was issued by [generate_token]
    is refused with the 401 error [Token expired] once the token has
    expired, and with the 401 error [User not found] when it has not
    expired but no row of the table has the id it was issued for;
    [handle_send] then delivers nothing. *)
Theorem stale_token_is_unauthorized (self : JmailApplication) (request : Request)
    (user_id issued now : Z) (transport : Mail -> Smtp) (sent : list Mail) :
  header_get (headers request) (lit "Authorization")
  = Some (lit "Bearer " ++ generate_token user_id (config self) issued) ->
  (issued + token_exp_seconds (config self) <= now)%Z
  \/ (sqlite_integer user_id = true /\ get_user_by_id (db self) user_id = None) ->
  _require_user self request now
  = Raise (UnauthorizedError
             (if (issued + token_exp_seconds (config self) <=? now)%Z
              then "Token expired" else "User not found"))
  /\ snd (handle_send self request now transport sent) = sent.
Proof.
  intros Hh Hc.
  assert (R : _require_user self request now
              = Raise (UnauthorizedError
                         (if (issued + token_exp_seconds (config self) <=? now)%Z
                          then "Token expired" else "User not found"))).
  { rewrite (require_user_bearer _ _ _ _ Hh).
    destruct (Z.leb_spec (issued + token_exp_seconds (config self)) now) as [He|Hl].
    - rewrite (decode_generate_expired _ _ _ _ He). reflexivity.
    - destruct Hc as [Hc|[Hs Hn]]; [lia|].
      rewrite (decode_generate_token _ _ _ _ Hl). cbn [try_except bind].
      destruct (py_get_claims user_id issued
                  (issued + token_exp_seconds (config self)) JNull) as [-> _].
      cbn [bind py_int]. rewrite Hs, Hn. reflexivity. }
  split; [exact R|].
  unfold handle_send, send_fields. rewrite R. reflexivity.
Qed.

Lemma stale_token_is_unauthorized_witness :
  _require_user sample_app send_request 4600
  = Raise (UnauthorizedError
             (if (1000 + token_exp_seconds (config sample_app) <=? 4600)%Z
              then "Token expired" else "User not found"))
  /\ snd (handle_send sample_app send_request 4600 (fun _ => willing) []) = [].
Proof.
  apply (stale_token_is_unauthorized sample_app send_request 1 1000 4600).
  - vm_compute. reflexivity.
  - left. vm_compute. discriminate.
Defined.

(** ** The answer handed to the server *)

Lemma status_lookup_some code text :
  status_lookup status_texts code = Some text ->
  exists reason, lit text = Json.int_repr code ++ lit " " ++ reason.
Proof.
  unfold status_texts. cbn [status_lookup].
  repeat match goal with
         | |- context [Z.eqb ?k code] =>
             destruct (Z.eqb_spec k code) as [<-|_];
             [intros H; injection H as <-; eexists; vm_compute; reflexivity|]
         end.
  discriminate.
Qed.

Lemma header_get_app d key v :
  header_get d key = None -> header_get (d ++ [(key, v)]) key = Some v.
Proof.
  induction d as [|[k w] d IH]; cbn [app header_get].
  - unfold str_eqb. now rewrite bytes_eqb_refl.
  - destruct (str_eqb k key); [discriminate | exact IH].
Qed.

(** X27.  [to_wsgi] hands the body on unchanged; its status line
    starts with the decimal status and a space, also for a status it
    has no name for; it keeps the headers of the response in order, and
    adds a [Content-Length] with the length of the body exactly when
    the response had none. *)
Theorem to_wsgi_shape (response : Response) :
  let line := fst (fst (to_wsgi response)) in
  let hs := snd (fst (to_wsgi response)) in
  let content := snd (to_wsgi response) in
  content = response_body response
  /\ (exists reason, line = Json.int_repr (status response) ++ lit " " ++ reason)
  /\ match header_get (response_headers response) (lit "Content-Length") with
     | Some _ => hs = response_headers response
     | None =>
         hs = response_headers response
              ++ [(lit "Content-Length", Json.int_repr (Z.of_nat (List.length content)))]
         /\ header_get hs (lit "Content-Length")
            = Some (Json.int_repr (Z.of_nat (List.length content)))
     end.
Proof.
  cbn zeta. unfold to_wsgi. cbn [fst snd].
  split; [reflexivity|]. split.
  - destruct (status_lookup status_texts (status response)) as [text|] eqn:E.
    + exact (status_lookup_some _ _ E).
    + eexists. reflexivity.
  - destruct (header_get (response_headers response) (lit "Content-Length")) eqn:E;
      [reflexivity|].
    split; [reflexivity | apply header_get_app; exact E].
Qed.

(** ** The profile and the stored credentials *)

Lemma lookup_public (l1 l2 : list Row) (n : Z) :
  map public l1 = map public l2 ->
  option_map row_to_dict (find (fun r => Z.eqb (id r) n) l1)
  = option_map row_to_dict (find (fun r => Z.eqb (id r) n) l2).
Proof.
  revert l2. induction l1 as [|r1 l1 IH]; intros [|r2 l2] H; try discriminate;
    [reflexivity|].
  cbn [map] in H. unfold public at 1 3 in H. injection H as Hi He Hd Hc Ht.
  cbn [find].
  rewrite Hi. destruct (Z.eqb (id r2) n); [|exact (IH l2 Ht)].
  cbn [option_map]. unfold row_to_dict. now rewrite Hi, He, Hd, Hc.
Qed.

(** X28.  The profile does not show the credentials: two tables whose
    rows agree on id, email, display name and creation time give the
    same answer to every profile request, whatever the credentials
    they store. *)
Theorem profile_hides_credentials (conf : AppConfig) (db1 db2 : Database)
    (request : Request) (now : Z) :
  map public (users db1) = map public (users db2) ->
  handle_profile (mkApp conf db1) request now
  = handle_profile (mkApp conf db2) request now.
Proof.
  intros H. unfold handle_profile. f_equal.
  unfold _require_user. cbn zeta. cbn [config db].
  destruct (negb _); [reflexivity|].
  destruct (try_except _ _ _) as [payload|]; [|reflexivity]. cbn [bind].
  destruct (py_get payload (lit "sub") JNull) as [x|]; [|reflexivity]. cbn [bind].
  assert (K : forall n,
             match get_user_by_id db1 n with
             | Some row => Ok (row_to_dict row)
             | None => Raise (UnauthorizedError "User not found")
             end
             = match get_user_by_id db2 n with
               | Some row => Ok (row_to_dict row)
               | None => Raise (UnauthorizedError "User not found")
               end).
  { intros n. assert (L := lookup_public (users db1) (users db2) n H).
    unfold get_user_by_id.
    destruct (find _ (users db1)); destruct (find _ (users db2));
      cbn [option_map] in L; congruence. }
  destruct x; try reflexivity;
    (destruct (py_int _) as [k|]; [|reflexivity]; cbn [bind];
     destruct (sqlite_integer k); [apply K | reflexivity]).
Qed.

Lemma profile_hides_credentials_witness :
  handle_profile (mkApp test_config sample_db) send_request 1000
  = handle_profile (mkApp test_config rehashed_db) send_request 1000.
Proof.
  apply (profile_hides_credentials test_config sample_db rehashed_db send_request 1000).
  reflexivity.
Defined.
